(* ===== verification/_CoqProject ===== *)
-Q . S2P
Prelude.v
HashMapModel.v
HashMapAList.v
HeaderModel.v
HeaderCow.v
MultiMapSpec.v
HeaderMapModel.v
HeaderMapTrace.v
HeaderMapCow.v
HeaderMapAlgebra.v
HeaderWire.v
HeaderWireCow.v
HeaderIter.v
HeaderChecked.v
HeaderBorrow.v
DocTests.v
DocTestsCow.v
