(* ===== verification/Prelude.v ===== *)
(** * Verification of [src/lib/src/http/header.rs]: HTTP headers and header maps

    ** The program

    [header.rs] is the header collection of the web framework: [Header], a
    name and a value, and [HeaderMap], which keeps the values of each name in
    the order they were added.  A header is built by [Header::new] or
    converted from a typed header of the protocol library ([From<T>]), and is
    rendered as [name: value] ([Display]).  A header map stores its headers
    in a [HashMap] from the name to the vector of its values; [add] and
    [add_all] append to the vector of a name, [replace] and [replace_all]
    overwrite it, [remove] and [remove_all] delete, [get], [get_one],
    [contains], [len] and [is_empty] query, and [iter], [into_iter] and
    [into_iter_raw] enumerate.  No operation returns an error; three reach
    code that can panic ([len], [get_one] and the conversion [From<T>]).

    ** The development, file by file

    Every definition carries the name it has in the source.  A [&self] method
    is a function of the map; a [&mut self] method is a computation in the
    state monad [St] of this file, from the map before the call to the result
    and the map after it.

    - [Prelude] (this file): the state monad with its notation ([let*],
      [;;], scope [hdr_scope]) and laws; [Result], [is_some], [Vec::push],
      [Vec::append] and [mem::replace] of the standard library; lemmas on
      strings, on the entries of a finite map and on lists grouped by a key;
      the hint databases.
    - [HashMapModel]: [std::collections::HashMap], which the source only
      calls.  [HashMap.Ops] is the interface of the operations [header.rs]
      uses, [HashMap.Laws] what they promise; the order of iteration is left
      open.  [HashMap.gmap_ops] implements it by stdpp's [gmap].
      [HashMap.eqb] is [==] of hash maps as the library computes it.
      [HashMapFacts] relates a lawful map to the [gmap] of its entries
      ([HashMap.to_gmap]) and proves that [==] decides equality of entries.
    - [HashMapAList]: a second implementation, by association lists, which
      iterates in another order.
    - [HeaderModel], [Module Header]: [struct Header] with its derived
      equality and hash, [Header::new], [Display::fmt] written against the
      writer behind the formatter ([Header.Write]) with the short-circuit of
      [write!], [to_string], [From<T>] against the two capabilities of a
      typed header ([Header.HyperHeader]), and [Into<Header>]
      ([Header.IntoHeader]).  Two writers: a [String], which never fails, and
      a buffer of fixed capacity ([Header.Bounded]), which does.
    - [HeaderCow], [Module Cow]: the fields of a header as [Cow<'h, str>],
      borrowed for a lifetime or owned, and [Header::new], equality,
      [Display] and [From<T>] over them; [Cow.erase] maps to the headers of
      [HeaderModel].  [Module Lft]: lifetimes as the sets of the scopes they
      depend on, ['static] the empty set and ['a: 'b] inclusion;
      [Cow.has_lft h c] is the typing [c : Cow<'h, str>].
    - [MultiMapSpec], [Module MultiMap]: the specification of the header map,
      a finite map from names to sequences of values with one function per
      operation, and the invariant that no name has an empty sequence.
    - [HeaderMapModel], [Module HeaderMap]: [struct HeaderMap] and every
      method of [impl HeaderMap], over any [HashMap.Ops]; the abstraction
      [HeaderMap.contents] to [MultiMap] and the invariant [HeaderMap.wf].
    - [HeaderMapTrace], [Module Trace]: sequences of calls of the six methods
      that change the map ([Trace.call], [Trace.run], [Trace.run_all]) and
      the maps reachable from [HeaderMap::new()] ([Trace.reachable]).
    - [HeaderMapCow]: the header map as the source declares it, over
      [HashMap<Cow<'h, str>, Vec<Cow<'h, str>>>].  [Module CowHashMap] is a
      hash map with [Cow] keys over one with text keys: an entry is kept
      under the text of its key and holds the key it was created with, which
      [insert] and [entry] do not replace.  [Module CowMap] has every method
      of [impl HeaderMap] over it, [get<'a>] and [iter<'s>] returning text
      borrowed for the lifetime of the borrow of the map;
      [CowMap.add_typed], [CowMap.replace_typed], [CowMap.add_all_typed]
      and [CowMap.replace_all_typed] are the bounds of the four signatures
      that store text (['p: 'h], ['n: 'h], ['v: 'h]), [CowMap.typed h] the
      typing [self : HeaderMap<'h>], and [CowMap.contents] the erasure to
      [MultiMap].
    - [HeaderMapAlgebra], [Module Algebra]: [==] on header maps, the loops by
      which a consumer rebuilds a map from what a drained map yields, and the
      grouping of an iteration by name.
    - [HeaderWire], [Module Wire]: the boundary to the layer that sends a
      message, which is not in [header.rs] and is modelled from its
      description: the drain of a map written one header per line
      ([Wire.write_headers], [Wire.send], and [Wire.send_into] for any
      writer) and a reader of that text ([Wire.read_headers],
      [Wire.receive]).
    - [HeaderWireCow], [Module WireCow]: the reader of [HeaderWire] in
      front of the map of [HeaderMapCow]: a receiver whose headers are
      slices of the text it read ([WireCow.borrow], [WireCow.receive]).
      Like the reader, it is not code of the source.
    - [HeaderIter], [Module Iter]: the iterators [get], [iter] and
      [into_iter] return and the loops of [len] and [remove_all], run one
      [next] at a time ([Iter.FlatMap], [Iter.next], [Iter.collect],
      [Iter.count]); [Iter.nexts] is the iterator after some calls and
      [Iter.eventually] what some call reaches.
    - [HeaderChecked], [Module Checked]: the operations that can panic, with
      the panic as an error value: [Iterator::count] and [len] on [usize]
      ([Z] with the wrap-around or the overflow check of the build written
      out), the index [values[0]] of [get_one], and [format!] in [From<T>],
      through which [add] and [replace] of a typed header panic.
    - [HeaderBorrow], [Module Borrow]: the map in one place and the
      iterators that borrow it beside it ([Borrow.state]), and what its owner
      does as a step relation ([Borrow.step]): a [&mut self] method, which
      the borrow check allows only when no borrow is live, the start of a
      borrow by [iter] or [get], [next] on a live iterator, the end of a
      borrow.  [Borrow.fire] runs the events.  The borrow check is the
      premise of a rule of the relation, not a theorem.
    - [DocTests]: the seventeen examples of the documentation comments of
      [header.rs], the two of [Header::new] and the fifteen of the map,
      statement by statement.
    - [DocTestsCow]: the examples of the map over the map of
      [HeaderMapCow], with the conversions the source makes: a literal into
      a borrowed [Cow], a typed header into a name borrowed for ['static]
      and an owned value.

    ** What is proved

    - Each method, on every branch: what [get], [contains] and [len] return
      after [add], [replace], [replace_all], [add_all] and [remove], for the
      name of the call and for every other name; the result of [replace];
      [get_one] as the head of [get]; [remove_all] and the iterators up to
      the order of the names, with the values of each name in the order they
      were added ([HeaderMapModel], section [queries]).  On a name the map
      does not contain, [get] and [get_one] return nothing, [remove] changes
      nothing and [replace] is [add] and returns [false]
      ([HeaderMap.absent_noop]).
    - Refinement: every method commutes with [HeaderMap.contents], so a
      header map implements [MultiMap], along every sequence of calls
      ([Trace.run_all_refines]); what the queries return is therefore the
      same over every lawful hash map ([Trace.observations_independent]).
    - The invariant: [HeaderMap.wf] holds of every map reachable by calls
      that give [replace_all] and [add_all] a vector that is not empty
      ([Trace.reachable_wf], by induction on [Trace.reachable]); under it
      [contains] agrees with [get] and [get_one], and [is_empty] with [len]
      ([HeaderMap.wf_queries]).  With an empty vector the two low-level
      methods break it
      ([HeaderMap.replace_all_nil], [HeaderMap.add_all_nil]).
    - Laws: [replace] is [remove] then [add]; calls on different names
      commute ([Trace.run_commute]); [add_all] is a loop of [add_raw]
      ([Algebra.add_all_adds]); [==] holds exactly when [contains] and [get]
      agree ([Algebra.eqb_spec]).
    - Round trips: the headers [remove_all] returns, and the raw entries
      [into_iter_raw] yields, rebuild the map ([Algebra.collect_remove_all],
      [Algebra.from_raw_into_iter_raw]).
    - On the wire: the lines written for headers whose names have no colon
      and whose text does not have the first character of the terminator
      ([Wire.safe]) are read back as these headers, and
      what the reader accepts is what the writer writes
      ([Wire.read_to_text], [Wire.to_text_read]); so a map that is drained,
      written, read and rebuilt is the map it was ([Wire.receive_send]).  A
      value that holds a terminator is read as two headers
      ([Wire.read_split]).  The round trip is proved for terminators that
      do not start with a colon or a space, the two characters of the
      separator of [Display].  A receiver that keeps slices of the text
      builds a [HeaderMap<'a>] for the lifetime of the text, which holds
      borrows alone ([WireCow.receive_borrows]).
    - Rendering: [to_string] is [name: value] and determines the header when
      the name has no colon; into a buffer that is too small, [fmt] fails at
      the first piece that does not fit and has written the pieces before it
      ([Header.fmt_Bounded]).  [Header.writes c text] is the contract of a
      computation that writes [text] into a buffer of fixed capacity, as far
      as it fits; it composes along the short-circuit of [write!]
      ([Header.writes_and_then]), which gives it of [fmt]
      ([Header.fmt_writes]) and of the lines of a whole map
      ([Wire.write_headers_Bounded]): a map sent into a buffer that is too
      small has been drained all the same ([Wire.send_into_Bounded]).
      Equality and rendering of a header do not depend on which fields are
      borrowed ([Cow.Header_eqb_erase]).
    - Termination: the loops of [collect] and [count] end after one call of
      [next] more than there are items ([Iter.collect_to_list],
      [Iter.collect_out_of_fuel]); so the iterators of [get] and [iter],
      collected, are the values and the headers of the contents
      ([Iter.collect_contents]), and [len] and [remove_all], run as loops,
      return what the list models of [HeaderMapModel] say
      ([Iter.len_enough], [Iter.remove_all_enough]).
    - Liveness: the call of [next] after [n] others yields the item [n] of
      what the iterator had left ([Iter.eval_nexts]); so every value of the
      map is yielded by some call, and some call returns [None], after which
      all do ([Iter.iter_live]).
    - Provenance: every key and value a map holds, and every name and value
      [into_iter] yields, is a [Cow] some call gave it, borrowed for the same
      lifetime or owned as it was given; a map built from borrowed text holds
      and yields borrowed text alone ([CowMap.stored_given]).  It is an
      instance of one invariant over a property of keys and values
      ([CowMap.run_all_every]).  An entry keeps the key it was created with
      ([CowMap.key_kept]).
    - Typing, a second instance of that invariant: calls whose arguments
      have the lifetime their signature asks for keep a [HeaderMap<'h>] one
      ([CowMap.run_all_typed]), and [into_iter] yields headers of that
      lifetime ([CowMap.into_iter_typed]).  The lifetime ['s] of [iter],
      [get] and [get_one] is an argument of their definitions; the bound
      ['h: 's] that [&'s self] implies is not part of them, and is a
      hypothesis of the lemma that needs it ([CowMap.iter_borrows]).
    - Erasure: each method over [Cow] is the step of the specification on
      the text of its arguments ([CowMap.run_erase]); so the map over [Cow]
      and the map over text answer every query alike along every sequence of
      calls ([CowMap.erase_sound]), which is why the other files keep the
      text alone.  The derived [==] of maps over [Cow] holds exactly when
      they hold the same text ([CowMap.eqb_eqv]).
    - Borrows: what the borrow check is for.  Assuming it, every live
      iterator shows the map as it is, by induction on the steps
      ([Borrow.steps_fresh]); so [next] yields headers the map holds
      ([Borrow.next_in_map]) and an iterator that ends has yielded all of
      them in order, however several iterators are interleaved
      ([Borrow.next_None_all]); readers commute ([Borrow.next_next_comm])
      and the owner can always end the borrows and change the map
      ([Borrow.release]).  Without the check an iterator yields a value the
      map no longer holds ([Borrow.dangling]).
    - Panics and bounds: [len] returns the number of values as a [usize]
      when there are at most [usize::MAX], panics beyond that with overflow
      checks and wraps without ([Checked.len_usize]); the index of [get_one]
      is in range on every map ([Checked.get_one_no_panic],
      [Checked.get_one_Ok]); [add] and [replace] of a typed
      header panic exactly when its [Display] fails, and the map is then
      untouched ([Checked.add_replace_hyper]).
    - The examples of the documentation pass over every lawful hash map
      ([DocTests.passes]), and so they do on the map that keeps [Cow]s
      ([DocTestsCow.cow_passes]).

    Each theorem that has hypotheses is applied to a concrete map in the
    section [witnesses] of its file; the maps are those of the examples of
    the source.

    ** Where the code and its description differ

    - [replace_all] and [add_all] with an empty vector store a name without
      a value, which the data model excludes: [contains] is then true while
      [get] yields nothing ([HeaderMap.replace_all_nil],
      [HeaderMap.add_all_nil]), and the derived [==] tells such a map from
      the map without the name ([Algebra.add_all_nil_differs]).
    - The rendering [name: value] is ambiguous when a name has a colon
      ([Header.to_string_ambiguous]), and a value that holds a line
      terminator is read back as two headers ([Wire.read_split]): nothing
      validates a name or a value.
    - [From<T>] panics when the typed header fails to format, so [add] and
      [replace] are not total on typed headers
      ([Checked.add_replace_hyper]).
    - [remove_all] empties the map before its caller has used a header: a
      writer that fails part way loses the rest ([Wire.send_into_Bounded]).
    - [into_iter] yields the [Cow]s as the map was given them: its headers
      own their text only where the map did ([CowMap.stored_given]).

    ** Bounds

    The definitions of [HeaderMapModel] need no fuel: every method is a
    composition of finitely many calls of the hash map, and an iterator is
    the list it yields, built by [bind] and [fmap] over the finite list of
    entries.  The loops of [HeaderIter] take fuel, the number of calls of
    [next] allowed: an iterator with [n] items left needs [n + 1], and the
    theorems give the result for every fuel above [n] and no result for any
    fuel up to [n], so the bound is exact.  The reader of [HeaderWire] takes
    fuel in the same way, one more than the number of lines; a line read
    leaves a shorter text, so fuel above the length of the text is enough on
    every text, well formed or not ([Wire.read_headers_ends]).  [next] itself
    is structurally recursive on what the outer iterator has left.
    [HeaderMap.len] is a [nat], as large as the map.  [Checked.len] is the count at the width of
    [usize], taken to be 64 bits ([Checked.usize_MAX] is [2^64 - 1]); the
    theorem covers the maps above that bound too, although no memory holds
    one.  Lifetimes are finite sets of scopes named by positive numbers; no
    bound on their number is assumed.

    ** What is not modelled

    - The hash map itself (hashing, buckets, resizing): only its interface,
      with two implementations to run the models on.
    - The borrow checker itself: the bounds of the signatures are the
      typing of [HeaderMapCow] and the exclusion of mutation while a borrow
      is live is the guard of [Borrow.step]; that the compiler enforces both
      is taken from the language.  Threads are not modelled: a map has one
      owner, and the readers of [HeaderBorrow] are interleaved, not
      parallel.
    - Iteration from the back ([next_back]) and [size_hint] of the
      iterators, which [header.rs] does not call.
    - Memory: allocation and the capacity of a [Vec] or [String].  What is
      proved of the [Cow]s is which variant they have and for which
      lifetime ([CowMap.stored_given]); allocations are not counted, and the
      clone of an owned key in [into_iter], which copies its text, is the
      key itself in [Cow.clone].  A panic on exhausted memory is not among
      those of [HeaderChecked].
    - The derived [Debug], whose output is not part of the contract, and the
      derived [Clone] of the map, which the interface of the hash map does
      not offer: a clone is the same value in a model that passes values, as
      [Cow.clone_eq] says of the clone of a [Cow] and of a header
      ([Cow.clone], [Cow.Header_clone]).
    - The typed headers of the protocol library, beyond the two
      capabilities [From<T>] uses, and the request and response pipeline
      that owns a header map, beyond the lines of headers it writes:
      neither is in [header.rs].

    ** This file

    The prelude: the state-passing monad in which the [&mut self] methods of
    the source are written, the notation scope of the development, its
    tactics and hint databases, and the lemmas on lists and options that
    several components share. *)

From stdpp Require Export ssreflect.
From stdpp Require Export gmap strings list fin_maps.
Set Warnings "-rewrite-rw".

Declare Scope hdr_scope.
Delimit Scope hdr_scope with hdr.

(** ** State passing

    A Rust method taking [&mut self] and returning [A] is a function from the
    state before the call to the result and the state after it. *)

Definition St (S A : Type) : Type := S → A * S.

Definition st_ret {S A : Type} (a : A) : St S A := λ s, (a, s).

Definition st_bind {S A B : Type} (c : St S A) (k : A → St S B) : St S B :=
  λ s, let '(a, s') := c s in k a s'.

(** A [&self] method: reads the state and leaves it as it is. *)
Definition st_gets {S A : Type} (f : S → A) : St S A := λ s, (f s, s).

(** A [&mut self] method without a result. *)
Definition st_modify {S : Type} (f : S → S) : St S unit := λ s, (tt, f s).

(** [std::mem::replace(dest, src)]: moves [src] into the place and returns
    what the place held. *)
Definition mem_replace {S : Type} (src : S) : St S S := λ dest, (dest, src).

(** The state after, and the result of, running [c] from [s]. *)
Definition exec {S A : Type} (c : St S A) (s : S) : S := (c s).2.
Definition eval {S A : Type} (c : St S A) (s : S) : A := (c s).1.

Notation "'let*' x ':=' c 'in' k" := (st_bind c (λ x, k))
  (at level 10, x binder, c at level 100, k at level 200) : hdr_scope.
Notation "c ';;' k" := (st_bind c (λ _, k))
  (at level 100, k at level 200, right associativity) : hdr_scope.

Open Scope hdr_scope.

(** ** Values of the Rust standard library *)

(** [Result<T, E>] *)
Inductive Result (T E : Type) : Type :=
  | Ok (t : T)
  | Err (e : E).
#[global] Arguments Ok {T E} t.
#[global] Arguments Err {T E} e.

Definition is_ok {T E : Type} (r : Result T E) : bool :=
  match r with Ok _ => true | Err _ => false end.

(** [Option::is_some] *)
Definition is_some {A : Type} (o : option A) : bool :=
  match o with Some _ => true | None => false end.

(** [Vec::push] *)
Definition vec_push {A : Type} (self : list A) (x : A) : list A := self ++ [x].

(** [Vec::append(&mut self, other: &mut Vec)]: moves the elements of [other]
    to the end of [self] and leaves [other] empty.  The result is the two
    vectors after the call. *)
Definition vec_append {A : Type} (self other : list A) : list A * list A :=
  (self ++ other, []).

(** ** Hint databases and tactics *)

(** [hdr] holds the rewrite rules that evaluate the state monad and the
    resolution hints of the components. *)
Create HintDb hdr discriminated.
Create Rewrite HintDb hdr.

(** Destructs the pairs and units of the context. *)
Ltac destruct_pairs :=
  repeat match goal with
  | p : _ * _ |- _ => destruct p
  | u : unit |- _ => destruct u
  end.

(** ** Laws of the state monad *)

Section st_laws.
Context {S A B C : Type}.
Implicit Types (s : S) (c : St S A) (k : A → St S B) (h : B → St S C).

Lemma st_bind_ret_l (a : A) k s : st_bind (st_ret a) k s = k a s.
Proof. done. Qed.

Lemma st_bind_ret_r c s : st_bind c st_ret s = c s.
Proof. rewrite /st_bind /st_ret. by destruct (c s). Qed.

Lemma st_bind_assoc c k h s :
  st_bind (st_bind c k) h s = st_bind c (λ a, st_bind (k a) h) s.
Proof. rewrite /st_bind. by destruct (c s). Qed.

Lemma exec_bind c k s : exec (st_bind c k) s = exec (k (eval c s)) (exec c s).
Proof. rewrite /exec /eval /st_bind. by destruct (c s). Qed.

Lemma eval_bind c k s : eval (st_bind c k) s = eval (k (eval c s)) (exec c s).
Proof. rewrite /exec /eval /st_bind. by destruct (c s). Qed.

Lemma exec_ret (a : A) s : exec (st_ret a) s = s.
Proof. done. Qed.

Lemma eval_ret (a : A) s : eval (st_ret a) s = a.
Proof. done. Qed.

Lemma exec_gets (f : S → A) s : exec (st_gets f) s = s.
Proof. done. Qed.

Lemma eval_gets (f : S → A) s : eval (st_gets f) s = f s.
Proof. done. Qed.

Lemma exec_modify (f : S → S) s : exec (st_modify f) s = f s.
Proof. done. Qed.

(** A computation run from a state is its result and the state it leaves. *)
Lemma st_run c s : c s = (eval c s, exec c s).
Proof. rewrite /eval /exec. by destruct (c s). Qed.

Lemma exec_mem_replace (src s : S) : exec (mem_replace src) s = src.
Proof. done. Qed.

Lemma eval_mem_replace (src s : S) : eval (mem_replace src) s = s.
Proof. done. Qed.

End st_laws.

(** ** Strings *)

Lemma string_app_cons (a : Ascii.ascii) (s1 s2 : string) :
  String a s1 +:+ s2 = String a (s1 +:+ s2).
Proof. done. Qed.

Lemma string_app_assoc (s1 s2 s3 : string) :
  s1 +:+ (s2 +:+ s3) = (s1 +:+ s2) +:+ s3.
Proof. induction s1 as [|a s1 IH]; [done|]. by rewrite !string_app_cons IH. Qed.

Lemma string_app_nil_r (s : string) : s +:+ "" = s.
Proof. induction s as [|a s IH]; [done|]. by rewrite string_app_cons IH. Qed.

Lemma string_app_length (s1 s2 : string) :
  String.length (s1 +:+ s2) = String.length s1 + String.length s2.
Proof. induction s1 as [|a s1 IH]; [done|]. by rewrite string_app_cons /= IH. Qed.

(** ** Options *)

Lemma is_some_true {A : Type} (o : option A) : is_some o = true ↔ is_Some o.
Proof. destruct o; split; (done || by intros []). Qed.

Lemma is_some_false {A : Type} (o : option A) : is_some o = false ↔ o = None.
Proof. by destruct o. Qed.

#[export] Hint Rewrite @exec_bind @eval_bind @exec_ret @eval_ret
  @exec_gets @eval_gets @exec_modify @exec_mem_replace @eval_mem_replace : hdr.

(** Runs the state monad symbolically. *)
Ltac st_simpl := autorewrite with hdr; simpl.

(** ** The entries of a finite map, up to their order *)

Section map_entries.
Context {K : Type} `{Countable K} {A B : Type}.
Implicit Types (g : gmap K A) (k : K) (a : A) (f : K * A → list B).

(** The entries after an insertion: the new entry and the entries under the
    other keys. *)
Lemma map_to_list_insert_delete g k a :
  map_to_list (<[k:=a]> g) ≡ₚ (k, a) :: map_to_list (delete k g).
Proof.
  rewrite -insert_delete_eq. apply map_to_list_insert, lookup_delete_eq.
Qed.

(** The entries of a map: the entry under [k], when there is one, and the
    entries under the other keys. *)
Lemma map_to_list_lookup_delete g k :
  map_to_list g ≡ₚ option_list (pair k <$> g !! k) ++ map_to_list (delete k g).
Proof.
  destruct (g !! k) as [a|] eqn:Hk; simpl.
  - by rewrite map_to_list_delete.
  - by rewrite delete_id.
Qed.

Lemma bind_map_to_list_insert f g k a :
  map_to_list (<[k:=a]> g) ≫= f ≡ₚ f (k, a) ++ (map_to_list (delete k g) ≫= f).
Proof. by rewrite map_to_list_insert_delete. Qed.

Lemma bind_map_to_list_lookup f g k :
  map_to_list g ≫= f
  ≡ₚ from_option (λ a, f (k, a)) [] (g !! k) ++ (map_to_list (delete k g) ≫= f).
Proof.
  rewrite {1}(map_to_list_lookup_delete g k) bind_app.
  destruct (g !! k); simpl; by rewrite ?app_nil_r.
Qed.

End map_entries.

(** ** Two lists built entry by entry *)

Section bind_ext.
Context {A B C D : Type}.
Context (p : A → C) (f : A → list B) (g : C → list D).

Lemma fmap_bind_ext (h : B → D) (l : list A) :
  Forall (λ x, h <$> f x = g (p x)) l →
  h <$> (l ≫= f) = (p <$> l) ≫= g.
Proof.
  induction 1 as [|x l Hx _ IH]; first done.
  by rewrite fmap_cons !bind_cons fmap_app Hx IH.
Qed.

Lemma length_bind_ext (l : list A) :
  Forall (λ x, length (f x) = length (g (p x))) l →
  length (l ≫= f) = length ((p <$> l) ≫= g).
Proof.
  induction 1 as [|x l Hx _ IH]; first done.
  by rewrite fmap_cons !bind_cons !length_app Hx IH.
Qed.

End bind_ext.

(** ** Lists of keyed groups

    A list of pairs of a key and a group, with no key twice, flattened group
    by group: the elements of one key are contiguous and in the order of
    their group. *)

Section groups.
Context {K A B : Type} `{EqDecision K}.
Context (key : B → K) (mk : K → A → B).
Context (key_mk : ∀ k a, key (mk k a) = k).
Implicit Types (l : list (K * list A)) (k : K) (vs : list A).

Lemma filter_key_fmap_eq k vs :
  filter (λ b, key b = k) (mk k <$> vs) = mk k <$> vs.
Proof.
  induction vs as [|a vs IH]; first done.
  by rewrite fmap_cons filter_cons_True ?IH.
Qed.

Lemma filter_key_fmap_ne k k' vs :
  k' ≠ k → filter (λ b, key b = k) (mk k' <$> vs) = [].
Proof.
  intros Hne. induction vs as [|a vs IH]; first done.
  rewrite fmap_cons filter_cons_False ?IH //. by rewrite key_mk.
Qed.

Lemma filter_key_groups_None l k :
  k ∉ l.*1 →
  filter (λ b, key b = k) (l ≫= λ '(k', vs), mk k' <$> vs) = [].
Proof.
  induction l as [|[k' vs] l IH]; first done.
  rewrite fmap_cons not_elem_of_cons=> -[Hne Hk].
  by rewrite bind_cons filter_app IH // filter_key_fmap_ne.
Qed.

Lemma filter_key_groups l k vs :
  NoDup l.*1 → (k, vs) ∈ l →
  filter (λ b, key b = k) (l ≫= λ '(k', vs), mk k' <$> vs) = mk k <$> vs.
Proof.
  induction l as [|[k' vs'] l IH]; first by intros _ ?%elem_of_nil.
  rewrite fmap_cons NoDup_cons bind_cons filter_app=> -[Hk' Hnd].
  intros [[= <- <-]|Hin]%elem_of_cons.
  - by rewrite filter_key_fmap_eq filter_key_groups_None // app_nil_r.
  - rewrite filter_key_fmap_ne ?IH //.
    intros ->. apply Hk', list_elem_of_fmap. by exists (k, vs).
Qed.

End groups.
