(* ===== verification/HashMapModel.v ===== *)
(** * The map the headers are stored in: [std::collections::HashMap]

    [header.rs] keeps its headers in a [HashMap<Cow<str>, Vec<Cow<str>>>] and
    only calls it: [new], [get], [insert], [remove], [entry(..).or_insert(..)],
    [iter], [into_iter] and [is_empty].  The order in which a [HashMap] yields
    its entries is not specified, so the map is modelled as an interface:

    - [HashMap.Ops]: the operations, a class over the representation [M];
    - [HashMap.Laws]: what the operations promise, lookups after each update
      and that iteration yields every entry exactly once, in some order;
    - [HashMap.gmap_ops] / [HashMap.gmap_laws]: the implementation by stdpp's
      [gmap], on which the models are run.

    [HashMap.len] and [HashMap.eqb] are [len] and [==] of the library,
    written with the operations of the interface.

    Everything the header map is proved to do is proved from [HashMap.Laws],
    and so holds for every iteration order.  The theory section relates a
    lawful map to the [gmap] with the same lookups ([to_gmap]), which makes
    the lemmas on finite maps available for every implementation. *)

From S2P Require Import Prelude.
Set Warnings "-rewrite-rw".

Module HashMap.

(** ** The interface *)

Class Ops (K V M : Type) := {
  (** [HashMap::new()] *)
  new : M;
  (** [self.get(k)] *)
  get : K → M → option V;
  (** [self.insert(k, v)]: stores [v] under [k], returns the value it
      replaces. *)
  insert : K → V → St M (option V);
  (** [self.remove(k)]: returns the value it removes. *)
  remove : K → St M (option V);
  (** [self.entry(k).or_insert(d)]: the mutable borrow of the slot of [k],
      set to [d] first when [k] is vacant.  The borrow is the value in the
      slot and the map that results from writing the slot. *)
  entry_or_insert : K → V → M → V * (V → M);
  (** [self.iter()] and [self.into_iter()]: the entries, in an order of the
      map's choice. *)
  iter : M → list (K * V);
  into_iter : M → list (K * V);
  (** [self.is_empty()] *)
  is_empty : M → bool;
}.
#[global] Hint Mode Ops - - ! : typeclass_instances.
#[global] Arguments new {K V M _} : assert.
#[global] Arguments get {K V M _} _ _ : assert.
#[global] Arguments insert {K V M _} _ _ _ : assert.
#[global] Arguments remove {K V M _} _ _ : assert.
#[global] Arguments entry_or_insert {K V M _} _ _ _ : assert.
#[global] Arguments iter {K V M _} _ : assert.
#[global] Arguments into_iter {K V M _} _ : assert.
#[global] Arguments is_empty {K V M _} _ : assert.

Class Laws (K V M : Type) `{EqDecision K} `{!Ops K V M} : Prop := {
  get_new (k : K) : get k (new : M) = None;
  insert_old (k : K) (v : V) (m : M) : eval (insert k v) m = get k m;
  get_insert (k : K) (v : V) (m : M) (k' : K) :
    get k' (exec (insert k v) m) = if decide (k = k') then Some v else get k' m;
  remove_old (k : K) (m : M) : eval (remove k) m = get k m;
  get_remove (k : K) (m : M) (k' : K) :
    get k' (exec (remove k) m) = if decide (k = k') then None else get k' m;
  entry_slot (k : K) (d : V) (m : M) :
    (entry_or_insert k d m).1 = default d (get k m);
  get_entry_put (k : K) (d : V) (m : M) (v : V) (k' : K) :
    get k' ((entry_or_insert k d m).2 v)
    = if decide (k = k') then Some v else get k' m;
  NoDup_iter (m : M) : NoDup (iter m).*1;
  elem_of_iter (m : M) (k : K) (v : V) : (k, v) ∈ iter m ↔ get k m = Some v;
  NoDup_into_iter (m : M) : NoDup (into_iter m).*1;
  elem_of_into_iter (m : M) (k : K) (v : V) :
    (k, v) ∈ into_iter m ↔ get k m = Some v;
  is_empty_spec (m : M) : is_empty m = true ↔ ∀ k, get k m = None;
}.
#[global] Hint Mode Laws - - ! - - : typeclass_instances.

(** Two maps are equal as [HashMap]'s [PartialEq] has it when they hold the
    same entries. *)
Definition eq {K V M : Type} `{!Ops K V M} (m1 m2 : M) : Prop :=
  ∀ k, get k m1 = get k m2.

(** [self.len()]: the number of entries. *)
Definition len {K V M : Type} `{!Ops K V M} (m : M) : nat :=
  length (iter m).

(** [impl PartialEq for HashMap], as the library computes it: the two maps
    have the same number of entries, and every entry of [self] is an entry of
    [other]. *)
Definition eqb {K V M : Type} `{!Ops K V M} `{EqDecision V} (self other : M) :
    bool :=
  if decide (len self ≠ len other) then false
  else forallb (λ '(key, value),
         from_option (λ v, bool_decide (value = v)) false (get key other))
       (iter self).

(** The [gmap] with the entries of [m]. *)
Definition to_gmap {K V M : Type} `{Countable K} `{!Ops K V M} (m : M) :
    gmap K V :=
  list_to_map (iter m).

(** ** The implementation by [gmap] *)

#[global] Instance gmap_ops {K V : Type} `{Countable K} : Ops K V (gmap K V) := {|
  new := ∅;
  get k m := m !! k;
  insert k v := λ m, (m !! k, <[k:=v]> m);
  remove k := λ m, (m !! k, delete k m);
  entry_or_insert k d m := (default d (m !! k), λ v, <[k:=v]> m);
  iter m := map_to_list m;
  into_iter m := map_to_list m;
  is_empty m := bool_decide (size m = 0);
|}.

#[global] Instance gmap_laws {K V : Type} `{Countable K} : Laws K V (gmap K V).
Proof.
  split; rewrite /exec /eval /=; intros; try done.
  - apply lookup_insert.
  - apply lookup_delete.
  - apply lookup_insert.
  - apply NoDup_fst_map_to_list.
  - apply elem_of_map_to_list.
  - apply NoDup_fst_map_to_list.
  - apply elem_of_map_to_list.
  - rewrite bool_decide_eq_true map_size_empty_iff. apply map_empty.
Qed.

End HashMap.

Infix "≡ₘ" := HashMap.eq (at level 70, no associativity) : hdr_scope.

(** ** Theory of lawful maps *)

Module HashMapFacts.

Section theory.
Context {K V M : Type} `{Countable K} `{!HashMap.Ops K V M} `{!HashMap.Laws K V M}.
Implicit Types (m : M) (k : K) (v d : V).

(** *** The abstraction to [gmap] *)

Lemma lookup_to_gmap m k : HashMap.to_gmap m !! k = HashMap.get k m.
Proof.
  rewrite /HashMap.to_gmap. destruct (HashMap.get k m) as [v|] eqn:Hk.
  - apply elem_of_list_to_map_1; first apply HashMap.NoDup_iter.
    by apply HashMap.elem_of_iter.
  - apply not_elem_of_list_to_map_1.
    intros [[k' v] [Hk' Hin%HashMap.elem_of_iter]]%list_elem_of_fmap.
    simpl in *. congruence.
Qed.

Lemma iter_to_gmap m : HashMap.iter m ≡ₚ map_to_list (HashMap.to_gmap m).
Proof. symmetry. apply map_to_list_to_map, HashMap.NoDup_iter. Qed.

Lemma into_iter_perm_iter m : HashMap.into_iter m ≡ₚ HashMap.iter m.
Proof.
  apply NoDup_Permutation.
  - eapply NoDup_fmap_1, HashMap.NoDup_into_iter.
  - eapply NoDup_fmap_1, HashMap.NoDup_iter.
  - intros [k v]. by rewrite HashMap.elem_of_iter HashMap.elem_of_into_iter.
Qed.

Lemma eq_to_gmap m1 m2 : m1 ≡ₘ m2 ↔ HashMap.to_gmap m1 = HashMap.to_gmap m2.
Proof.
  split.
  - intros Heq. apply map_eq=> k. by rewrite !lookup_to_gmap.
  - intros Heq k. by rewrite -!lookup_to_gmap Heq.
Qed.

Lemma to_gmap_new : HashMap.to_gmap (HashMap.new : M) = ∅.
Proof. apply map_eq=> k. by rewrite lookup_to_gmap HashMap.get_new. Qed.

Lemma to_gmap_insert k v m :
  HashMap.to_gmap (exec (HashMap.insert k v) m) = <[k:=v]> (HashMap.to_gmap m).
Proof.
  apply map_eq=> k'.
  by rewrite lookup_insert !lookup_to_gmap HashMap.get_insert.
Qed.

Lemma to_gmap_remove k m :
  HashMap.to_gmap (exec (HashMap.remove k) m) = delete k (HashMap.to_gmap m).
Proof.
  apply map_eq=> k'.
  by rewrite lookup_delete !lookup_to_gmap HashMap.get_remove.
Qed.

Lemma to_gmap_entry_put k d m v :
  HashMap.to_gmap ((HashMap.entry_or_insert k d m).2 v)
  = <[k:=v]> (HashMap.to_gmap m).
Proof.
  apply map_eq=> k'.
  by rewrite lookup_insert !lookup_to_gmap HashMap.get_entry_put.
Qed.

Lemma is_empty_to_gmap m :
  HashMap.is_empty m = true ↔ HashMap.to_gmap m = ∅.
Proof.
  rewrite HashMap.is_empty_spec map_empty.
  by setoid_rewrite lookup_to_gmap.
Qed.

(** *** The equality the library computes decides the equality of maps *)

Lemma len_to_gmap m : HashMap.len m = size (HashMap.to_gmap m).
Proof.
  rewrite /HashMap.len /HashMap.to_gmap map_size_list_to_map //.
  apply HashMap.NoDup_iter.
Qed.

Lemma forallb_iter `{EqDecision V} m1 m2 :
  forallb (λ '(key, value),
    from_option (λ v, bool_decide (value = v)) false (HashMap.get key m2))
    (HashMap.iter m1) = true
  ↔ HashMap.to_gmap m1 ⊆ HashMap.to_gmap m2.
Proof.
  rewrite forallb_forall map_subseteq_spec. split.
  - intros Hall k v Hk. rewrite lookup_to_gmap in Hk.
    apply HashMap.elem_of_iter, list_elem_of_In, Hall in Hk.
    rewrite lookup_to_gmap.
    destruct (HashMap.get k m2) as [v'|]; simpl in Hk; last done.
    by apply bool_decide_eq_true in Hk as ->.
  - intros Hsub [k v] Hk%list_elem_of_In%HashMap.elem_of_iter.
    rewrite -lookup_to_gmap in Hk. apply Hsub in Hk.
    rewrite lookup_to_gmap in Hk. by rewrite Hk /= bool_decide_eq_true.
Qed.

Lemma eqb_eq `{EqDecision V} m1 m2 : HashMap.eqb m1 m2 = true ↔ m1 ≡ₘ m2.
Proof.
  rewrite /HashMap.eqb eq_to_gmap !len_to_gmap. case_decide as Hlen.
  - split; first done. intros Heq. by rewrite Heq in Hlen.
  - rewrite forallb_iter. split.
    + intros Hsub. apply map_subseteq_size_eq; [done|lia].
    + by intros ->.
Qed.

#[global] Instance eq_dec `{EqDecision V} m1 m2 : Decision (m1 ≡ₘ m2).
Proof.
  refine (cast_if (decide (HashMap.eqb m1 m2 = true))); by rewrite -eqb_eq.
Defined.

(** *** Equality of maps is an equivalence that every operation respects *)

#[global] Instance eq_equivalence : Equivalence (HashMap.eq (M:=M)).
Proof.
  split.
  - by intros m k.
  - by intros m1 m2 Heq k.
  - intros m1 m2 m3 H12 H23 k. by rewrite H12.
Qed.

#[global] Instance get_proper k : Proper (HashMap.eq ==> (=)) (HashMap.get (M:=M) k).
Proof. by intros m1 m2 Heq. Qed.

#[global] Instance insert_proper k v :
  Proper (HashMap.eq ==> HashMap.eq) (exec (HashMap.insert (M:=M) k v)).
Proof. intros m1 m2 Heq k'. by rewrite !HashMap.get_insert Heq. Qed.

#[global] Instance remove_proper k :
  Proper (HashMap.eq ==> HashMap.eq) (exec (HashMap.remove (M:=M) k)).
Proof. intros m1 m2 Heq k'. by rewrite !HashMap.get_remove Heq. Qed.

#[global] Instance iter_proper : Proper (HashMap.eq ==> (≡ₚ)) (HashMap.iter (M:=M)).
Proof. intros m1 m2 Heq%eq_to_gmap. by rewrite !iter_to_gmap Heq. Qed.

#[global] Instance into_iter_proper :
  Proper (HashMap.eq ==> (≡ₚ)) (HashMap.into_iter (M:=M)).
Proof. intros m1 m2 Heq. by rewrite !into_iter_perm_iter Heq. Qed.

#[global] Instance is_empty_proper :
  Proper (HashMap.eq ==> (=)) (HashMap.is_empty (M:=M)).
Proof.
  intros m1 m2 Heq%eq_to_gmap. apply Bool.eq_true_iff_eq.
  by rewrite !is_empty_to_gmap Heq.
Qed.

(** *** Iteration *)

Lemma iter_new : HashMap.iter (HashMap.new : M) = [].
Proof.
  apply Permutation_nil_r. by rewrite iter_to_gmap to_gmap_new map_to_list_empty.
Qed.

Lemma is_empty_iter m : HashMap.is_empty m = true ↔ HashMap.iter m = [].
Proof.
  rewrite is_empty_to_gmap -map_to_list_empty_iff. split.
  - intros Hnil. apply Permutation_nil_r. by rewrite iter_to_gmap Hnil.
  - intros Hnil. apply Permutation_nil_r. by rewrite -iter_to_gmap Hnil.
Qed.

Lemma is_empty_fresh : HashMap.is_empty (HashMap.new : M) = true.
Proof. by rewrite is_empty_to_gmap to_gmap_new. Qed.

End theory.

End HashMapFacts.
