(* ===== verification/HashMapAList.v ===== *)
(** * A second implementation of the hash map interface: association lists

    [AList.alist_ops] implements [HashMap.Ops] by a list of entries in which
    a newer entry shadows the older entries of its key.  It iterates most
    recent key first, an order unlike [gmap]'s, and obeys the same laws
    ([AList.alist_laws]): the development is about every implementation of
    the interface, and this is one more to run the models on. *)

From S2P Require Import Prelude HashMapModel.
Set Warnings "-rewrite-rw".

Module AList.

Section alist.
Context {K V : Type} `{EqDecision K}.
Implicit Types (m : list (K * V)) (k : K) (v d : V).

(** The newest entry of [k]. *)
Fixpoint aget (k : K) (m : list (K * V)) : option V :=
  match m with
  | [] => None
  | (k', v) :: m => if decide (k' = k) then Some v else aget k m
  end.

(** Without the entries of [k]. *)
Definition adel (k : K) (m : list (K * V)) : list (K * V) :=
  filter (λ kv, kv.1 ≠ k) m.

(** The newest entry of every key, most recent key first. *)
Fixpoint norm (m : list (K * V)) : list (K * V) :=
  match m with
  | [] => []
  | (k, v) :: m => (k, v) :: adel k (norm m)
  end.

Definition aempty (m : list (K * V)) : bool :=
  match m with [] => true | _ => false end.

#[global] Instance alist_ops : HashMap.Ops K V (list (K * V)) := {|
  HashMap.new := [];
  HashMap.get := aget;
  HashMap.insert k v := λ m, (aget k m, (k, v) :: m);
  HashMap.remove k := λ m, (aget k m, adel k m);
  HashMap.entry_or_insert k d m := (default d (aget k m), λ v, (k, v) :: m);
  HashMap.iter := norm;
  HashMap.into_iter m := reverse (norm m);
  HashMap.is_empty := aempty;
|}.

(** ** The laws *)

Lemma aget_cons k' v m k :
  aget k ((k', v) :: m) = if decide (k' = k) then Some v else aget k m.
Proof. done. Qed.

Lemma aget_adel k m k' :
  aget k' (adel k m) = if decide (k = k') then None else aget k' m.
Proof.
  rewrite /adel. induction m as [|[k0 v0] m IH]; first by case_decide.
  rewrite filter_cons /=.
  repeat (case_decide; simplify_eq/=); by rewrite ?IH ?decide_True ?decide_False.
Qed.

Lemma fst_adel k m : k ∉ (adel k m).*1.
Proof.
  intros [[k' v] [-> [Hne _]%list_elem_of_filter]]%list_elem_of_fmap. done.
Qed.

Lemma NoDup_fst_adel k m : NoDup m.*1 → NoDup (adel k m).*1.
Proof.
  intros Hnd. eapply sublist_NoDup; first done.
  apply fmap_sublist, sublist_filter.
Qed.

Lemma NoDup_fst_norm m : NoDup (norm m).*1.
Proof.
  induction m as [|[k v] m IH]; first by constructor.
  simpl. constructor; [apply fst_adel|by apply NoDup_fst_adel].
Qed.

Lemma elem_of_norm m k v : (k, v) ∈ norm m ↔ aget k m = Some v.
Proof.
  induction m as [|[k0 v0] m IH]; simpl.
  - split; [by intros ?%elem_of_nil|done].
  - rewrite elem_of_cons list_elem_of_filter IH /=.
    case_decide; intuition congruence.
Qed.

Lemma aempty_spec m : aempty m = true ↔ ∀ k, aget k m = None.
Proof.
  destruct m as [|[k v] m]; simpl; first done.
  split; first done. intros Hall. specialize (Hall k).
  by rewrite decide_True in Hall.
Qed.

#[global] Instance alist_laws : HashMap.Laws K V (list (K * V)).
Proof.
  split; rewrite /exec /eval /=; intros; try done.
  - apply aget_adel.
  - apply NoDup_fst_norm.
  - apply elem_of_norm.
  - rewrite fmap_reverse reverse_Permutation. apply NoDup_fst_norm.
  - rewrite elem_of_reverse. apply elem_of_norm.
  - apply aempty_spec.
Qed.

End alist.

End AList.
