(* ===== verification/HeaderModel.v ===== *)
(** * A single header: [struct Header], [Header::new], [Display], [From<T>]

    A [Header] is a name and a value.  Both are [Cow<'h, str>] in the source;
    the model keeps their text ([string]) and erases whether it is borrowed or
    owned, which no operation of [header.rs] observes: equality, hashing,
    [borrow] and formatting of a [Cow] all go through the text it holds.

    [Header.fmt] is written against the writer behind the formatter
    ([Header.Write]), with the short-circuit on a failed write that
    [write!] has; [Header.String_write] is the writer [to_string] and
    [format!] use, which never fails, and [Header.Bounded_write] a buffer of
    fixed capacity, on which the error path of [fmt] is proved.
    [Header.writes c text] states what a computation over such a buffer
    promises when it writes [text]; it is closed under the sequencing of
    [write!] ([Header.writes_and_then]).

    The conversion [From<T>] is written against [Header.HyperHeader], the two
    capabilities of a typed header it uses ([header_name] and [fmt_header]);
    [Header.IntoHeader] is [Into<Header>], the bound of [HeaderMap::add] and
    [HeaderMap::replace]. *)

From Stdlib Require Import Ascii.
From S2P Require Import Prelude.
Set Warnings "-rewrite-rw".

Module Header.

(** ** The data *)

Record Header : Type := mk {
  name : string;
  value : string;
}.

(** [#[derive(PartialEq, Eq)]] *)
#[global] Instance Header_eq_dec : EqDecision Header.
Proof. solve_decision. Defined.

(** [#[derive(Hash)]]: headers can be the elements of a [HashSet]. *)
#[global] Instance Header_countable : Countable Header.
Proof.
  apply (inj_countable' (λ h, (name h, value h)) (λ p, mk p.1 p.2)).
  by intros [].
Defined.

(** ** Construction *)

(** [Header::new(name, value)].  The conversions [name.into()] and
    [value.into()] into [Cow<str>] keep the text. *)
Definition new (name value : string) : Header :=
  {| name := name; value := value |}.

(** ** Formatting *)

(** [fmt::Error] and [fmt::Result]. *)
Inductive fmt_Error : Type := FmtError.
Abbreviation fmt_Result := (Result unit fmt_Error).

(** The writer behind a [fmt::Formatter]: [write_str] appends the text or
    fails. *)
Class Write (W : Type) := write_str : string → St W fmt_Result.
#[global] Hint Mode Write ! : typeclass_instances.

(** One write after another, stopping at the first failure, as the pieces of
    a [write!] are written. *)
Definition and_then {W : Type} (c1 c2 : St W fmt_Result) : St W fmt_Result :=
  λ w, match c1 w with
       | (Ok _, w') => c2 w'
       | (Err e, w') => (Err e, w')
       end.

(** A [String] as a writer: appends, never fails. *)
#[global] Instance String_write : Write string :=
  λ s buf, (Ok tt, buf +:+ s).

(** A buffer of a fixed capacity as a writer: a text that does not fit in
    what is left is refused, and nothing of it is written. *)
Record Bounded : Type := mk_bounded {
  capacity : nat;
  written : string;
}.

#[global] Instance Bounded_write : Write Bounded :=
  λ s w,
    if decide (String.length (written w) + String.length s ≤ capacity w)
    then (Ok tt, {| capacity := capacity w; written := written w +:+ s |})
    else (Err FmtError, w).

(** [impl Display for Header]: [write!(f, "{}: {}", self.name, self.value)]. *)
Definition fmt {W : Type} `{!Write W} (self : Header) : St W fmt_Result :=
  and_then (write_str (name self))
    (and_then (write_str ": ") (write_str (value self))).

(** [ToString::to_string], through [Display]: formats into a fresh [String];
    [None] is the panic on a formatting error. *)
Definition to_string (self : Header) : option string :=
  match fmt self "" with
  | (Ok _, buf) => Some buf
  | (Err _, _) => None
  end.

(** ** Conversion from typed headers *)

(** What [From<T>] uses of a typed header, [T: hyper::Header +
    hyper::HeaderFormat]: its canonical name and the rendering of its value
    into a formatter. *)
Class HyperHeader (T : Type) := {
  header_name : string;
  fmt_header : T → St string fmt_Result;
}.
#[global] Hint Mode HyperHeader ! : typeclass_instances.
#[global] Arguments header_name T {_} : assert.
#[global] Arguments fmt_header {T _} _ _ : assert.

(** [format!("{}", hyper::HeaderFormatter(&hyper_header))]: the text
    [fmt_header] writes into a fresh [String]. *)
Definition format_hyper {T : Type} `{!HyperHeader T} (hyper_header : T) : string :=
  exec (fmt_header hyper_header) "".

(** [impl<T> From<T> for Header<'static>] *)
Definition from {T : Type} `{!HyperHeader T} (hyper_header : T) : Header :=
  new (header_name T) (format_hyper hyper_header).

(** [Into<Header>], the bound on what [HeaderMap::add] and
    [HeaderMap::replace] accept. *)
Class IntoHeader (H : Type) := into : H → Header.
#[global] Hint Mode IntoHeader ! : typeclass_instances.

(** A header is itself ([impl<T> From<T> for T]). *)
#[global] Instance Header_into : IntoHeader Header := λ h, h.

(** A typed header converts through [from]. *)
#[global] Instance hyper_into {T : Type} `{!HyperHeader T} : IntoHeader T | 10 :=
  from.

(** A name without a colon, as the field names of HTTP are. *)
Fixpoint no_colon (s : string) : bool :=
  match s with
  | EmptyString => true
  | String a s' => negb (Ascii.eqb a ":"%char) && no_colon s'
  end.

(** ** Properties *)

Section facts.
Implicit Types (h : Header) (n v buf : string).

Lemma new_name n v : name (new n v) = n.
Proof. done. Qed.

Lemma new_value n v : value (new n v) = v.
Proof. done. Qed.

Lemma new_eta h : new (name h) (value h) = h.
Proof. by destruct h. Qed.

#[global] Instance new_inj2 : Inj2 (=) (=) (=) new.
Proof. by intros n1 v1 n2 v2 [= -> ->]. Qed.

#[global] Instance new_inj n : Inj (=) (=) (new n).
Proof. by intros v1 v2 [= ->]. Qed.

Lemma into_header h : into h = h.
Proof. done. Qed.

Lemma into_hyper {T : Type} `{!HyperHeader T} (x : T) :
  into x = new (header_name T) (format_hyper x).
Proof. done. Qed.

(** Formatting into a [String] appends the name, a colon and a space, and the
    value, and succeeds. *)
Lemma fmt_String h buf :
  fmt h buf = (Ok tt, buf +:+ name h +:+ ": " +:+ value h).
Proof.
  rewrite /fmt /and_then /write_str /String_write /=.
  by rewrite !string_app_assoc.
Qed.

(** C16: a header renders as its name, a colon and a space, and its value,
    with nothing before, between or after; rendering into a string never
    fails. *)
Theorem to_string_spec h : to_string h = Some (name h +:+ ": " +:+ value h).
Proof. by rewrite /to_string fmt_String. Qed.

(** The example of [Header::new]. *)
Example to_string_custom :
  to_string (new "X-Custom-Header" "custom value")
  = Some "X-Custom-Header: custom value".
Proof. reflexivity. Qed.

(** Formatting writes the three pieces in order and stops at the first write
    that fails. *)
Lemma fmt_Err {W : Type} `{!Write W} h (w w' : W) e :
  write_str (name h) w = (Err e, w') → fmt h w = (Err e, w').
Proof. rewrite /fmt /and_then=> ->. done. Qed.

Lemma fmt_Ok {W : Type} `{!Write W} h (w w1 w2 w3 : W) :
  write_str (name h) w = (Ok tt, w1) →
  write_str ": " w1 = (Ok tt, w2) →
  write_str (value h) w2 = (Ok tt, w3) →
  fmt h w = (Ok tt, w3).
Proof. rewrite /fmt /and_then=> -> -> ->. done. Qed.

(** Into a bounded buffer, a write succeeds exactly when the text fits, and
    the buffer then holds it. *)
Lemma write_str_Bounded s (w : Bounded) :
  write_str s w
  = if decide (String.length (written w) + String.length s ≤ capacity w)
    then (Ok tt, mk_bounded (capacity w) (written w +:+ s))
    else (Err FmtError, w).
Proof. done. Qed.

(** C30: formatting a header into a buffer of fixed capacity succeeds exactly
    when the whole rendering fits; the buffer then holds the rendering after
    what it held, and when formatting fails it holds a part of the rendering
    short of its end: the pieces written before the failure, nothing
    else. *)
Theorem fmt_Bounded h (w : Bounded) :
  let rendering := name h +:+ ": " +:+ value h in
  let r := eval (fmt h) w in
  let w' := exec (fmt h) w in
  (is_ok r = true
   ↔ String.length (written w) + String.length rendering ≤ capacity w)
  ∧ (is_ok r = true → written w' = written w +:+ rendering)
  ∧ capacity w' = capacity w
  ∧ ∃ rest, written w +:+ rendering = written w' +:+ rest
            ∧ (is_ok r = false → rest ≠ "").
Proof.
  cbv zeta. rewrite /eval /exec /fmt /and_then !write_str_Bounded /=.
  rewrite !string_app_length /=.
  repeat (case_decide; simpl; rewrite ?write_str_Bounded ?string_app_length /=);
    rewrite ?string_app_assoc; (split_and!; [split; (done || lia)|done..|]).
  - exists "". by rewrite string_app_nil_r.
  - exists (value h). split; first done.
    intros _ Hnil%(f_equal String.length). simpl in Hnil. lia.
  - exists (": " +:+ value h). rewrite !string_app_assoc. split; first done.
    by intros _ Hnil%(f_equal String.length).
  - exists (name h +:+ ": " +:+ value h). rewrite !string_app_assoc.
    split; first done. intros _ Hnil%(f_equal String.length).
    rewrite !string_app_length /= in Hnil. lia.
Qed.

(** A header of 29 characters, into a buffer for 29 and into one for 20. *)
Example fmt_Bounded_fits :
  fmt (new "X-Custom-Header" "custom value") (mk_bounded 29 "")
  = (Ok tt, mk_bounded 29 "X-Custom-Header: custom value").
Proof. reflexivity. Qed.

Example fmt_Bounded_short :
  fmt (new "X-Custom-Header" "custom value") (mk_bounded 20 "")
  = (Err FmtError, mk_bounded 20 "X-Custom-Header: ").
Proof. reflexivity. Qed.

(** *** Writers into a bounded buffer, piece by piece *)

(** A buffer that holds no more than its capacity. *)
Definition within (w : Bounded) : Prop :=
  String.length (written w) ≤ capacity w.

(** [c] writes [text]: run on a buffer, [c] returns [Ok] exactly when [text]
    fits in what is left, and has then appended it; when it returns an error
    it has appended a part of [text], the pieces that were written before the
    one that did not fit, and [rest] is what is missing. *)
Definition writes (c : St Bounded fmt_Result) (text : string) : Prop :=
  ∀ w, within w →
    capacity (exec c w) = capacity w
    ∧ within (exec c w)
    ∧ (is_ok (eval c w) = true
       ↔ String.length (written w) + String.length text ≤ capacity w)
    ∧ ∃ rest, written w +:+ text = written (exec c w) +:+ rest
              ∧ (is_ok (eval c w) = true → rest = "").

Lemma writes_ret : writes (st_ret (Ok tt)) "".
Proof.
  intros w Hw. rewrite /within in Hw. split_and!; [done..| |by exists ""].
  split; [simpl; lia|done].
Qed.

Lemma writes_write_str s : writes (write_str s) s.
Proof.
  intros w Hw. rewrite /within /eval /exec write_str_Bounded in Hw |- *.
  case_decide; simpl.
  - rewrite /within /= string_app_length. split_and!; [done..|].
    exists "". by rewrite string_app_nil_r.
  - split_and!; [done..| |by exists s]. split; [done|lia].
Qed.

(** One writer after another writes the two texts, one after the other. *)
Lemma writes_and_then c1 c2 text1 text2 :
  writes c1 text1 → writes c2 text2 →
  writes (and_then c1 c2) (text1 +:+ text2).
Proof.
  intros H1 H2 w Hw. destruct (H1 w Hw) as (Hcap & Hw1 & Hok & rest & Heq & Hrest).
  rewrite /eval /exec /and_then in Hcap Hw1 Hok Heq Hrest |- *.
  rewrite string_app_length. destruct (c1 w) as [[[]|e] w1]; simpl in *.
  - rewrite Hrest // string_app_nil_r in Heq.
    destruct (H2 w1 Hw1) as (Hcap2 & Hw2 & Hok2 & rest2 & Heq2 & Hrest2).
    rewrite /eval /exec -Heq string_app_length Hcap in Hcap2 Hok2 Heq2 |- *.
    split_and!; [done..|by rewrite Hok2 Nat.add_assoc|].
    exists rest2. by rewrite string_app_assoc.
  - split_and!; [done..| |].
    + split; [done|]. intros Hfit. apply Hok. lia.
    + exists (rest +:+ text2). by rewrite !string_app_assoc Heq.
Qed.

(** When a writer fails, something of the text is missing. *)
Lemma writes_Err c text w rest :
  writes c text → within w → is_ok (eval c w) = false →
  written w +:+ text = written (exec c w) +:+ rest → rest ≠ "".
Proof.
  intros Hc Hw Herr Heq ->. destruct (Hc w Hw) as (Hcap & Hw' & Hok & _).
  apply (f_equal String.length) in Heq.
  rewrite string_app_nil_r string_app_length in Heq.
  rewrite /within Hcap -Heq in Hw'. apply Hok in Hw'. congruence.
Qed.

(** [Display] of a header writes its rendering. *)
Lemma fmt_writes h : writes (fmt h) (name h +:+ ": " +:+ value h).
Proof.
  repeat apply writes_and_then; apply writes_write_str.
Qed.

Lemma app_colon_inj s1 s2 r1 r2 :
  no_colon s1 = true → no_colon s2 = true →
  s1 +:+ String ":"%char r1 = s2 +:+ String ":"%char r2 → s1 = s2 ∧ r1 = r2.
Proof.
  revert s2. induction s1 as [|a s1 IH]; intros [|b s2]; simpl.
  - by intros _ _ [= ->].
  - intros _ [Hb _]%andb_true_iff. rewrite string_app_cons. intros [= <- _].
    done.
  - intros [Ha _]%andb_true_iff _. rewrite string_app_cons. intros [= -> _].
    done.
  - intros [_ H1]%andb_true_iff [_ H2]%andb_true_iff.
    rewrite !string_app_cons. intros [= -> Heq].
    by destruct (IH _ H1 H2 Heq) as [-> ->].
Qed.

(** C17: the rendering determines the header when names have no colon: two
    headers with such names that render the same are the same header. *)
Theorem to_string_inj h1 h2 :
  no_colon (name h1) = true → no_colon (name h2) = true →
  to_string h1 = to_string h2 → h1 = h2.
Proof.
  rewrite /to_string !fmt_String. destruct h1 as [n1 v1], h2 as [n2 v2]; simpl.
  intros Hn1 Hn2 [= Heq]. apply app_colon_inj in Heq as [-> Heq]; [|done..].
  by simplify_eq.
Qed.

(** Names are not validated, and with a colon in a name the rendering is
    ambiguous. *)
Lemma to_string_ambiguous :
  new "a" "b: c" ≠ new "a: b" "c"
  ∧ to_string (new "a" "b: c") = to_string (new "a: b" "c").
Proof. done. Qed.

End facts.

Lemma to_string_inj_witness :
  new "Content-Type" "image/gif" = new "Content-Type" "image/gif".
Proof.
  apply (to_string_inj (new "Content-Type" "image/gif")
           (new "Content-Type" "image/gif")); reflexivity.
Defined.

End Header.
