(* ===== verification/HeaderCow.v ===== *)
(** * Borrowed and owned text: [Cow<'h, str>] in a header

    The fields of a header are [Cow<'h, str>]: text that is borrowed from a
    buffer that outlives the header, or owned by it.  [HeaderModel] keeps the
    text alone.  This file keeps the two variants, writes [Header::new],
    [Display] and [From<T>] over them as the source has them, and proves that
    nothing they compute depends on the variant: equality of headers is
    equality of their text, formatting writes the text, and the header built
    from borrowed input equals the one built from owned input.  [erase] is
    the map to the headers of [HeaderModel]; the theorems say that it loses
    nothing a caller of [header.rs] can observe.

    A borrowed text carries the lifetime of its borrow.  [Module Lft] has
    lifetimes as the sets of scopes they depend on, with ['static] the empty
    set and ['a: 'b] inclusion; [Cow.has_lft h c] is the judgement
    [c : Cow<'h, str>], which the compiler establishes from the bounds
    ['a: 'h] of the signatures.  The theorems on it say what those bounds
    are for: under them, [Header::new] and [From<T>] build a header of the
    lifetime their signature names. *)

From S2P Require Import Prelude HeaderModel.
Set Warnings "-rewrite-rw".

Module Lft.

(** A lifetime, as the set of the scopes it depends on: it lasts while all
    of them do. *)
Definition lft : Type := gset positive.

(** ['static] depends on no scope. *)
Definition static : lft := ∅.

(** ['a: 'b], ['a] outlives ['b]: every scope ['a] depends on, ['b] depends
    on. *)
Definition outlives (a b : lft) : Prop := a ⊆ b.

(** The longest lifetime that [a] and [b] both outlive. *)
Definition meet (a b : lft) : lft := a ∪ b.

#[global] Instance outlives_dec : RelDecision outlives.
Proof. rewrite /outlives. apply _. Defined.

#[global] Instance outlives_preorder : PreOrder outlives.
Proof. split; rewrite /outlives; [intros a|intros a b c]; set_solver. Qed.

Lemma static_outlives (b : lft) : outlives static b.
Proof. rewrite /outlives /static. set_solver. Qed.

Lemma outlives_meet_l (a b : lft) : outlives a (meet a b).
Proof. rewrite /outlives /meet. set_solver. Qed.

Lemma outlives_meet_r (a b : lft) : outlives b (meet a b).
Proof. rewrite /outlives /meet. set_solver. Qed.

Lemma meet_outlives (a b c : lft) :
  outlives a c → outlives b c → outlives (meet a b) c.
Proof. rewrite /outlives /meet. apply union_least. Qed.

End Lft.

Infix "≽" := Lft.outlives (at level 70, no associativity) : hdr_scope.

Module Cow.

(** [enum Cow<'a, str> { Borrowed(&'a str), Owned(String) }] *)
Inductive Cow : Type :=
  | Borrowed (a : Lft.lft) (s : string)
  | Owned (s : string).

#[global] Instance Cow_eq_dec : EqDecision Cow.
Proof. solve_decision. Defined.

#[global] Instance Cow_inhabited : Inhabited Cow := populate (Owned "").

(** [impl Deref for Cow]: the text, of either variant. *)
Definition deref (c : Cow) : string :=
  match c with Borrowed _ s | Owned s => s end.

(** [c : Cow<'h, str>]: a borrowed text is borrowed for at least ['h]. *)
Definition has_lft (h : Lft.lft) (c : Cow) : Prop :=
  match c with
  | Borrowed a _ => a ≽ h
  | Owned _ => True
  end.

#[global] Instance has_lft_dec h c : Decision (has_lft h c).
Proof. destruct c; simpl; apply _. Defined.

(** [matches!(c, Cow::Borrowed(_))]: the value holds no buffer of its own. *)
Definition is_borrowed (c : Cow) : bool :=
  match c with Borrowed _ _ => true | Owned _ => false end.

(** [impl Clone for Cow]: a borrow is copied and an owned text is cloned
    into a new [String]; either way the variant and the text are the same. *)
Definition clone (c : Cow) : Cow :=
  match c with
  | Borrowed a s => Borrowed a s
  | Owned s => Owned s
  end.

(** [Cow::into_owned]: the text as a [String], cloned when it was borrowed. *)
Definition into_owned (c : Cow) : string := deref c.

(** [impl PartialEq for Cow<str>]: compares what the two dereference to. *)
Definition eqb (c1 c2 : Cow) : bool :=
  bool_decide (deref c1 = deref c2).

(** A [&'a str], as opposed to a [String]: text that is not owned, and the
    lifetime of the borrow. *)
Record str : Type := Str { str_lft : Lft.lft; str_text : string }.

(** [Into<Cow<'a, str>>]: a [&str] converts to [Borrowed], a [String] to
    [Owned], and a [Cow] to itself. *)
Class IntoCow (T : Type) := into_cow : T → Cow.
#[global] Hint Mode IntoCow ! : typeclass_instances.
#[global] Instance str_into_cow : IntoCow str :=
  λ s, Borrowed (str_lft s) (str_text s).
#[global] Instance String_into_cow : IntoCow string := Owned.
#[global] Instance Cow_into_cow : IntoCow Cow := λ c, c.

(** ** Headers over [Cow] *)

(** [pub struct Header<'h> { pub name: Cow<'h, str>, pub value: Cow<'h, str> }] *)
Record Header : Type := mk {
  name : Cow;
  value : Cow;
}.

(** [Header::new(name, value)] *)
Definition new {N V : Type} `{!IntoCow N} `{!IntoCow V} (name : N) (value : V) :
    Header :=
  {| name := into_cow name; value := into_cow value |}.

(** [#[derive(Clone)]]: the fields, cloned. *)
Definition Header_clone (self : Header) : Header :=
  {| name := clone (name self); value := clone (value self) |}.

(** [header : Header<'h>] *)
Definition Header_has_lft (h : Lft.lft) (header : Header) : Prop :=
  has_lft h (name header) ∧ has_lft h (value header).

#[global] Instance Header_has_lft_dec h header :
  Decision (Header_has_lft h header).
Proof. rewrite /Header_has_lft. apply _. Defined.

(** [#[derive(PartialEq)]]: the fields, pairwise. *)
Definition Header_eqb (h1 h2 : Header) : bool :=
  eqb (name h1) (name h2) && eqb (value h1) (value h2).

(** [impl Display for Header]: [Display] of a [Cow] is that of its text. *)
Definition fmt {W : Type} `{!Header.Write W} (self : Header) :
    St W Header.fmt_Result :=
  Header.and_then (Header.write_str (deref (name self)))
    (Header.and_then (Header.write_str ": ")
       (Header.write_str (deref (value self)))).

(** [impl<T> From<T> for Header<'static>]: [T::header_name()] is a
    [&'static str] and [format!] returns a [String]. *)
Definition from {T : Type} `{!Header.HyperHeader T} (hyper_header : T) : Header :=
  new (Str Lft.static (Header.header_name T))
    (Header.format_hyper hyper_header).

(** The header without the variants. *)
Definition erase (h : Header) : Header.Header :=
  Header.new (deref (name h)) (deref (value h)).

(** ** Nothing depends on the variant *)

Section facts.
Implicit Types (c : Cow) (h : Header) (s n v : string) (a b l : Lft.lft).

(** A clone is the value it was cloned from: values have no address in this
    model, and the new buffer of an owned text holds the same text. *)
Lemma clone_eq c : clone c = c.
Proof. by destruct c. Qed.

Lemma Header_clone_eq h : Header_clone h = h.
Proof. destruct h. by rewrite /Header_clone /= !clone_eq. Qed.

Lemma fmap_Header_clone (hs : list Header) : Header_clone <$> hs = hs.
Proof. rewrite -{2}(list_fmap_id hs). apply list_fmap_ext=> ???. apply Header_clone_eq. Qed.

Lemma deref_into_owned c : deref (Owned (into_owned c)) = deref c.
Proof. done. Qed.

Lemma eqb_deref c1 c2 : eqb c1 c2 = true ↔ deref c1 = deref c2.
Proof. apply bool_decide_eq_true. Qed.

Lemma erase_new {N V : Type} `{!IntoCow N} `{!IntoCow V} (x : N) (y : V) :
  erase (new x y) = Header.new (deref (into_cow x)) (deref (into_cow y)).
Proof. done. Qed.

Lemma erase_from {T : Type} `{!Header.HyperHeader T} (x : T) :
  erase (from x) = Header.from x.
Proof. done. Qed.

Lemma fmt_erase {W : Type} `{!Header.Write W} h (w : W) :
  fmt h w = Header.fmt (erase h) w.
Proof. done. Qed.

(** Equality of headers is equality of the text of their names and of
    their values: whether a field is borrowed or owned is not compared, so
    two headers are equal exactly when they are the same header once the
    variants are erased. *)
Lemma Header_eqb_erase h1 h2 : Header_eqb h1 h2 = true ↔ erase h1 = erase h2.
Proof.
  rewrite /Header_eqb andb_true_iff !eqb_deref /erase. split.
  - by intros [-> ->].
  - by intros [= -> ->].
Qed.

(** A header made of borrowed text and one made of owned text are equal and
    render the same. *)
Lemma new_borrowed_owned a b n v :
  Header_eqb (new (Str a n) (Str b v)) (new n v) = true
  ∧ ∀ {W : Type} `{!Header.Write W} (w : W),
      fmt (new (Str a n) (Str b v)) w = fmt (new n v) w.
Proof. split; [|done]. by rewrite /Header_eqb /eqb /= !bool_decide_eq_true_2. Qed.

(** The example of [Header::new]: a literal name and a formatted value. *)
Example new_custom :
  let header := new (Str Lft.static "X-Custom-Header") ("custom" +:+ " value") in
  name header = Borrowed Lft.static "X-Custom-Header"
  ∧ value header = Owned "custom value"
  ∧ Header.to_string (erase header) = Some "X-Custom-Header: custom value".
Proof. done. Qed.

(** ** Lifetimes *)

(** A [Cow<'l, str>] is a [Cow<'l', str>] for every shorter ['l']. *)
Lemma has_lft_shorten l l' c : l ≽ l' → has_lft l c → has_lft l' c.
Proof. destruct c; simpl; [|done]. intros ??. by etrans. Qed.

Lemma Header_has_lft_shorten l l' h :
  l ≽ l' → Header_has_lft l h → Header_has_lft l' h.
Proof.
  intros Hl [Hn Hv].
  split; [exact (has_lft_shorten l l' _ Hl Hn)|exact (has_lft_shorten l l' _ Hl Hv)].
Qed.

Lemma has_lft_Owned l s : has_lft l (Owned s).
Proof. done. Qed.

Lemma has_lft_static l s : has_lft l (Borrowed Lft.static s).
Proof. apply Lft.static_outlives. Qed.

(** [Header::new<'a: 'h, 'b: 'h, N, V>]: from a name of lifetime ['a] and a
    value of lifetime ['b], a header of lifetime ['h]. *)
Lemma new_has_lft {N V : Type} `{!IntoCow N} `{!IntoCow V} a b l (x : N) (y : V) :
  a ≽ l → b ≽ l →
  has_lft a (into_cow x) → has_lft b (into_cow y) →
  Header_has_lft l (new x y).
Proof.
  intros Ha Hb Hx Hy.
  split; [exact (has_lft_shorten a l _ Ha Hx)|exact (has_lft_shorten b l _ Hb Hy)].
Qed.

(** [From<T>] builds a [Header<'static>]. *)
Lemma from_has_lft {T : Type} `{!Header.HyperHeader T} (x : T) :
  Header_has_lft Lft.static (from x).
Proof. done. Qed.

End facts.

End Cow.
