(* ===== verification/MultiMapSpec.v ===== *)
(** * The specification of the header map: a finite map of value sequences

    What a header map promises, stated without the hash map: the state is a
    finite map from names to the sequence of their values (stdpp's [gmap],
    with its extensional equality), and each method of the table of
    operations is one function on it.  [HeaderMapModel] proves that the
    methods of the source implement these functions.

    - [MultiMap.values], [MultiMap.count], [MultiMap.flatten]: what [get],
      [len] and the iterators observe;
    - [MultiMap.add], [MultiMap.replace], [MultiMap.replace_all],
      [MultiMap.add_all], [MultiMap.remove]: the updates;
    - [MultiMap.nonempty]: no name is stored with an empty sequence. *)

From S2P Require Import Prelude HeaderModel.
Set Warnings "-rewrite-rw".

Module MultiMap.

Abbreviation t := (gmap string (list string)).

(** ** Observations *)

(** The values of a name, in the order they were added; none when the name
    is absent. *)
Definition values (g : t) (k : string) : list string :=
  default [] (g !! k).

(** The number of values over all names. *)
Definition count (g : t) : nat :=
  length (map_to_list g ≫= λ '(_, vs), vs).

(** Every (name, value) pair, the values of a name together and in their
    order. *)
Definition flatten (g : t) : list Header.Header :=
  map_to_list g ≫= λ '(k, vs), Header.new k <$> vs.

(** ** Updates *)

Definition add (h : Header.Header) (g : t) : t :=
  <[Header.name h := values g (Header.name h) ++ [Header.value h]]> g.

Definition replace (h : Header.Header) (g : t) : t :=
  <[Header.name h := [Header.value h]]> g.

Definition replace_all (k : string) (vs : list string) (g : t) : t :=
  <[k := vs]> g.

Definition add_all (k : string) (vs : list string) (g : t) : t :=
  <[k := values g k ++ vs]> g.

Definition remove (k : string) (g : t) : t :=
  delete k g.

(** ** The invariant: a stored sequence is not empty *)

Definition nonempty (g : t) : Prop :=
  map_Forall (λ _ vs, vs ≠ []) g.

#[global] Instance nonempty_dec g : Decision (nonempty g).
Proof. rewrite /nonempty. apply _. Defined.

(** ** Theory *)

Section theory.
Implicit Types (g : t) (k : string) (vs : list string) (h : Header.Header).

(** *** Values *)

Lemma values_empty k : values ∅ k = [].
Proof. by rewrite /values lookup_empty. Qed.

Lemma values_insert g k vs k' :
  values (<[k:=vs]> g) k' = if decide (k = k') then vs else values g k'.
Proof. rewrite /values lookup_insert. by case_decide. Qed.

Lemma values_delete g k k' :
  values (delete k g) k' = if decide (k = k') then [] else values g k'.
Proof. rewrite /values lookup_delete. by case_decide. Qed.

Lemma values_add h g k :
  values (add h g) k
  = if decide (Header.name h = k) then values g k ++ [Header.value h]
    else values g k.
Proof. rewrite /add values_insert. by case_decide; subst. Qed.

Lemma values_replace h g k :
  values (replace h g) k
  = if decide (Header.name h = k) then [Header.value h] else values g k.
Proof. apply values_insert. Qed.

Lemma values_add_all k vs g k' :
  values (add_all k vs g) k'
  = if decide (k = k') then values g k' ++ vs else values g k'.
Proof. rewrite /add_all values_insert. by case_decide; subst. Qed.

Lemma values_remove k g k' :
  values (remove k g) k' = if decide (k = k') then [] else values g k'.
Proof. apply values_delete. Qed.

(** Under the invariant a name is present exactly when it has a value. *)
Lemma values_nil g k : nonempty g → values g k = [] ↔ g !! k = None.
Proof.
  rewrite /values=> Hne. destruct (g !! k) as [vs|] eqn:Hk; simpl; last done.
  split; last done. intros ->. by apply Hne in Hk.
Qed.

(** *** Count *)

Lemma count_empty : count ∅ = 0.
Proof. by rewrite /count map_to_list_empty. Qed.

Lemma count_insert g k vs :
  count (<[k:=vs]> g) = length vs + count (delete k g).
Proof. by rewrite /count bind_map_to_list_insert length_app. Qed.

Lemma count_lookup g k :
  count g = length (values g k) + count (delete k g).
Proof.
  rewrite /count /values (bind_map_to_list_lookup _ g k) length_app.
  by destruct (g !! k).
Qed.

Lemma count_add h g : count (add h g) = S (count g).
Proof.
  rewrite /add count_insert (count_lookup g (Header.name h)) length_app /=.
  lia.
Qed.

Lemma count_replace h g :
  count (replace h g) + length (values g (Header.name h)) = S (count g).
Proof.
  rewrite /replace count_insert (count_lookup g (Header.name h)) /=. lia.
Qed.

Lemma count_replace_all k vs g :
  count (replace_all k vs g) + length (values g k) = length vs + count g.
Proof. rewrite /replace_all count_insert (count_lookup g k). lia. Qed.

Lemma count_add_all k vs g :
  count (add_all k vs g) = count g + length vs.
Proof.
  rewrite /add_all count_insert (count_lookup g k) length_app. lia.
Qed.

Lemma count_remove k g :
  count (remove k g) + length (values g k) = count g.
Proof. rewrite /remove (count_lookup g k). lia. Qed.

Lemma count_flatten g : count g = length (flatten g).
Proof.
  rewrite /count /flatten.
  induction (map_to_list g) as [|[k vs] l IH]; first done.
  by rewrite !bind_cons !length_app length_fmap IH.
Qed.

(** *** Flatten *)

Lemma flatten_empty : flatten ∅ = [].
Proof. by rewrite /flatten map_to_list_empty. Qed.

Lemma flatten_insert g k vs :
  flatten (<[k:=vs]> g) ≡ₚ (Header.new k <$> vs) ++ flatten (delete k g).
Proof. by rewrite /flatten bind_map_to_list_insert. Qed.

Lemma flatten_lookup g k :
  flatten g ≡ₚ (Header.new k <$> values g k) ++ flatten (delete k g).
Proof.
  rewrite /flatten /values (bind_map_to_list_lookup _ g k).
  by destruct (g !! k).
Qed.

(** The headers of one name among all headers are its values, in their
    order. *)
Lemma filter_flatten g k :
  filter (λ h, Header.name h = k) (flatten g) = Header.new k <$> values g k.
Proof.
  rewrite /flatten /values. destruct (g !! k) as [vs|] eqn:Hk; simpl.
  - apply (filter_key_groups Header.name Header.new); first done.
    + apply NoDup_fst_map_to_list.
    + by apply elem_of_map_to_list.
  - apply (filter_key_groups_None Header.name Header.new); first done.
    intros [[k' vs] [Hk' Hin%elem_of_map_to_list]]%list_elem_of_fmap.
    simpl in *. congruence.
Qed.

Lemma elem_of_flatten g h :
  h ∈ flatten g ↔ Header.value h ∈ values g (Header.name h).
Proof.
  rewrite -(list_elem_of_fmap_inj (Header.new (Header.name h))).
  rewrite Header.new_eta -filter_flatten list_elem_of_filter. tauto.
Qed.

(** *** The invariant *)

Lemma nonempty_empty : nonempty ∅.
Proof. apply map_Forall_empty. Qed.

Lemma nonempty_insert g k vs : vs ≠ [] → nonempty g → nonempty (<[k:=vs]> g).
Proof. intros. by apply map_Forall_insert_2. Qed.

Lemma nonempty_add h g : nonempty g → nonempty (add h g).
Proof. apply nonempty_insert. by destruct (values g _). Qed.

Lemma nonempty_replace h g : nonempty g → nonempty (replace h g).
Proof. by apply nonempty_insert. Qed.

Lemma nonempty_replace_all k vs g :
  vs ≠ [] → nonempty g → nonempty (replace_all k vs g).
Proof. apply nonempty_insert. Qed.

Lemma nonempty_add_all k vs g :
  vs ≠ [] → nonempty g → nonempty (add_all k vs g).
Proof. intros Hvs. apply nonempty_insert. by destruct (values g k), vs. Qed.

Lemma nonempty_remove k g : nonempty g → nonempty (remove k g).
Proof. apply map_Forall_delete. Qed.

(** Under the invariant the map is empty exactly when it counts no value. *)
Lemma count_0 g : nonempty g → count g = 0 ↔ g = ∅.
Proof.
  intros Hne. split; last by intros ->; apply count_empty.
  intros Hc. apply map_empty=> k. apply values_nil; first done.
  apply length_zero_iff_nil. rewrite (count_lookup g k) in Hc. lia.
Qed.

End theory.

End MultiMap.
