(* ===== verification/HeaderMapModel.v ===== *)
(** * The header map: [struct HeaderMap] and its methods

    [HeaderMap.HeaderMap M] is the struct, its one field [headers] a map [M]
    from names to the vector of their values.  Every method of
    [impl HeaderMap] is a definition of [Module HeaderMap] under its name in
    the source, written against the interface [HashMap.Ops]: a [&self] method
    is a function of the map, a [&mut self] method a computation in
    [St (HeaderMap M)].

    The lemmas of this file describe each method by the entry it leaves under
    every name ([HashMap.get] of the field), from which the properties of the
    queries follow. *)

From S2P Require Import Prelude HashMapModel HeaderModel MultiMapSpec.
Set Warnings "-rewrite-rw".

Module HeaderMap.

(** [pub struct HeaderMap<'h> { headers: HashMap<Cow<'h, str>, Vec<Cow<'h, str>>> }] *)
Record HeaderMap (M : Type) : Type := mk {
  headers : M;
}.
#[global] Arguments mk {M} _ : assert.
#[global] Arguments headers {M} _ : assert.

(** A computation on the field, as a computation on the struct. *)
Definition on_headers {M A : Type} (c : St M A) : St (HeaderMap M) A :=
  λ self, let '(a, headers') := c (headers self) in (a, mk headers').

Section methods.
Context {M : Type} {ops : HashMap.Ops string (list string) M}.

(** [HeaderMap::new()] *)
Definition new : HeaderMap M :=
  {| headers := HashMap.new |}.

(** [#[derive(Default)]]: [HeaderMap::default()]. *)
Definition HeaderMap_default : HeaderMap M :=
  {| headers := HashMap.new |}.

(** [#[derive(PartialEq)]]: two maps are equal when their fields are. *)
Definition eq (self other : HeaderMap M) : Prop :=
  headers self ≡ₘ headers other.

(** [contains(&self, name)] *)
Definition contains (self : HeaderMap M) (name : string) : bool :=
  is_some (HashMap.get name (headers self)).

(** [len(&self)] *)
Definition len (self : HeaderMap M) : nat :=
  length (HashMap.iter (headers self) ≫= λ '(_, values), values).

(** [is_empty(&self)] *)
Definition is_empty (self : HeaderMap M) : bool :=
  HashMap.is_empty (headers self).

(** [get(&self, name)]: the iterator, as the list of what it yields. *)
Definition get (self : HeaderMap M) (name : string) : list string :=
  option_list (HashMap.get name (headers self)) ≫= λ values,
    (λ val, val) <$> values.

(** [get_one(&self, name)] *)
Definition get_one (self : HeaderMap M) (name : string) : option string :=
  HashMap.get name (headers self) ≫= λ values,
    if decide (1 ≤ length values) then Some (values !!! 0) else None.

(** [replace(&mut self, header)] *)
Definition replace {H : Type} `{!Header.IntoHeader H} (header : H) :
    St (HeaderMap M) bool :=
  let header := Header.into header in
  let* old := on_headers
    (HashMap.insert (Header.name header) [Header.value header]) in
  st_ret (is_some old).

(** [replace_raw(&mut self, name, value)] *)
Definition replace_raw (name value : string) : St (HeaderMap M) bool :=
  replace (Header.new name value).

(** [replace_all(&mut self, name, values)] *)
Definition replace_all (name : string) (values : list string) :
    St (HeaderMap M) unit :=
  on_headers (HashMap.insert name values) ;; st_ret tt.

(** [add(&mut self, header)] *)
Definition add {H : Type} `{!Header.IntoHeader H} (header : H) :
    St (HeaderMap M) unit :=
  λ self,
    let header := Header.into header in
    let '(slot, put) :=
      HashMap.entry_or_insert (Header.name header) [] (headers self) in
    (tt, mk (put (vec_push slot (Header.value header)))).

(** [add_raw(&mut self, name, value)] *)
Definition add_raw (name value : string) : St (HeaderMap M) unit :=
  add (Header.new name value).

(** [add_all(&mut self, name, values)]: the result is [values] after the
    call. *)
Definition add_all (name : string) (values : list string) :
    St (HeaderMap M) (list string) :=
  λ self,
    let '(slot, put) := HashMap.entry_or_insert name [] (headers self) in
    let '(slot', values') := vec_append slot values in
    (values', mk (put slot')).

(** [remove(&mut self, name)] *)
Definition remove (name : string) : St (HeaderMap M) unit :=
  on_headers (HashMap.remove name) ;; st_ret tt.

(** [iter(&self)] *)
Definition iter (self : HeaderMap M) : list Header.Header :=
  HashMap.iter (headers self) ≫= λ '(key, values),
    (λ val, Header.new key val) <$> values.

(** [into_iter(self)] *)
Definition into_iter (self : HeaderMap M) : list Header.Header :=
  HashMap.into_iter (headers self) ≫= λ '(name, value),
    (λ value, {| Header.name := name; Header.value := value |}) <$> value.

(** [into_iter_raw(self)] *)
Definition into_iter_raw (self : HeaderMap M) : list (string * list string) :=
  HashMap.into_iter (headers self).

(** [remove_all(&mut self)] *)
Definition remove_all : St (HeaderMap M) (list Header.Header) :=
  let* old_map := mem_replace new in
  st_ret (into_iter old_map).

(** The invariant of the data model: no name is stored with an empty vector
    of values. *)
Definition wf (self : HeaderMap M) : Prop :=
  Forall (λ '(_, values), values ≠ []) (HashMap.iter (headers self)).

(** What the map holds, as a state of the specification [MultiMap]. *)
Definition contents (self : HeaderMap M) : MultiMap.t :=
  HashMap.to_gmap (headers self).

End methods.

#[global] Instance wf_dec {M : Type} {ops : HashMap.Ops string (list string) M}
  (self : HeaderMap M) : Decision (wf self).
Proof. rewrite /wf. apply Forall_dec. intros [_ values]. apply _. Defined.

Infix "≡ₕ" := eq (at level 70, no associativity) : hdr_scope.

(** ** The entry each method leaves under a name *)

Section entries.
Context {M : Type} {ops : HashMap.Ops string (list string) M}.
Context {laws : HashMap.Laws string (list string) M}.
Context {H : Type} {into_header : Header.IntoHeader H}.
Implicit Types (self : HeaderMap M) (name k : string) (values : list string).
Implicit Types (header : H).

(** The entry of [k], as a notation local to the file. *)
Local Abbreviation entry self k := (HashMap.get k (headers self)).

Lemma entry_new k : entry (new (M:=M)) k = None.
Proof. apply HashMap.get_new. Qed.

Lemma entry_replace header self k :
  entry (exec (replace header) self) k
  = if decide (Header.name (Header.into header) = k)
    then Some [Header.value (Header.into header)] else entry self k.
Proof.
  rewrite /replace /on_headers /exec /st_bind /=.
  destruct (HashMap.insert _ _ _) as [old headers'] eqn:Hins; simpl.
  rewrite -HashMap.get_insert. by rewrite /exec Hins.
Qed.

Lemma eval_replace_entry header self :
  eval (replace header) self
  = is_some (entry self (Header.name (Header.into header))).
Proof.
  rewrite /replace /on_headers /eval /st_bind /=.
  rewrite -(HashMap.insert_old _ [Header.value (Header.into header)]) /eval.
  by destruct (HashMap.insert _ _ _).
Qed.

Lemma entry_replace_all name values self k :
  entry (exec (replace_all name values) self) k
  = if decide (name = k) then Some values else entry self k.
Proof.
  rewrite /replace_all /on_headers /exec /st_bind /=.
  destruct (HashMap.insert _ _ _) as [old headers'] eqn:Hins; simpl.
  rewrite -HashMap.get_insert. by rewrite /exec Hins.
Qed.

Lemma entry_add header self k :
  entry (exec (add header) self) k
  = if decide (Header.name (Header.into header) = k)
    then Some (default [] (entry self k) ++ [Header.value (Header.into header)])
    else entry self k.
Proof.
  rewrite /add /exec /=.
  destruct (HashMap.entry_or_insert _ _ _) as [slot put] eqn:Hent; simpl.
  pose proof (HashMap.entry_slot (Header.name (Header.into header)) []
    (headers self)) as Hslot.
  pose proof (HashMap.get_entry_put (Header.name (Header.into header)) []
    (headers self)) as Hput.
  rewrite Hent /= in Hslot Hput. rewrite Hput Hslot /vec_push.
  by case_decide; subst.
Qed.

Lemma entry_add_all name values self k :
  entry (exec (add_all name values) self) k
  = if decide (name = k)
    then Some (default [] (entry self k) ++ values) else entry self k.
Proof.
  rewrite /add_all /exec /=.
  destruct (HashMap.entry_or_insert _ _ _) as [slot put] eqn:Hent; simpl.
  pose proof (HashMap.entry_slot name [] (headers self)) as Hslot.
  pose proof (HashMap.get_entry_put name [] (headers self)) as Hput.
  rewrite Hent /= in Hslot Hput. rewrite Hput Hslot.
  by case_decide; subst.
Qed.

Lemma entry_remove name self k :
  entry (exec (remove name) self) k
  = if decide (name = k) then None else entry self k.
Proof.
  rewrite /remove /on_headers /exec /st_bind /=.
  destruct (HashMap.remove _ _) as [old headers'] eqn:Hrem; simpl.
  rewrite -HashMap.get_remove. by rewrite /exec Hrem.
Qed.

Lemma entry_remove_all self k : entry (exec remove_all self) k = None.
Proof. apply HashMap.get_new. Qed.

(** The queries, by the entry. *)

Lemma get_entry self k : get self k = default [] (entry self k).
Proof.
  rewrite /get. destruct (entry self k) as [values|]; simpl; last done.
  by rewrite list_fmap_id app_nil_r.
Qed.

Lemma get_one_entry self k : get_one self k = entry self k ≫= head.
Proof.
  rewrite /get_one. destruct (entry self k) as [[|v values]|]; simpl; try done.
Qed.

Lemma contains_entry self k : contains self k = true ↔ is_Some (entry self k).
Proof. apply is_some_true. Qed.

End entries.

(** ** The methods implement the specification

    [contents] maps a header map to a state of [MultiMap]; every method
    commutes with it, and every query is the observation of the
    specification. *)

Section refinement.
Context {M : Type} {ops : HashMap.Ops string (list string) M}.
Context {laws : HashMap.Laws string (list string) M}.
Context {H : Type} {into_header : Header.IntoHeader H}.
Implicit Types (self : HeaderMap M) (name k : string) (values : list string).
Implicit Types (header : H).

Lemma lookup_contents self k :
  contents self !! k = HashMap.get k (headers self).
Proof. apply HashMapFacts.lookup_to_gmap. Qed.

Lemma values_contents self k : MultiMap.values (contents self) k = get self k.
Proof. by rewrite get_entry /MultiMap.values lookup_contents. Qed.

Lemma contents_new : contents (new (M:=M)) = ∅.
Proof. apply HashMapFacts.to_gmap_new. Qed.

Lemma contents_add header self :
  contents (exec (add header) self)
  = MultiMap.add (Header.into header) (contents self).
Proof.
  apply map_eq=> k. rewrite lookup_contents entry_add /MultiMap.add.
  rewrite lookup_insert /MultiMap.values !lookup_contents.
  by case_decide; subst.
Qed.

Lemma contents_replace header self :
  contents (exec (replace header) self)
  = MultiMap.replace (Header.into header) (contents self).
Proof.
  apply map_eq=> k. rewrite lookup_contents entry_replace /MultiMap.replace.
  by rewrite lookup_insert lookup_contents.
Qed.

Lemma contents_replace_all name values self :
  contents (exec (replace_all name values) self)
  = MultiMap.replace_all name values (contents self).
Proof.
  apply map_eq=> k. rewrite lookup_contents entry_replace_all.
  by rewrite /MultiMap.replace_all lookup_insert lookup_contents.
Qed.

Lemma contents_add_all name values self :
  contents (exec (add_all name values) self)
  = MultiMap.add_all name values (contents self).
Proof.
  apply map_eq=> k. rewrite lookup_contents entry_add_all /MultiMap.add_all.
  rewrite lookup_insert /MultiMap.values !lookup_contents.
  by case_decide; subst.
Qed.

Lemma contents_remove name self :
  contents (exec (remove name) self) = MultiMap.remove name (contents self).
Proof.
  apply map_eq=> k. rewrite lookup_contents entry_remove /MultiMap.remove.
  by rewrite lookup_delete lookup_contents.
Qed.

Lemma contents_remove_all self : contents (exec remove_all self) = ∅.
Proof. apply contents_new. Qed.

Lemma len_contents self : len self = MultiMap.count (contents self).
Proof.
  rewrite /len /MultiMap.count /contents.
  by rewrite (HashMapFacts.iter_to_gmap (headers self)).
Qed.

Lemma iter_contents self : iter self ≡ₚ MultiMap.flatten (contents self).
Proof.
  rewrite /iter /MultiMap.flatten /contents.
  by rewrite (HashMapFacts.iter_to_gmap (headers self)).
Qed.

Lemma into_iter_iter self : into_iter self ≡ₚ iter self.
Proof.
  rewrite /into_iter /iter.
  by rewrite (HashMapFacts.into_iter_perm_iter (headers self)).
Qed.

Lemma is_empty_contents self : is_empty self = true ↔ contents self = ∅.
Proof. apply HashMapFacts.is_empty_to_gmap. Qed.

Lemma eq_contents self other : self ≡ₕ other ↔ contents self = contents other.
Proof. apply HashMapFacts.eq_to_gmap. Qed.

(** The queries as observations of the contents, as equations to rewrite
    with. *)

Lemma get_contents self k : get self k = MultiMap.values (contents self) k.
Proof. by rewrite values_contents. Qed.

Lemma get_one_contents self k :
  get_one self k = head (MultiMap.values (contents self) k).
Proof.
  rewrite get_one_entry /MultiMap.values lookup_contents.
  by destruct (HashMap.get _ _).
Qed.

Lemma contains_contents self k : contains self k = is_some (contents self !! k).
Proof. by rewrite lookup_contents. Qed.

Lemma is_empty_contents_eq self :
  is_empty self = bool_decide (contents self = ∅).
Proof.
  apply Bool.eq_true_iff_eq. by rewrite is_empty_contents bool_decide_eq_true.
Qed.

Lemma into_iter_contents self :
  into_iter self ≡ₚ MultiMap.flatten (contents self).
Proof. by rewrite into_iter_iter iter_contents. Qed.

Lemma eval_remove_all self : eval remove_all self = into_iter self.
Proof. done. Qed.

Lemma eval_add_all name values self : eval (add_all name values) self = [].
Proof.
  rewrite /add_all /eval. by destruct (HashMap.entry_or_insert _ _ _).
Qed.

(** The headers [into_iter] yields, as a [HashSet]. *)
Lemma list_to_set_into_iter self :
  list_to_set (into_iter self)
  =@{gset Header.Header} list_to_set (MultiMap.flatten (contents self)).
Proof. by rewrite into_iter_contents. Qed.

Lemma wf_contents self : wf self ↔ MultiMap.nonempty (contents self).
Proof.
  rewrite /wf /MultiMap.nonempty map_Forall_lookup Forall_forall. split.
  - intros Hwf k vs Hk. rewrite lookup_contents in Hk.
    by apply HashMap.elem_of_iter, Hwf in Hk.
  - intros Hne [k vs] Hin%HashMap.elem_of_iter.
    apply (Hne k). by rewrite lookup_contents.
Qed.

End refinement.

Section refinement_raw.
Context {M : Type} {ops : HashMap.Ops string (list string) M}.
Context {laws : HashMap.Laws string (list string) M}.
Implicit Types (self : HeaderMap M) (name value : string).

Lemma contents_add_raw name value self :
  contents (exec (add_raw name value) self)
  = MultiMap.add (Header.new name value) (contents self).
Proof. exact (contents_add (Header.new name value) self). Qed.

Lemma contents_replace_raw name value self :
  contents (exec (replace_raw name value) self)
  = MultiMap.replace (Header.new name value) (contents self).
Proof. exact (contents_replace (Header.new name value) self). Qed.

End refinement_raw.

(** ** What the queries return after each method *)

Section queries.
Context {M : Type} {ops : HashMap.Ops string (list string) M}.
Context {laws : HashMap.Laws string (list string) M}.
Context {H : Type} {into_header : Header.IntoHeader H}.
Implicit Types (self : HeaderMap M) (name k : string) (values : list string).
Implicit Types (header : H).

Lemma get_new k : get (new (M:=M)) k = [].
Proof. by rewrite get_entry entry_new. Qed.

Lemma contains_new k : contains (new (M:=M)) k = false.
Proof. by rewrite /contains entry_new. Qed.

Lemma len_new : len (new (M:=M)) = 0.
Proof. by rewrite len_contents contents_new MultiMap.count_empty. Qed.

Lemma is_empty_new : is_empty (new (M:=M)) = true.
Proof. apply HashMapFacts.is_empty_fresh. Qed.

(** *** [add] *)

(** C1: [add] appends the value of the header to the values stored under its
    name, after the values already there and in the order of the calls, and
    leaves the values of every other name as they are. *)
Theorem get_add header self k :
  get (exec (add header) self) k
  = if decide (Header.name (Header.into header) = k)
    then get self k ++ [Header.value (Header.into header)]
    else get self k.
Proof. rewrite !get_entry entry_add. by case_decide. Qed.

(** C4: [add] stores one more value: [len] grows by exactly one, whether or
    not the name was present. *)
Theorem len_add header self : len (exec (add header) self) = S (len self).
Proof. by rewrite !len_contents contents_add MultiMap.count_add. Qed.

Lemma contains_add header self k :
  contains (exec (add header) self) k
  = bool_decide (Header.name (Header.into header) = k) || contains self k.
Proof. rewrite /contains entry_add. by case_bool_decide; case_decide. Qed.

(** *** [replace] *)

(** C2: after [replace] the name of the header has exactly one value, the
    value of the header, however many values it had before; the values of
    every other name are as they were. *)
Theorem get_replace header self k :
  get (exec (replace header) self) k
  = if decide (Header.name (Header.into header) = k)
    then [Header.value (Header.into header)]
    else get self k.
Proof. rewrite !get_entry entry_replace. by case_decide. Qed.

(** C3: [replace] returns [true] exactly when the map contained a header of
    that name before the call. *)
Theorem eval_replace header self :
  eval (replace header) self
  = contains self (Header.name (Header.into header)).
Proof. apply eval_replace_entry. Qed.

(** C5: [replace] discards the values the name had and stores one: [len]
    after the call and the number of values discarded add up to [len] before
    the call plus one. *)
Theorem len_replace header self :
  len (exec (replace header) self)
    + length (get self (Header.name (Header.into header)))
  = S (len self).
Proof.
  rewrite !len_contents contents_replace -values_contents.
  apply MultiMap.count_replace.
Qed.

Lemma contains_replace header self k :
  contains (exec (replace header) self) k
  = bool_decide (Header.name (Header.into header) = k) || contains self k.
Proof. rewrite /contains entry_replace. by case_bool_decide; case_decide. Qed.

(** *** [replace_all] and [add_all] *)

Lemma get_replace_all name values self k :
  get (exec (replace_all name values) self) k
  = if decide (name = k) then values else get self k.
Proof. rewrite !get_entry entry_replace_all. by case_decide. Qed.

Lemma contains_replace_all name values self k :
  contains (exec (replace_all name values) self) k
  = bool_decide (name = k) || contains self k.
Proof. rewrite /contains entry_replace_all. by case_bool_decide; case_decide. Qed.

Lemma len_replace_all name values self :
  len (exec (replace_all name values) self) + length (get self name)
  = length values + len self.
Proof.
  rewrite !len_contents contents_replace_all -values_contents.
  apply MultiMap.count_replace_all.
Qed.

Lemma get_add_all name values self k :
  get (exec (add_all name values) self) k
  = if decide (name = k) then get self k ++ values else get self k.
Proof. rewrite !get_entry entry_add_all. by case_decide. Qed.

Lemma contains_add_all name values self k :
  contains (exec (add_all name values) self) k
  = bool_decide (name = k) || contains self k.
Proof. rewrite /contains entry_add_all. by case_bool_decide; case_decide. Qed.

Lemma len_add_all name values self :
  len (exec (add_all name values) self) = len self + length values.
Proof. by rewrite !len_contents contents_add_all MultiMap.count_add_all. Qed.

(** *** [remove] *)

Lemma get_remove name self k :
  get (exec (remove name) self) k
  = if decide (name = k) then [] else get self k.
Proof. rewrite !get_entry entry_remove. by case_decide. Qed.

Lemma contains_remove name self k :
  contains (exec (remove name) self) k
  = negb (bool_decide (name = k)) && contains self k.
Proof. rewrite /contains entry_remove. by case_bool_decide; case_decide. Qed.

Lemma len_remove name self :
  len (exec (remove name) self) + length (get self name) = len self.
Proof.
  rewrite !len_contents contents_remove -values_contents.
  apply MultiMap.count_remove.
Qed.

(** C6: after [remove] the map does not contain the name and [get] yields
    nothing for it; the values of every other name are as they were, and
    [len] has dropped by the number of values removed. *)
Theorem remove_spec name self :
  let self' := exec (remove name) self in
  contains self' name = false
  ∧ (∀ k, get self' k = if decide (name = k) then [] else get self k)
  ∧ len self' + length (get self name) = len self.
Proof.
  split_and!.
  - by rewrite contains_remove bool_decide_eq_true_2.
  - apply get_remove.
  - apply len_remove.
Qed.

(** *** The first value *)

(** C11: [get_one] is the first of the values [get] yields, and nothing when
    there is none; the index [values[0]] is only evaluated on a vector that
    has an element. *)
Theorem get_one_head self k : get_one self k = head (get self k).
Proof. rewrite get_one_entry get_entry. by destruct (HashMap.get _ _). Qed.

(** *** A name the map does not contain *)

(** C15: a name the map does not contain.  [get] yields nothing for it and
    [get_one] returns nothing; [remove] of it leaves the map as it is, the
    first time and the second; [replace] of a header of that name returns
    [false] and leaves the map [add] of the header leaves, in which the name
    has the value of the header and no other. *)
Theorem absent_noop header self :
  let name := Header.name (Header.into header) in
  contains self name = false →
  get self name = [] ∧ get_one self name = None
  ∧ exec (remove name) self ≡ₕ self
  ∧ exec (remove name) (exec (remove name) self) ≡ₕ self
  ∧ eval (replace header) self = false
  ∧ exec (replace header) self ≡ₕ exec (add header) self
  ∧ get (exec (add header) self) name = [Header.value (Header.into header)].
Proof.
  intros name Hc.
  assert (HashMap.get name (headers self) = None) as He by by apply is_some_false.
  split_and!; [by rewrite get_entry He|by rewrite get_one_entry He| | |
    by rewrite eval_replace_entry| |].
  - intros k. rewrite entry_remove. case_decide; by subst.
  - intros k. rewrite !entry_remove. case_decide; by subst.
  - intros k. rewrite entry_replace entry_add. case_decide; [|done].
    subst k. by rewrite He.
  - by rewrite !get_entry entry_add decide_True // He.
Qed.

(** *** Iteration *)

Lemma filter_groups self k (l : list (string * list string)) :
  NoDup l.*1 →
  (∀ k' vs, (k', vs) ∈ l ↔ HashMap.get k' (headers self) = Some vs) →
  filter (λ h, Header.name h = k) (l ≫= λ '(k', vs), Header.new k' <$> vs)
  = Header.new k <$> get self k.
Proof.
  intros Hnd Hin. rewrite get_entry.
  destruct (HashMap.get k (headers self)) as [vs|] eqn:Hk; simpl.
  - apply (filter_key_groups Header.name Header.new); [done..|]. by apply Hin.
  - apply (filter_key_groups_None Header.name Header.new); first done.
    intros [[k' vs] [Hk' Hl%Hin]]%list_elem_of_fmap. simpl in *. congruence.
Qed.

(** C8: among the headers [iter] yields, those of one name are the values
    [get] yields for it, in the same (FIFO) order, whatever the order in
    which the hash map yields the names. *)
Theorem filter_iter self k :
  filter (λ h, Header.name h = k) (iter self) = Header.new k <$> get self k.
Proof.
  apply filter_groups; [apply HashMap.NoDup_iter|apply HashMap.elem_of_iter].
Qed.

Lemma filter_into_iter self k :
  filter (λ h, Header.name h = k) (into_iter self)
  = Header.new k <$> get self k.
Proof.
  apply filter_groups;
    [apply HashMap.NoDup_into_iter|apply HashMap.elem_of_into_iter].
Qed.

(** [len] counts the headers: it is the number of headers [iter] yields,
    and [into_iter]. *)
Lemma len_iter self : len self = length (iter self).
Proof. by rewrite len_contents MultiMap.count_flatten iter_contents. Qed.

Lemma len_into_iter self : len self = length (into_iter self).
Proof. by rewrite into_iter_iter len_iter. Qed.

Lemma elem_of_iter self h :
  h ∈ iter self ↔ Header.value h ∈ get self (Header.name h).
Proof. by rewrite iter_contents MultiMap.elem_of_flatten values_contents. Qed.

(** *** [remove_all] *)

(** C7: [remove_all] returns the headers the map held, those of each name
    together and in their FIFO order, and leaves the map empty. *)
Theorem remove_all_spec self :
  let removed := eval remove_all self in
  let self' := exec remove_all self in
  removed ≡ₚ iter self
  ∧ (∀ k, filter (λ h, Header.name h = k) removed = Header.new k <$> get self k)
  ∧ is_empty self' = true
  ∧ len self' = 0.
Proof.
  split_and!.
  - apply into_iter_iter.
  - apply filter_into_iter.
  - apply is_empty_new.
  - apply len_new.
Qed.

End queries.

(** ** The invariant *)

Section invariant.
Context {M : Type} {ops : HashMap.Ops string (list string) M}.
Context {laws : HashMap.Laws string (list string) M}.
Context {H : Type} {into_header : Header.IntoHeader H}.
Implicit Types (self : HeaderMap M) (name k : string) (values : list string).
Implicit Types (header : H).

Lemma wf_entry self :
  wf self ↔ ∀ k vs, HashMap.get k (headers self) = Some vs → vs ≠ [].
Proof.
  rewrite wf_contents /MultiMap.nonempty map_Forall_lookup.
  by setoid_rewrite lookup_contents.
Qed.

Lemma wf_new : wf (new (M:=M)).
Proof. rewrite wf_contents contents_new. apply MultiMap.nonempty_empty. Qed.

Lemma wf_add header self : wf self → wf (exec (add header) self).
Proof. rewrite !wf_contents contents_add. apply MultiMap.nonempty_add. Qed.

Lemma wf_replace header self : wf self → wf (exec (replace header) self).
Proof. rewrite !wf_contents contents_replace. apply MultiMap.nonempty_replace. Qed.

Lemma wf_remove name self : wf self → wf (exec (remove name) self).
Proof. rewrite !wf_contents contents_remove. apply MultiMap.nonempty_remove. Qed.

Lemma wf_remove_all self : wf (exec remove_all self).
Proof. apply wf_new. Qed.

Lemma wf_add_all name values self :
  values ≠ [] → wf self → wf (exec (add_all name values) self).
Proof.
  rewrite !wf_contents contents_add_all. apply MultiMap.nonempty_add_all.
Qed.

Lemma wf_replace_all name values self :
  values ≠ [] → wf self → wf (exec (replace_all name values) self).
Proof.
  rewrite !wf_contents contents_replace_all. apply MultiMap.nonempty_replace_all.
Qed.

(** C9: no method stores a name with an empty vector of values, provided
    [add_all] and [replace_all] are given a vector that is not empty: from a
    map that satisfies the invariant, each method leaves one that does. *)
Theorem wf_preserved header name values self :
  wf self →
  wf (exec (add header) self)
  ∧ wf (exec (replace header) self)
  ∧ wf (exec (remove name) self)
  ∧ wf (exec remove_all self)
  ∧ (values ≠ [] →
     wf (exec (add_all name values) self)
     ∧ wf (exec (replace_all name values) self)).
Proof.
  intros Hwf. split_and!; [by apply wf_add|by apply wf_replace|
    by apply wf_remove|apply wf_remove_all|].
  intros Hv. split; [by apply wf_add_all|by apply wf_replace_all].
Qed.

(** Under the invariant, a name is contained exactly when [get] yields a
    value for it. *)
Lemma contains_get self k :
  wf self → contains self k = true ↔ get self k ≠ [].
Proof.
  rewrite wf_contents contains_entry -values_contents -lookup_contents.
  intros Hwf. rewrite MultiMap.values_nil // -not_eq_None_Some. done.
Qed.

(** Under the invariant, the map is empty exactly when it holds no value. *)
Lemma is_empty_len self : wf self → is_empty self = true ↔ len self = 0.
Proof.
  rewrite wf_contents is_empty_contents len_contents=> Hwf.
  by rewrite MultiMap.count_0.
Qed.

(** C14: under the invariant the queries agree on what the map holds: a
    name is contained exactly when [get] yields a value for it and when
    [get_one] returns one, and the map is empty exactly when it holds no
    value. *)
Theorem wf_queries self :
  wf self →
  (∀ k, contains self k = true ↔ get self k ≠ [])
  ∧ (∀ k, contains self k = true ↔ is_Some (get_one self k))
  ∧ (is_empty self = true ↔ len self = 0).
Proof.
  intros Hwf. split_and!; [by intros; apply contains_get| |by apply is_empty_len].
  intros k. rewrite contains_get // get_one_contents values_contents.
  by destruct (get self k) as [|v vs]; simpl; split.
Qed.

(** Without the invariant, an empty map still holds no value. *)
Lemma is_empty_len_0 self : is_empty self = true → len self = 0.
Proof.
  rewrite is_empty_contents len_contents=> ->. apply MultiMap.count_empty.
Qed.

(** C10: [replace_all] with an empty vector stores the name with no value:
    the map then contains the name while [get] and [get_one] yield nothing
    for it, it is not empty although it may hold no value, and the invariant
    is broken. *)
Theorem replace_all_nil name self :
  let self' := exec (replace_all name []) self in
  contains self' name = true
  ∧ get self' name = []
  ∧ get_one self' name = None
  ∧ is_empty self' = false
  ∧ ¬ wf self'.
Proof.
  assert (HashMap.get name (headers (exec (replace_all name []) self)) = Some [])
    as Hentry by (rewrite entry_replace_all; by case_decide).
  split_and!.
  - by rewrite /contains Hentry.
  - by rewrite get_entry Hentry.
  - by rewrite get_one_entry Hentry.
  - apply Bool.not_true_iff_false. rewrite is_empty_contents=> Hempty.
    by rewrite -lookup_contents Hempty lookup_empty in Hentry.
  - rewrite wf_entry=> Hwf. by apply Hwf in Hentry.
Qed.

(** [add_all] with an empty vector does the same to a name that is absent. *)
Lemma add_all_nil name self :
  contains self name = false →
  let self' := exec (add_all name []) self in
  contains self' name = true ∧ get self' name = [] ∧ len self' = len self
  ∧ ¬ wf self'.
Proof.
  intros Hc%is_some_false.
  assert (HashMap.get name (headers (exec (add_all name []) self)) = Some [])
    as Hentry by (rewrite entry_add_all Hc; by case_decide).
  split_and!.
  - by rewrite /contains Hentry.
  - by rewrite get_entry Hentry.
  - by rewrite len_add_all /= Nat.add_0_r.
  - rewrite wf_entry=> Hwf. by apply Hwf in Hentry.
Qed.

End invariant.

(** ** The rewriting databases

    [hdr] holds the entry each method leaves, [hdr_obs] turns the queries
    into observations of the contents, and [hdr_contents] the contents after
    a method into the step of the specification. *)

#[global] Hint Rewrite @entry_new @entry_replace @entry_replace_all @entry_add
  @entry_add_all @entry_remove @entry_remove_all : hdr.

(** Proves that two header maps hold the same entries, by the entry each
    method leaves. *)
Ltac solve_entries :=
  let k := fresh "k" in
  intros k; autorewrite with hdr;
  repeat (case_decide; simplify_eq/=); try done.

Create Rewrite HintDb hdr_obs.
Create Rewrite HintDb hdr_contents.
#[global] Hint Rewrite @get_contents @get_one_contents @contains_contents
  @is_empty_contents_eq @len_contents @eval_remove_all @eval_add_all
  @list_to_set_into_iter : hdr_obs.
#[global] Hint Rewrite @contents_new @contents_add @contents_replace
  @contents_add_raw @contents_replace_raw @contents_replace_all
  @contents_add_all @contents_remove @contents_remove_all : hdr_contents.

(** ** Equality of header maps

    [≡ₕ] is the equality [#[derive(PartialEq)]] gives a header map: the same
    entries.  Every query and every method respects it. *)

Section equality.
Context {M : Type} {ops : HashMap.Ops string (list string) M}.
Context {laws : HashMap.Laws string (list string) M}.
Context {H : Type} {into_header : Header.IntoHeader H}.
Implicit Types (self : HeaderMap M) (name k : string) (values : list string).
Implicit Types (header : H).

#[global] Instance eq_equivalence : Equivalence (eq (M:=M)).
Proof.
  split.
  - by intros self k.
  - by intros self other Heq k.
  - intros s1 s2 s3 H12 H23 k. by rewrite H12.
Qed.

#[global] Instance contents_proper : Proper (eq ==> (=)) (contents (M:=M)).
Proof. by intros s1 s2 Heq%eq_contents. Qed.

#[global] Instance get_proper : Proper (eq ==> (=) ==> (=)) (get (M:=M)).
Proof. intros s1 s2 Heq k ? <-. by rewrite -!values_contents Heq. Qed.

#[global] Instance get_one_proper : Proper (eq ==> (=) ==> (=)) (get_one (M:=M)).
Proof. intros s1 s2 Heq k ? <-. by rewrite !get_one_contents Heq. Qed.

#[global] Instance contains_proper : Proper (eq ==> (=) ==> (=)) (contains (M:=M)).
Proof. intros s1 s2 Heq k ? <-. by rewrite /contains (Heq k). Qed.

#[global] Instance len_proper : Proper (eq ==> (=)) (len (M:=M)).
Proof. intros s1 s2 Heq. by rewrite !len_contents Heq. Qed.

#[global] Instance is_empty_proper : Proper (eq ==> (=)) (is_empty (M:=M)).
Proof.
  intros s1 s2 Heq. apply Bool.eq_true_iff_eq. by rewrite !is_empty_contents Heq.
Qed.

#[global] Instance iter_proper : Proper (eq ==> (≡ₚ)) (iter (M:=M)).
Proof. intros s1 s2 Heq. by rewrite !iter_contents Heq. Qed.

#[global] Instance into_iter_proper : Proper (eq ==> (≡ₚ)) (into_iter (M:=M)).
Proof. intros s1 s2 Heq. by rewrite !into_iter_iter Heq. Qed.

#[global] Instance wf_proper : Proper (eq ==> iff) (wf (M:=M)).
Proof. intros s1 s2 Heq. by rewrite !wf_contents Heq. Qed.

#[global] Instance add_proper header : Proper (eq ==> eq) (exec (add (M:=M) header)).
Proof. intros s1 s2 Heq. apply eq_contents. by rewrite !contents_add Heq. Qed.

#[global] Instance replace_proper header :
  Proper (eq ==> eq) (exec (replace (M:=M) header)).
Proof. intros s1 s2 Heq. apply eq_contents. by rewrite !contents_replace Heq. Qed.

#[global] Instance replace_all_proper name values :
  Proper (eq ==> eq) (exec (replace_all (M:=M) name values)).
Proof.
  intros s1 s2 Heq. apply eq_contents. by rewrite !contents_replace_all Heq.
Qed.

#[global] Instance add_all_proper name values :
  Proper (eq ==> eq) (exec (add_all (M:=M) name values)).
Proof. intros s1 s2 Heq. apply eq_contents. by rewrite !contents_add_all Heq. Qed.

#[global] Instance remove_proper name : Proper (eq ==> eq) (exec (remove (M:=M) name)).
Proof. intros s1 s2 Heq. apply eq_contents. by rewrite !contents_remove Heq. Qed.

(** [eval (replace header)] respects the equality too. *)
Lemma eval_replace_proper header : Proper (eq ==> (=)) (eval (replace (M:=M) header)).
Proof. intros s1 s2 Heq. by rewrite !eval_replace_entry (Heq _). Qed.

(** *** Laws of the methods *)

(** C13: [replace] is [remove] of the name followed by [add]: it leaves the
    same map. *)
Theorem replace_remove_add header self :
  exec (replace header) self
  ≡ₕ exec (add header) (exec (remove (Header.name (Header.into header))) self).
Proof. solve_entries. Qed.

(** Removing a name that is absent changes nothing, and removing twice is
    removing once. *)
Lemma remove_absent name self :
  contains self name = false → exec (remove name) self ≡ₕ self.
Proof. intros Hc%is_some_false. solve_entries. Qed.

Lemma remove_idemp name self :
  exec (remove name) (exec (remove name) self) ≡ₕ exec (remove name) self.
Proof. solve_entries. Qed.

Lemma replace_idemp header header' self :
  Header.name (Header.into header) = Header.name (Header.into header') →
  exec (replace header') (exec (replace header) self)
  ≡ₕ exec (replace header') self.
Proof. intros Hn. solve_entries. Qed.

Lemma replace_all_singleton header self :
  exec (replace header) self
  ≡ₕ exec (replace_all (Header.name (Header.into header))
            [Header.value (Header.into header)]) self.
Proof. solve_entries. Qed.

Lemma add_all_singleton header self :
  exec (add header) self
  ≡ₕ exec (add_all (Header.name (Header.into header))
            [Header.value (Header.into header)]) self.
Proof. solve_entries. Qed.

Lemma add_all_app name values values' self :
  exec (add_all name values') (exec (add_all name values) self)
  ≡ₕ exec (add_all name (values ++ values')) self.
Proof. solve_entries. by rewrite assoc. Qed.

End equality.

(** ** The theorems at concrete maps *)

Section witnesses.
Local Abbreviation M0 := (gmap string (list string)).

(** The map of the example of [remove]: two values of one name and one of
    another. *)
Definition custom : HeaderMap M0 :=
  exec (add_raw "X-Other" "other")
    (exec (add_raw "X-Custom" "value_2")
       (exec (add_raw "X-Custom" "value_1") new)).

(** The map of the example of [replace]: a content type. *)
Definition typed : HeaderMap M0 :=
  exec (replace_raw "Content-Type" "application/json") new.

Lemma wf_custom : wf custom.
Proof. apply (bool_decide_unpack (wf custom)). by vm_compute. Qed.

Lemma get_add_witness :
  get (exec (add (Header.new "X-Custom" "value_3")) custom) "X-Custom"
  = ["value_1"; "value_2"; "value_3"].
Proof. by rewrite get_add. Defined.

Lemma len_add_witness :
  len (exec (add (Header.new "X-Custom" "value_3")) custom) = 4.
Proof. by rewrite len_add. Defined.

Lemma get_replace_witness :
  get (exec (replace (Header.new "X-Custom" "value_3")) custom) "X-Custom"
  = ["value_3"].
Proof. by rewrite get_replace. Defined.

Lemma eval_replace_witness :
  eval (replace (Header.new "Content-Type" "image/gif")) typed = true
  ∧ eval (replace (Header.new "Content-Type" "image/gif")) custom = false.
Proof. by rewrite !eval_replace. Defined.

Lemma len_replace_witness :
  len (exec (replace (Header.new "X-Custom" "value_3")) custom) + 2 = 4.
Proof. exact (len_replace (Header.new "X-Custom" "value_3") custom). Defined.

Lemma remove_spec_witness :
  contains (exec (remove "X-Custom") custom) "X-Custom" = false
  ∧ (∀ k, get (exec (remove "X-Custom") custom) k
          = if decide ("X-Custom" = k) then [] else get custom k)
  ∧ len (exec (remove "X-Custom") custom) + 2 = 3.
Proof. exact (remove_spec "X-Custom" custom). Defined.

Lemma absent_noop_witness :
  get custom "X-Absent" = [] ∧ get_one custom "X-Absent" = None
  ∧ exec (remove "X-Absent") custom ≡ₕ custom
  ∧ exec (remove "X-Absent") (exec (remove "X-Absent") custom) ≡ₕ custom
  ∧ eval (replace (Header.new "X-Absent" "value")) custom = false
  ∧ exec (replace (Header.new "X-Absent" "value")) custom
    ≡ₕ exec (add (Header.new "X-Absent" "value")) custom
  ∧ get (exec (add (Header.new "X-Absent" "value")) custom) "X-Absent"
    = ["value"].
Proof. exact (absent_noop (Header.new "X-Absent" "value") custom eq_refl). Defined.

Lemma get_one_head_witness : get_one custom "X-Custom" = Some "value_1".
Proof. by rewrite get_one_head. Defined.

Lemma filter_iter_witness :
  filter (λ h, Header.name h = "X-Custom") (iter custom)
  = [Header.new "X-Custom" "value_1"; Header.new "X-Custom" "value_2"].
Proof. by rewrite filter_iter. Defined.

Lemma remove_all_spec_witness :
  eval remove_all custom ≡ₚ iter custom
  ∧ (∀ k, filter (λ h, Header.name h = k) (eval remove_all custom)
          = Header.new k <$> get custom k)
  ∧ is_empty (exec remove_all custom) = true
  ∧ len (exec remove_all custom) = 0.
Proof. exact (remove_all_spec custom). Defined.

Lemma replace_remove_add_witness :
  exec (replace (Header.new "X-Custom" "value_3")) custom
  ≡ₕ exec (add (Header.new "X-Custom" "value_3"))
       (exec (remove "X-Custom") custom).
Proof. exact (replace_remove_add (Header.new "X-Custom" "value_3") custom). Defined.

Lemma wf_preserved_witness :
  wf (exec (add (Header.new "X-Custom" "value_3")) custom)
  ∧ wf (exec (replace (Header.new "X-Custom" "value_3")) custom)
  ∧ wf (exec (remove "X-Custom") custom)
  ∧ wf (exec remove_all custom)
  ∧ (["a"; "b"] ≠ [] →
     wf (exec (add_all "X-Custom" ["a"; "b"]) custom)
     ∧ wf (exec (replace_all "X-Custom" ["a"; "b"]) custom)).
Proof.
  exact (wf_preserved (Header.new "X-Custom" "value_3") "X-Custom" ["a"; "b"]
           custom wf_custom).
Defined.

Lemma wf_queries_witness :
  (∀ k, contains custom k = true ↔ get custom k ≠ [])
  ∧ (∀ k, contains custom k = true ↔ is_Some (get_one custom k))
  ∧ (is_empty custom = true ↔ len custom = 0).
Proof. exact (wf_queries custom wf_custom). Defined.

(** Invariant 3: a name is looked up as it is written, without folding its
    case and without trimming it. *)
Example contains_exact :
  contains typed "Content-Type" = true
  ∧ contains typed "content-type" = false
  ∧ contains typed "Content-Type " = false.
Proof. by vm_compute. Qed.

Lemma replace_all_nil_witness :
  contains (exec (replace_all "X-Custom" []) custom) "X-Custom" = true
  ∧ get (exec (replace_all "X-Custom" []) custom) "X-Custom" = []
  ∧ get_one (exec (replace_all "X-Custom" []) custom) "X-Custom" = None
  ∧ is_empty (exec (replace_all "X-Custom" []) custom) = false
  ∧ ¬ wf (exec (replace_all "X-Custom" []) custom).
Proof. exact (replace_all_nil "X-Custom" custom). Defined.

End witnesses.

End HeaderMap.
