(* ===== verification/HeaderMapTrace.v ===== *)
(** * Sequences of calls on a header map

    The owner of a header map changes it by a sequence of calls of its
    [&mut self] methods.  [Trace.call] names one such call, [Trace.run] is the
    map after the method it calls and [Trace.run_all] the map after a
    sequence of calls in order;
    [Trace.reachable] is the set of maps an owner can arrive at from
    [HeaderMap::new()], as an inductive predicate.

    The theorems here are about whole sequences: the map is at every point
    the state of the specification after the same calls ([run_all_refines]),
    so what the queries return does not depend on the hash map behind it
    ([observations_independent]); the invariant of the data model holds of
    every reachable map, by induction on how it was reached
    ([reachable_wf]).  A call changes the entry of the name it works on
    ([Trace.target], [Trace.effect]) and no other, so calls on different
    names commute ([run_commute]). *)

From S2P Require Import Prelude HashMapModel HashMapAList HeaderModel.
From S2P Require Import MultiMapSpec HeaderMapModel.
Set Warnings "-rewrite-rw".

Module Trace.

(** A call of a method that changes the map, with its arguments. *)
Inductive call : Type :=
  | Add (header : Header.Header)
  | Replace (header : Header.Header)
  | ReplaceAll (name : string) (values : list string)
  | AddAll (name : string) (values : list string)
  | Remove (name : string)
  | RemoveAll.

#[global] Instance call_eq_dec : EqDecision call.
Proof. solve_decision. Defined.

(** The calls that keep the invariant: the two low-level methods must be
    given a vector that is not empty. *)
Definition safe (c : call) : Prop :=
  match c with
  | ReplaceAll _ values | AddAll _ values => values ≠ []
  | _ => True
  end.

#[global] Instance safe_dec c : Decision (safe c).
Proof. destruct c; apply _. Defined.

(** The name a call works on; [remove_all] works on every name. *)
Definition target (c : call) : option string :=
  match c with
  | Add header | Replace header => Some (Header.name header)
  | ReplaceAll name _ | AddAll name _ | Remove name => Some name
  | RemoveAll => None
  end.

Definition touches (c : call) (k : string) : Prop :=
  from_option (λ name, name = k) True (target c).

#[global] Instance touches_dec c k : Decision (touches c k).
Proof. rewrite /touches. destruct (target c); simpl; apply _. Defined.

(** What a call makes of the entry of a name it works on. *)
Definition effect (c : call) (entry : option (list string)) :
    option (list string) :=
  match c with
  | Add header => Some (default [] entry ++ [Header.value header])
  | Replace header => Some [Header.value header]
  | ReplaceAll _ values => Some values
  | AddAll _ values => Some (default [] entry ++ values)
  | Remove _ | RemoveAll => None
  end.

(** Two calls that work on two different names. *)
Definition independent (c1 c2 : call) : Prop :=
  match target c1, target c2 with
  | Some name1, Some name2 => name1 ≠ name2
  | _, _ => False
  end.

#[global] Instance independent_dec c1 c2 : Decision (independent c1 c2).
Proof.
  rewrite /independent. destruct (target c1), (target c2); simpl; apply _.
Defined.

(** What a call does to the state of the specification. *)
Definition spec_step (c : call) (g : MultiMap.t) : MultiMap.t :=
  match c with
  | Add header => MultiMap.add header g
  | Replace header => MultiMap.replace header g
  | ReplaceAll name values => MultiMap.replace_all name values g
  | AddAll name values => MultiMap.add_all name values g
  | Remove name => MultiMap.remove name g
  | RemoveAll => ∅
  end.

Definition spec_steps (cs : list call) (g : MultiMap.t) : MultiMap.t :=
  foldl (λ g c, spec_step c g) g cs.

Section run.
Context {M : Type} {ops : HashMap.Ops string (list string) M}.

(** The map after the method a call stands for; what the method returns is
    dropped. *)
Definition run (c : call) (self : HeaderMap.HeaderMap M) :
    HeaderMap.HeaderMap M :=
  match c with
  | Add header => exec (HeaderMap.add header) self
  | Replace header => exec (HeaderMap.replace header) self
  | ReplaceAll name values => exec (HeaderMap.replace_all name values) self
  | AddAll name values => exec (HeaderMap.add_all name values) self
  | Remove name => exec (HeaderMap.remove name) self
  | RemoveAll => exec HeaderMap.remove_all self
  end.

(** The map after a sequence of calls, first to last. *)
Definition run_all (cs : list call) (self : HeaderMap.HeaderMap M) :
    HeaderMap.HeaderMap M :=
  foldl (λ self c, run c self) self cs.

(** The maps that calls satisfying [P] lead to from the empty map. *)
Inductive reachable (P : call → Prop) : HeaderMap.HeaderMap M → Prop :=
  | reachable_new : reachable P HeaderMap.new
  | reachable_step self c :
      reachable P self → P c → reachable P (run c self).

End run.

(** ** Theory *)

Section theory.
Context {M : Type} {ops : HashMap.Ops string (list string) M}.
Context {laws : HashMap.Laws string (list string) M}.
Implicit Types (self : HeaderMap.HeaderMap M) (c : call) (cs : list call).
Implicit Types (name k : string) (values : list string).

Lemma run_all_cons c cs self : run_all (c :: cs) self = run_all cs (run c self).
Proof. done. Qed.

Lemma run_all_app cs cs' self :
  run_all (cs ++ cs') self = run_all cs' (run_all cs self).
Proof. apply foldl_app. Qed.

Lemma spec_steps_app cs cs' g :
  spec_steps (cs ++ cs') g = spec_steps cs' (spec_steps cs g).
Proof. apply foldl_app. Qed.

(** *** Refinement *)

Lemma run_refines c self :
  HeaderMap.contents (run c self) = spec_step c (HeaderMap.contents self).
Proof.
  destruct c; rewrite /run /spec_step.
  - exact (HeaderMap.contents_add header self).
  - exact (HeaderMap.contents_replace header self).
  - apply HeaderMap.contents_replace_all.
  - apply HeaderMap.contents_add_all.
  - apply HeaderMap.contents_remove.
  - apply HeaderMap.contents_remove_all.
Qed.

(** *** A call changes the entry of its name, and no other *)

Lemma entry_run c self k :
  HashMap.get k (HeaderMap.headers (run c self))
  = if decide (touches c k)
    then effect c (HashMap.get k (HeaderMap.headers self))
    else HashMap.get k (HeaderMap.headers self).
Proof.
  destruct c; rewrite /run /touches /=; autorewrite with hdr;
    by repeat case_decide.
Qed.

(** The same, of the specification. *)
Lemma lookup_spec_step c (g : MultiMap.t) k :
  spec_step c g !! k
  = if decide (touches c k) then effect c (g !! k) else g !! k.
Proof.
  destruct c; rewrite /spec_step /touches /=;
    rewrite /MultiMap.add /MultiMap.replace /MultiMap.replace_all
      /MultiMap.add_all /MultiMap.remove /MultiMap.values
      ?lookup_insert ?lookup_delete ?lookup_empty;
    by repeat (case_decide; simplify_eq/=).
Qed.

Lemma get_run_frame c self k :
  ¬ touches c k → HeaderMap.get (run c self) k = HeaderMap.get self k.
Proof. intros Hk. by rewrite !HeaderMap.get_entry entry_run decide_False. Qed.

Lemma independent_touches c1 c2 k :
  independent c1 c2 → ¬ (touches c1 k ∧ touches c2 k).
Proof.
  rewrite /independent /touches.
  destruct (target c1), (target c2); simpl; [|tauto..].
  intros Hne [-> ->]. done.
Qed.

(** C24: two calls on two different names commute: in either order they
    leave the same map. *)
Theorem run_commute c1 c2 self :
  independent c1 c2 →
  HeaderMap.eq (run c1 (run c2 self)) (run c2 (run c1 self)).
Proof.
  intros Hind k. pose proof (independent_touches c1 c2 k Hind).
  rewrite !entry_run. repeat case_decide; tauto.
Qed.

(** C18: the header map implements its specification along every sequence of
    calls: after the calls, it holds what the specification holds after the
    same calls from the contents the map started with. *)
Theorem run_all_refines cs self :
  HeaderMap.contents (run_all cs self)
  = spec_steps cs (HeaderMap.contents self).
Proof.
  revert self. induction cs as [|c cs IH]=> self; first done.
  by rewrite run_all_cons IH run_refines.
Qed.

(** *** Reachable maps *)

Lemma reachable_run_all (P : call → Prop) cs self :
  reachable P self → Forall P cs → reachable P (run_all cs self).
Proof.
  intros Hr HP. revert self Hr.
  induction HP as [|c cs Hc _ IH]=> self Hr; first done.
  rewrite run_all_cons. apply IH. by constructor.
Qed.

(** A map is reachable exactly when a sequence of calls leads to it from the
    empty map. *)
Lemma reachable_iff (P : call → Prop) self :
  reachable P self ↔ ∃ cs, Forall P cs ∧ self = run_all cs HeaderMap.new.
Proof.
  split.
  - induction 1 as [|self c _ [cs [HP ->]] Hc].
    + by exists [].
    + exists (cs ++ [c]). split; last by rewrite run_all_app.
      apply Forall_app. by split; [|constructor].
  - intros (cs & HP & ->). apply reachable_run_all; [constructor|done].
Qed.

Lemma run_wf c self : safe c → HeaderMap.wf self → HeaderMap.wf (run c self).
Proof.
  destruct c; rewrite /run /safe; intros Hsafe Hwf.
  - by apply HeaderMap.wf_add.
  - by apply HeaderMap.wf_replace.
  - by apply HeaderMap.wf_replace_all.
  - by apply HeaderMap.wf_add_all.
  - by apply HeaderMap.wf_remove.
  - apply HeaderMap.wf_remove_all.
Qed.

(** C19: every map reached from [HeaderMap::new()] by calls that give the
    low-level methods a vector that is not empty satisfies the invariant: no
    name is stored without a value. *)
Theorem reachable_wf self : reachable safe self → HeaderMap.wf self.
Proof.
  induction 1 as [|self c _ IH Hc]; [apply HeaderMap.wf_new|by apply run_wf].
Qed.

(** *** What a sequence of calls leaves *)

(** After any calls that end with [remove_all], the map is empty: it
    contains no name and holds no value. *)
Lemma run_all_remove_all cs self :
  let self' := run_all (cs ++ [RemoveAll]) self in
  HeaderMap.is_empty self' = true
  ∧ HeaderMap.len self' = 0
  ∧ ∀ k, HeaderMap.contains self' k = false.
Proof.
  cbv zeta. rewrite run_all_app run_all_cons /run /=. split_and!.
  - apply HeaderMap.is_empty_new.
  - apply HeaderMap.len_new.
  - apply HeaderMap.contains_new.
Qed.

(** C21: a sequence of [add] calls for one name appends the values in the
    order of the calls, and [len] grows by the number of calls. *)
Theorem run_all_adds name values self :
  let self' := run_all (Add ∘ Header.new name <$> values) self in
  HeaderMap.get self' name = HeaderMap.get self name ++ values
  ∧ HeaderMap.len self' = HeaderMap.len self + length values.
Proof.
  cbv zeta. revert self. induction values as [|v values IH]=> self.
  { by rewrite /= app_nil_r Nat.add_0_r. }
  rewrite fmap_cons run_all_cons.
  destruct (IH (run ((Add ∘ Header.new name) v) self)) as [-> ->].
  rewrite /run /= !HeaderMap.get_entry HeaderMap.entry_add decide_True //=.
  rewrite !HeaderMap.len_contents HeaderMap.contents_add MultiMap.count_add.
  split; [by rewrite -assoc|lia].
Qed.

(** A sequence of [replace] calls for one name leaves the value of the last
    call. *)
Lemma run_all_replaces name values v self :
  let self' := run_all (Replace ∘ Header.new name <$> values ++ [v]) self in
  HeaderMap.get self' name = [v].
Proof.
  cbv zeta. rewrite fmap_app run_all_app fmap_cons run_all_cons /run /=.
  by rewrite HeaderMap.get_entry HeaderMap.entry_replace decide_True.
Qed.

End theory.

(** ** Independence of the hash map *)

Section independence.
Context {M1 M2 : Type}.
Context {ops1 : HashMap.Ops string (list string) M1}.
Context {laws1 : HashMap.Laws string (list string) M1}.
Context {ops2 : HashMap.Ops string (list string) M2}.
Context {laws2 : HashMap.Laws string (list string) M2}.
Implicit Types (sa : HeaderMap.HeaderMap M1) (sb : HeaderMap.HeaderMap M2).

(** Two header maps over two hash maps hold the same. *)
Definition similar sa sb : Prop :=
  HeaderMap.contents sa = HeaderMap.contents sb.

Lemma similar_new : similar HeaderMap.new HeaderMap.new.
Proof. by rewrite /similar !HeaderMap.contents_new. Qed.

Lemma similar_run c sa sb : similar sa sb → similar (run c sa) (run c sb).
Proof. rewrite /similar !run_refines. by intros ->. Qed.

Lemma similar_run_all cs sa sb :
  similar sa sb → similar (run_all cs sa) (run_all cs sb).
Proof.
  revert sa sb. induction cs as [|c cs IH]=> sa sb Hsim; first done.
  by apply IH, similar_run.
Qed.

Lemma similar_observations sa sb :
  similar sa sb →
  (∀ k, HeaderMap.get sa k = HeaderMap.get sb k)
  ∧ (∀ k, HeaderMap.get_one sa k = HeaderMap.get_one sb k)
  ∧ (∀ k, HeaderMap.contains sa k = HeaderMap.contains sb k)
  ∧ HeaderMap.len sa = HeaderMap.len sb
  ∧ HeaderMap.is_empty sa = HeaderMap.is_empty sb
  ∧ HeaderMap.iter sa ≡ₚ HeaderMap.iter sb.
Proof.
  rewrite /similar=> Hsim. split_and!.
  - intros k. by rewrite -!HeaderMap.values_contents Hsim.
  - intros k. by rewrite !HeaderMap.get_one_contents Hsim.
  - intros k. by rewrite /HeaderMap.contains -!HeaderMap.lookup_contents Hsim.
  - by rewrite !HeaderMap.len_contents Hsim.
  - apply Bool.eq_true_iff_eq. by rewrite !HeaderMap.is_empty_contents Hsim.
  - by rewrite !HeaderMap.iter_contents Hsim.
Qed.

(** C22: what the queries return after a sequence of calls does not depend
    on the hash map the headers are kept in: over any two lawful hash maps
    [get], [get_one], [contains], [len] and [is_empty] agree, and [iter]
    yields the same headers up to their order. *)
Theorem observations_independent cs :
  let sa : HeaderMap.HeaderMap M1 := run_all cs HeaderMap.new in
  let sb : HeaderMap.HeaderMap M2 := run_all cs HeaderMap.new in
  (∀ k, HeaderMap.get sa k = HeaderMap.get sb k)
  ∧ (∀ k, HeaderMap.get_one sa k = HeaderMap.get_one sb k)
  ∧ (∀ k, HeaderMap.contains sa k = HeaderMap.contains sb k)
  ∧ HeaderMap.len sa = HeaderMap.len sb
  ∧ HeaderMap.is_empty sa = HeaderMap.is_empty sb
  ∧ HeaderMap.iter sa ≡ₚ HeaderMap.iter sb.
Proof. apply similar_observations, similar_run_all, similar_new. Qed.

End independence.

(** ** The theorems at a concrete sequence of calls *)

Section witnesses.
Local Abbreviation M0 := (gmap string (list string)).
Local Abbreviation L0 := (list (string * list string)).

(** A sequence that uses every kind of call short of [remove_all]. *)
Definition calls : list call :=
  [Add (Header.new "X-Custom" "value_1");
   Replace (Header.new "Content-Type" "application/json");
   Add (Header.new "X-Custom" "value_2");
   AddAll "Set-Cookie" ["a=b"; "c=d"];
   Replace (Header.new "Content-Type" "image/gif");
   ReplaceAll "X-Other" ["other"];
   Remove "X-Other"].

Lemma safe_calls : Forall safe calls.
Proof. apply (bool_decide_unpack (Forall safe calls)). by vm_compute. Qed.

Lemma run_commute_witness :
  HeaderMap.eq
    (run (Add (Header.new "X-Custom" "value_1"))
       (run (Replace (Header.new "Content-Type" "image/gif"))
          (HeaderMap.new (M:=L0))))
    (run (Replace (Header.new "Content-Type" "image/gif"))
       (run (Add (Header.new "X-Custom" "value_1")) (HeaderMap.new (M:=L0)))).
Proof.
  apply (run_commute (Add (Header.new "X-Custom" "value_1"))
           (Replace (Header.new "Content-Type" "image/gif"))).
  by vm_compute.
Defined.

Lemma run_all_refines_witness :
  HeaderMap.contents (run_all calls (HeaderMap.new (M:=L0)))
  = spec_steps calls (HeaderMap.contents (HeaderMap.new (M:=L0))).
Proof. exact (run_all_refines calls HeaderMap.new). Defined.

Lemma reachable_wf_witness : HeaderMap.wf (run_all calls (HeaderMap.new (M:=L0))).
Proof.
  apply reachable_wf, reachable_run_all; [constructor|apply safe_calls].
Defined.

Lemma run_all_remove_all_witness :
  HeaderMap.is_empty (run_all (calls ++ [RemoveAll]) (HeaderMap.new (M:=M0)))
  = true
  ∧ HeaderMap.len (run_all (calls ++ [RemoveAll]) (HeaderMap.new (M:=M0))) = 0
  ∧ ∀ k, HeaderMap.contains
           (run_all (calls ++ [RemoveAll]) (HeaderMap.new (M:=M0))) k = false.
Proof. exact (run_all_remove_all calls HeaderMap.new). Defined.

Lemma run_all_adds_witness :
  HeaderMap.get
    (run_all (Add ∘ Header.new "X-Custom" <$> ["value_1"; "value_2"])
       (HeaderMap.new (M:=M0))) "X-Custom"
  = ["value_1"; "value_2"]
  ∧ HeaderMap.len
      (run_all (Add ∘ Header.new "X-Custom" <$> ["value_1"; "value_2"])
         (HeaderMap.new (M:=M0))) = 2.
Proof.
  exact (run_all_adds "X-Custom" ["value_1"; "value_2"] HeaderMap.new).
Defined.

Lemma observations_independent_witness :
  (∀ k, HeaderMap.get (run_all calls (HeaderMap.new (M:=M0))) k
        = HeaderMap.get (run_all calls (HeaderMap.new (M:=L0))) k)
  ∧ (∀ k, HeaderMap.get_one (run_all calls (HeaderMap.new (M:=M0))) k
          = HeaderMap.get_one (run_all calls (HeaderMap.new (M:=L0))) k)
  ∧ (∀ k, HeaderMap.contains (run_all calls (HeaderMap.new (M:=M0))) k
          = HeaderMap.contains (run_all calls (HeaderMap.new (M:=L0))) k)
  ∧ HeaderMap.len (run_all calls (HeaderMap.new (M:=M0)))
    = HeaderMap.len (run_all calls (HeaderMap.new (M:=L0)))
  ∧ HeaderMap.is_empty (run_all calls (HeaderMap.new (M:=M0)))
    = HeaderMap.is_empty (run_all calls (HeaderMap.new (M:=L0)))
  ∧ HeaderMap.iter (run_all calls (HeaderMap.new (M:=M0)))
    ≡ₚ HeaderMap.iter (run_all calls (HeaderMap.new (M:=L0))).
Proof. exact (observations_independent (M1:=M0) (M2:=L0) calls). Defined.

(** The two hash maps do iterate in different orders. *)
Example iter_orders_differ :
  HeaderMap.iter (run_all calls (HeaderMap.new (M:=M0)))
  ≠ HeaderMap.iter (run_all calls (HeaderMap.new (M:=L0))).
Proof. by vm_compute. Qed.

End witnesses.

End Trace.
