(* ===== verification/HeaderMapCow.v ===== *)
(** * The header map over [Cow] keys and values

    [HeaderMap<'h>] stores [HashMap<Cow<'h, str>, Vec<Cow<'h, str>>>].  The
    other files keep the text of the names and values; this one keeps the
    [Cow]s, borrowed or owned and with their lifetimes, and writes every
    method of [impl HeaderMap] over them.

    A [HashMap] hashes and compares a [Cow] key by its text, and [insert] and
    [entry] keep the key of an entry that exists.  [Module CowHashMap] has
    these operations over the interface [HashMap.Ops]: an entry is kept under
    the text of its key, together with the key as it was first given.

    Five groups of theorems:
    - erasure: [CowMap.contents] is the state of the specification
      [MultiMap] a map stands for; every method is the step of the
      specification on the erased arguments, so the queries of this map and
      of the map over text of [HeaderMapModel] agree after the same calls;
    - typing: [CowMap.typed h] says that the map is a [HeaderMap<'h>], that
      every text it borrows is borrowed for at least ['h]; the methods keep
      it when their arguments satisfy the bounds of their signatures, and
      what the map hands out has the lifetime its signature promises;
    - the key an entry keeps is the one it was made with;
    - provenance: a property of keys and values that holds of the arguments
      of the calls holds of what the map holds ([CowMap.every],
      [CowMap.run_all_every]); the typing above is one instance, and
      another is that every [Cow] the map holds or yields is one it was
      given, borrowed or owned as it was given ([CowMap.stored_given]);
    - equality: the derived [==] holds exactly when two maps hold the same
      text ([CowMap.eqb_eqv]), and the queries and the calls respect
      it. *)

From S2P Require Import Prelude HashMapModel HashMapAList HeaderModel HeaderCow.
From S2P Require Import MultiMapSpec HeaderMapModel HeaderMapTrace.
Set Warnings "-rewrite-rw".

(** ** A hash map with [Cow] keys *)

Module CowHashMap.

Section ops.
Context {V M : Type} {ops : HashMap.Ops string (Cow.Cow * V) M}.

(** [self.get(name)], the key given as a [&str]. *)
Definition get (name : string) (m : M) : option V :=
  snd <$> HashMap.get name m.

(** [self.insert(key, value)]: the value of an entry that exists is replaced,
    its key is not. *)
Definition insert (key : Cow.Cow) (value : V) : St M (option V) :=
  λ m,
    let old := HashMap.get (Cow.deref key) m in
    (snd <$> old,
     exec (HashMap.insert (Cow.deref key) (from_option fst key old, value)) m).

(** [self.entry(key).or_insert(default)]: the mutable borrow of the value of
    the entry, made with [key] and [default] when there is none. *)
Definition entry_or_insert (key : Cow.Cow) (default : V) (m : M) :
    V * (V → M) :=
  let '(slot, put) :=
    HashMap.entry_or_insert (Cow.deref key) (key, default) m in
  (slot.2, λ value, put (slot.1, value)).

(** [self.remove(name)] *)
Definition remove (name : string) : St M (option V) :=
  λ m, let '(old, m') := HashMap.remove name m in (snd <$> old, m').

(** [self.iter()] and [self.into_iter()]: the keys with their values. *)
Definition iter (m : M) : list (Cow.Cow * V) := snd <$> HashMap.iter m.
Definition into_iter (m : M) : list (Cow.Cow * V) :=
  snd <$> HashMap.into_iter m.

End ops.

(** The entry each operation leaves under a text. *)

Section facts.
Context {V M : Type} {ops : HashMap.Ops string (Cow.Cow * V) M}.
Context {laws : HashMap.Laws string (Cow.Cow * V) M}.
Implicit Types (m : M) (key : Cow.Cow) (k name : string) (v d : V).

Lemma eval_insert key v m : eval (insert key v) m = get (Cow.deref key) m.
Proof. done. Qed.

Lemma entry_insert key v m k :
  HashMap.get k (exec (insert key v) m)
  = if decide (Cow.deref key = k)
    then Some (from_option fst key (HashMap.get k m), v)
    else HashMap.get k m.
Proof.
  rewrite /insert {1}/exec /= HashMap.get_insert. by case_decide; subst.
Qed.

Lemma entry_slot key d m :
  (entry_or_insert key d m).1
  = from_option snd d (HashMap.get (Cow.deref key) m).
Proof.
  rewrite /entry_or_insert.
  pose proof (HashMap.entry_slot (Cow.deref key) (key, d) m) as Hslot.
  destruct (HashMap.entry_or_insert _ _ _) as [slot put]; simpl in *.
  rewrite Hslot. by destruct (HashMap.get _ _).
Qed.

Lemma entry_put key d m v k :
  HashMap.get k ((entry_or_insert key d m).2 v)
  = if decide (Cow.deref key = k)
    then Some (from_option fst key (HashMap.get k m), v)
    else HashMap.get k m.
Proof.
  rewrite /entry_or_insert.
  pose proof (HashMap.entry_slot (Cow.deref key) (key, d) m) as Hslot.
  pose proof (HashMap.get_entry_put (Cow.deref key) (key, d) m) as Hput.
  destruct (HashMap.entry_or_insert _ _ _) as [slot put]; simpl in *.
  rewrite Hput Hslot. case_decide; subst; last done.
  by destruct (HashMap.get _ _).
Qed.

Lemma entry_remove_text name m k :
  HashMap.get k (exec (remove name) m)
  = if decide (name = k) then None else HashMap.get k m.
Proof.
  rewrite -HashMap.get_remove /remove /exec.
  by destruct (HashMap.remove _ _).
Qed.

Lemma eval_remove name m : eval (remove name) m = get name m.
Proof.
  rewrite /get -HashMap.remove_old /remove /eval.
  by destruct (HashMap.remove _ _).
Qed.

End facts.

End CowHashMap.

Module CowMap.

(** [Into<Header<'p>>], over [Cow] headers. *)
Class IntoHeader (H : Type) := into : H → Cow.Header.
#[global] Hint Mode IntoHeader ! : typeclass_instances.
#[global] Instance Header_into : IntoHeader Cow.Header := λ h, h.
#[global] Instance hyper_into {T : Type} `{!Header.HyperHeader T} :
  IntoHeader T | 10 := Cow.from.

Section methods.
Context {M : Type}.
Context {ops : HashMap.Ops string (Cow.Cow * list Cow.Cow) M}.
Local Abbreviation HeaderMap := (HeaderMap.HeaderMap M).
Local Abbreviation headers := HeaderMap.headers.
Local Abbreviation on_headers := HeaderMap.on_headers.

(** [HeaderMap::new()] *)
Definition new : HeaderMap :=
  {| HeaderMap.headers := HashMap.new |}.

(** [contains(&self, name)] *)
Definition contains (self : HeaderMap) (name : string) : bool :=
  is_some (CowHashMap.get name (headers self)).

(** [len(&self)] *)
Definition len (self : HeaderMap) : nat :=
  length (CowHashMap.iter (headers self) ≫= λ '(_, values), values).

(** [is_empty(&self)] *)
Definition is_empty (self : HeaderMap) : bool :=
  HashMap.is_empty (headers self).

(** [get<'a>(&'a self, name)]: each value borrowed for ['a]. *)
Definition get (a : Lft.lft) (self : HeaderMap) (name : string) :
    list Cow.str :=
  option_list (CowHashMap.get name (headers self)) ≫= λ values,
    (λ val, Cow.Str a (Cow.deref val)) <$> values.

(** [get_one<'a>(&'a self, name)] *)
Definition get_one (a : Lft.lft) (self : HeaderMap) (name : string) :
    option Cow.str :=
  CowHashMap.get name (headers self) ≫= λ values,
    if decide (1 ≤ length values)
    then Some (Cow.Str a (Cow.deref (values !!! 0)))
    else None.

(** [replace(&mut self, header)] *)
Definition replace {H : Type} `{!IntoHeader H} (header : H) :
    St HeaderMap bool :=
  let header := into header in
  let* old := on_headers
    (CowHashMap.insert (Cow.name header) [Cow.value header]) in
  st_ret (is_some old).

(** [replace_raw(&mut self, name, value)] *)
Definition replace_raw {N V : Type} `{!Cow.IntoCow N} `{!Cow.IntoCow V}
    (name : N) (value : V) : St HeaderMap bool :=
  replace (Cow.new name value).

(** [replace_all(&mut self, name, values)] *)
Definition replace_all {H : Type} `{!Cow.IntoCow H} (name : H)
    (values : list Cow.Cow) : St HeaderMap unit :=
  on_headers (CowHashMap.insert (Cow.into_cow name) values) ;; st_ret tt.

(** [add(&mut self, header)] *)
Definition add {H : Type} `{!IntoHeader H} (header : H) : St HeaderMap unit :=
  λ self,
    let header := into header in
    let '(slot, put) :=
      CowHashMap.entry_or_insert (Cow.name header) [] (headers self) in
    (tt, HeaderMap.mk (put (vec_push slot (Cow.value header)))).

(** [add_raw(&mut self, name, value)] *)
Definition add_raw {N V : Type} `{!Cow.IntoCow N} `{!Cow.IntoCow V}
    (name : N) (value : V) : St HeaderMap unit :=
  add (Cow.new name value).

(** [add_all(&mut self, name, values)]: the result is [values] after the
    call. *)
Definition add_all {H : Type} `{!Cow.IntoCow H} (name : H)
    (values : list Cow.Cow) : St HeaderMap (list Cow.Cow) :=
  λ self,
    let '(slot, put) :=
      CowHashMap.entry_or_insert (Cow.into_cow name) [] (headers self) in
    let '(slot', values') := vec_append slot values in
    (values', HeaderMap.mk (put slot')).

(** [remove(&mut self, name)] *)
Definition remove (name : string) : St HeaderMap unit :=
  on_headers (CowHashMap.remove name) ;; st_ret tt.

(** [iter<'s>(&'s self)]: name and value borrowed from the map for ['s]. *)
Definition iter (s : Lft.lft) (self : HeaderMap) : list Cow.Header :=
  CowHashMap.iter (headers self) ≫= λ '(key, values),
    (λ val, Cow.new (Cow.Str s (Cow.deref key)) (Cow.Str s (Cow.deref val)))
      <$> values.

(** [into_iter(self)]: the key, cloned, with each of its values. *)
Definition into_iter (self : HeaderMap) : list Cow.Header :=
  CowHashMap.into_iter (headers self) ≫= λ '(name, value),
    (λ value, {| Cow.name := Cow.clone name; Cow.value := value |}) <$> value.

(** [into_iter_raw(self)] *)
Definition into_iter_raw (self : HeaderMap) :
    list (Cow.Cow * list Cow.Cow) :=
  CowHashMap.into_iter (headers self).

(** [remove_all(&mut self)] *)
Definition remove_all : St HeaderMap (list Cow.Header) :=
  let* old_map := mem_replace new in
  st_ret (into_iter old_map).

(** [impl PartialEq for Vec<Cow<str>>]: the same length, and the elements
    equal pairwise. *)
Definition vec_eqb (self other : list Cow.Cow) : bool :=
  bool_decide (length self = length other)
  && forallb (λ '(a, b), Cow.eqb a b) (zip self other).

(** [#[derive(PartialEq)]]: [==] of the hash maps, as the library computes
    it: the same number of entries, and every key of [self] has in [other] a
    vector equal to its own. *)
Definition eqb (self other : HeaderMap) : bool :=
  if decide (HashMap.len (headers self) ≠ HashMap.len (headers other))
  then false
  else forallb (λ '(key, values),
         from_option (vec_eqb values) false
           (CowHashMap.get (Cow.deref key) (headers other)))
       (CowHashMap.iter (headers self)).

(** ** Calls *)

(** A call of a method that changes the map, with its arguments. *)
Inductive call : Type :=
  | Add (header : Cow.Header)
  | Replace (header : Cow.Header)
  | ReplaceAll (name : Cow.Cow) (values : list Cow.Cow)
  | AddAll (name : Cow.Cow) (values : list Cow.Cow)
  | Remove (name : string)
  | RemoveAll.

(** The map after a call. *)
Definition run (c : call) (self : HeaderMap) : HeaderMap :=
  match c with
  | Add header => exec (add header) self
  | Replace header => exec (replace header) self
  | ReplaceAll name values => exec (replace_all name values) self
  | AddAll name values => exec (add_all name values) self
  | Remove name => exec (remove name) self
  | RemoveAll => exec remove_all self
  end.

Definition run_all (cs : list call) (self : HeaderMap) : HeaderMap :=
  foldl (λ self c, run c self) self cs.

(** The key a call names; [remove] names a text and [remove_all] none. *)
Definition key_of (c : call) : option Cow.Cow :=
  match c with
  | Add header | Replace header => Some (Cow.name header)
  | ReplaceAll name _ | AddAll name _ => Some name
  | Remove _ | RemoveAll => None
  end.

(** The values a call stores, given those the name has. *)
Definition values_of (c : call) (old : list Cow.Cow) : list Cow.Cow :=
  match c with
  | Add header => old ++ [Cow.value header]
  | Replace header => [Cow.value header]
  | ReplaceAll _ values => values
  | AddAll _ values => old ++ values
  | Remove _ | RemoveAll => []
  end.

(** The keys and values a call hands to the map. *)
Definition given (c : call) : list Cow.Cow :=
  match c with
  | Add header | Replace header => [Cow.name header; Cow.value header]
  | ReplaceAll name values | AddAll name values => name :: values
  | Remove _ | RemoveAll => []
  end.

(** The keys and values the map holds, entry by entry. *)
Definition stored (self : HeaderMap) : list Cow.Cow :=
  CowHashMap.iter (headers self) ≫= λ '(key, values), key :: values.

(** What a call makes of the entry of a name it works on: the key is the
    one the entry has, and the key of the call when there is no entry. *)
Definition effect (c : call) (entry : option (Cow.Cow * list Cow.Cow)) :
    option (Cow.Cow * list Cow.Cow) :=
  key ← key_of c;
  Some (from_option fst key entry, values_of c (from_option snd [] entry)).

(** The call with its arguments as text. *)
Definition erase_call (c : call) : Trace.call :=
  match c with
  | Add header => Trace.Add (Cow.erase header)
  | Replace header => Trace.Replace (Cow.erase header)
  | ReplaceAll name values =>
      Trace.ReplaceAll (Cow.deref name) (Cow.deref <$> values)
  | AddAll name values => Trace.AddAll (Cow.deref name) (Cow.deref <$> values)
  | Remove name => Trace.Remove name
  | RemoveAll => Trace.RemoveAll
  end.

(** ** Erasure and typing *)

(** The entry without the key, its values as text. *)
Definition erase_entry (entry : Cow.Cow * list Cow.Cow) : list string :=
  Cow.deref <$> entry.2.

(** What the map holds, as a state of the specification. *)
Definition contents (self : HeaderMap) : MultiMap.t :=
  erase_entry <$> HashMap.to_gmap (headers self).

(** [entry : (Cow<'h, str>, Vec<Cow<'h, str>>)], kept under the text [k]. *)
Definition entry_typed (h : Lft.lft) (k : string)
    (entry : Cow.Cow * list Cow.Cow) : Prop :=
  Cow.deref entry.1 = k
  ∧ Cow.has_lft h entry.1
  ∧ Forall (Cow.has_lft h) entry.2.

(** [self : HeaderMap<'h>]: every entry is kept under the text of its key,
    and borrows what it borrows for at least ['h]. *)
Definition typed (h : Lft.lft) (self : HeaderMap) : Prop :=
  ∀ k entry, HashMap.get k (headers self) = Some entry → entry_typed h k entry.

(** The bounds of the signatures of the methods that store text, on a
    [HeaderMap<'h>]. *)

(** [replace<'p: 'h, H: Into<Header<'p>>>] *)
Definition replace_typed (h : Lft.lft) (header : Cow.Header) : Prop :=
  Cow.Header_has_lft h header.

(** [replace_all<'n, 'v: 'h, H>(.., values: Vec<Cow<'v, str>>) where 'n: 'h] *)
Definition replace_all_typed (h : Lft.lft) (name : Cow.Cow)
    (values : list Cow.Cow) : Prop :=
  Cow.has_lft h name ∧ Forall (Cow.has_lft h) values.

(** [add<'p: 'h, H: Into<Header<'p>>>] *)
Definition add_typed (h : Lft.lft) (header : Cow.Header) : Prop :=
  Cow.Header_has_lft h header.

(** [add_all<'n, H>(.., values: &mut Vec<Cow<'h, str>>) where 'n: 'h] *)
Definition add_all_typed (h : Lft.lft) (name : Cow.Cow)
    (values : list Cow.Cow) : Prop :=
  Cow.has_lft h name ∧ Forall (Cow.has_lft h) values.

(** The arguments of a call have the lifetime its signature asks for. *)
Definition call_typed (h : Lft.lft) (c : call) : Prop :=
  match c with
  | Add header => add_typed h header
  | Replace header => replace_typed h header
  | ReplaceAll name values => replace_all_typed h name values
  | AddAll name values => add_all_typed h name values
  | Remove _ | RemoveAll => True
  end.

End methods.

#[global] Instance call_typed_dec h c : Decision (call_typed h c).
Proof.
  destruct c;
    rewrite /= /add_typed /replace_typed /replace_all_typed /add_all_typed;
    apply _.
Defined.

(** ** A call changes the entry of its name, and no other *)

Section entries.
Context {M : Type}.
Context {ops : HashMap.Ops string (Cow.Cow * list Cow.Cow) M}.
Context {laws : HashMap.Laws string (Cow.Cow * list Cow.Cow) M}.
Implicit Types (self : HeaderMap.HeaderMap M) (c : call) (k : string).
Implicit Types (entry : Cow.Cow * list Cow.Cow).

Local Abbreviation entry_of self k :=
  (HashMap.get k (HeaderMap.headers self)).

(** A new map has no entry: whatever is said of every entry holds of it. *)
Lemma new_entries (Q : string → Cow.Cow * list Cow.Cow → Prop) k entry :
  entry_of (new (M:=M)) k = Some entry → Q k entry.
Proof. by rewrite /new /= HashMap.get_new. Qed.

Lemma entry_insert_headers key values self k :
  entry_of (exec (HeaderMap.on_headers (CowHashMap.insert key values)) self) k
  = if decide (Cow.deref key = k)
    then Some (from_option fst key (entry_of self k), values)
    else entry_of self k.
Proof. by rewrite -CowHashMap.entry_insert. Qed.

Lemma entry_push key values self k :
  entry_of
    (HeaderMap.mk ((CowHashMap.entry_or_insert key [] (HeaderMap.headers self)).2
       ((CowHashMap.entry_or_insert key [] (HeaderMap.headers self)).1
          ++ values))) k
  = if decide (Cow.deref key = k)
    then Some (from_option fst key (entry_of self k),
               from_option snd [] (entry_of self k) ++ values)
    else entry_of self k.
Proof.
  rewrite /= CowHashMap.entry_put CowHashMap.entry_slot.
  by case_decide; subst.
Qed.

Lemma cow_entry_run c self k :
  entry_of (run c self) k
  = if decide (Trace.touches (erase_call c) k)
    then effect c (entry_of self k) else entry_of self k.
Proof.
  destruct c; rewrite /run /Trace.touches /effect /=.
  - rewrite -entry_push /add /exec.
    by destruct (CowHashMap.entry_or_insert _ _ _).
  - by rewrite -entry_insert_headers.
  - by rewrite -entry_insert_headers.
  - rewrite -entry_push /add_all /exec.
    by destruct (CowHashMap.entry_or_insert _ _ _).
  - rewrite -CowHashMap.entry_remove_text /remove /HeaderMap.on_headers /exec.
    rewrite /st_bind /=. by destruct (CowHashMap.remove _ _).
  - apply HashMap.get_new.
Qed.

End entries.

(** ** What holds of every entry *)

Section invariants.
Context {M : Type}.
Context {ops : HashMap.Ops string (Cow.Cow * list Cow.Cow) M}.
Context {laws : HashMap.Laws string (Cow.Cow * list Cow.Cow) M}.
Implicit Types (self : HeaderMap.HeaderMap M) (c : call) (k : string).
Implicit Types (entry : Cow.Cow * list Cow.Cow) (h : Lft.lft).

Local Abbreviation entry_of self k :=
  (HashMap.get k (HeaderMap.headers self)).

(** An entry is kept under the text of its key. *)
Definition keyed self : Prop :=
  ∀ k entry, entry_of self k = Some entry → Cow.deref entry.1 = k.

Lemma typed_keyed h self : typed h self → keyed self.
Proof. intros Ht k entry Hk. by destruct (Ht k entry Hk). Qed.

Lemma typed_new h : typed h (new (M:=M)).
Proof. exact (new_entries _). Qed.

Lemma keyed_new : keyed (new (M:=M)).
Proof. exact (new_entries _). Qed.

(** Every call keeps the entries under the text of their keys. *)
Lemma run_keyed c self : keyed self → keyed (run c self).
Proof.
  intros Hk k entry. rewrite cow_entry_run. case_decide as Ht; last by apply Hk.
  rewrite /effect. destruct (key_of c) as [key|] eqn:Hkey; simpl; last done.
  intros [= <-]. simpl. destruct (entry_of self k) as [entry0|] eqn:H0; simpl.
  - by apply Hk.
  - destruct c; simplify_eq/=; done.
Qed.

Lemma run_all_keyed cs self : keyed self → keyed (run_all cs self).
Proof.
  revert self. induction cs as [|c cs IH]=> self Hk; first done.
  by apply IH, run_keyed.
Qed.

(** *** The map holds what it is given

    A property [P] of keys and values that holds of the arguments of every
    call holds of every key and value of the map: a call stores its
    arguments as they are, and keeps of an entry what it does not replace. *)

Section every.
Context (P : Cow.Cow → Prop).

Definition every self : Prop :=
  ∀ k entry, entry_of self k = Some entry → Forall P (entry.1 :: entry.2).

Lemma every_new : every (new (M:=M)).
Proof. exact (new_entries _). Qed.

Lemma effect_every c (old : option (Cow.Cow * list Cow.Cow)) entry :
  (∀ entry0, old = Some entry0 → Forall P (entry0.1 :: entry0.2)) →
  Forall P (given c) → effect c old = Some entry →
  Forall P (entry.1 :: entry.2).
Proof.
  intros Hold Hc. rewrite /effect.
  destruct c as [[n v]|[n v]|n vs|n vs|?|]; simpl in *; try done;
    intros [= <-];
    (destruct old as [[key0 vs0]|]; [specialize (Hold _ eq_refl)|]);
    simpl in *;
    rewrite ?Forall_cons ?Forall_app ?Forall_singleton ?Forall_nil in Hc Hold |- *;
    tauto.
Qed.

Lemma run_every c self : Forall P (given c) → every self → every (run c self).
Proof.
  intros Hc He k entry. rewrite cow_entry_run. case_decide; last by apply He.
  by apply effect_every; [apply He|].
Qed.

Lemma run_all_every cs self :
  Forall P (cs ≫= given) → every self → every (run_all cs self).
Proof.
  revert self. induction cs as [|c cs IH]=> self; first done.
  rewrite bind_cons Forall_app. intros [Hc Hcs] He. by apply IH, run_every.
Qed.

Lemma every_stored self : every self ↔ Forall P (stored self).
Proof.
  rewrite /stored /CowHashMap.iter Forall_bind Forall_fmap Forall_forall. split.
  - intros He [k [key values]] Hin%HashMap.elem_of_iter. exact (He _ _ Hin).
  - intros Hs k [key values] Hin%HashMap.elem_of_iter. exact (Hs _ Hin).
Qed.

Lemma into_iter_every self :
  every self →
  Forall (λ header, P (Cow.name header) ∧ P (Cow.value header)) (into_iter self).
Proof.
  intros He. rewrite /into_iter /CowHashMap.into_iter list_fmap_bind.
  apply Forall_bind, Forall_forall.
  intros [k [key vs]] [Hkey Hvs]%HashMap.elem_of_into_iter%He%Forall_cons.
  apply Forall_fmap. rewrite Cow.clone_eq. by eapply Forall_impl.
Qed.

End every.

(** The typing of a map is that property of lifetimes, on a map that keeps
    its entries under the text of their keys. *)
Lemma typed_every h self :
  typed h self ↔ keyed self ∧ every (Cow.has_lft h) self.
Proof.
  rewrite /typed /entry_typed /keyed /every. setoid_rewrite Forall_cons. split.
  - intros Ht. split; intros k entry Hk; destruct (Ht k entry Hk); tauto.
  - intros [Hk He] k entry Hin. split; [exact (Hk _ _ Hin)|exact (He _ _ Hin)].
Qed.

Lemma call_typed_given h c :
  call_typed h c ↔ Forall (Cow.has_lft h) (given c).
Proof.
  destruct c;
    rewrite /call_typed /add_typed /replace_typed /replace_all_typed
      /add_all_typed /Cow.Header_has_lft /=;
    rewrite ?Forall_cons ?Forall_nil; tauto.
Qed.

Lemma run_typed h c self :
  call_typed h c → typed h self → typed h (run c self).
Proof.
  rewrite !typed_every call_typed_given. intros Hc [Hk He].
  split; [by apply run_keyed|by apply run_every].
Qed.

Lemma run_all_typed h cs self :
  Forall (call_typed h) cs → typed h self → typed h (run_all cs self).
Proof.
  intros Hcs. revert self. induction Hcs as [|c cs Hc _ IH]=> self Ht; first done.
  by apply IH, run_typed.
Qed.

(** What the map hands out. *)

Lemma into_iter_typed h self :
  typed h self → Forall (Cow.Header_has_lft h) (into_iter self).
Proof. intros [_ He]%typed_every. by apply into_iter_every. Qed.

Lemma iter_typed s self : Forall (Cow.Header_has_lft s) (iter s self).
Proof.
  rewrite /iter. apply Forall_bind, Forall_forall. intros [key vs] _.
  apply Forall_fmap, Forall_forall. intros val _.
  split; exact (reflexivity (R:=Lft.outlives) s).
Qed.

(** The lifetime ['s] of [iter], [get] and [get_one] is an argument of their
    definitions, and the bound ['h: 's] that [&'s self] puts on a
    [HeaderMap<'h>] is not part of them: it is a hypothesis where it is
    needed.  Under it, what [iter] hands out for ['s] is the text of a key
    and of a value the map holds, and holds for at least ['s]. *)
Lemma iter_borrows h s self header :
  typed h self → h ≽ s → header ∈ iter s self →
  ∃ key val,
    key ∈ stored self ∧ val ∈ stored self
    ∧ Cow.has_lft s key ∧ Cow.has_lft s val
    ∧ header = Cow.new (Cow.Str s (Cow.deref key)) (Cow.Str s (Cow.deref val)).
Proof.
  intros [_ He%every_stored]%typed_every Hs.
  rewrite /iter list_elem_of_bind. intros ([key values] & Hin & Hentry).
  apply list_elem_of_fmap in Hin as (val & -> & Hval).
  assert (key ∈ stored self ∧ val ∈ stored self) as [Hk Hv].
  { rewrite /stored !list_elem_of_bind.
    split; exists (key, values); (split; [by constructor|done]). }
  rewrite Forall_forall in He. exists key, val.
  split_and!; [done..| | |done]; by eapply Cow.has_lft_shorten, He.
Qed.

(** C36: [insert] and [entry] keep the key of an entry that exists: after a
    call on a name the map holds, the entry has the key it had, borrowed or
    owned as it was first given; on a name the map does not hold, it has the
    key of the call. *)
Theorem key_kept c key self :
  key_of c = Some key →
  fst <$> entry_of (run c self) (Cow.deref key)
  = Some (from_option fst key (entry_of self (Cow.deref key))).
Proof.
  intros Hkey. rewrite cow_entry_run /effect Hkey /= decide_True //.
  by destruct c; simplify_eq/=.
Qed.

(** C20: the map stores what it is given.  After any calls from
    [HeaderMap::new()], every key and value the map holds is an argument of
    one of the calls, the same [Cow] (borrowed for the same lifetime, or
    owned), and so are the name and the value of every header [into_iter]
    yields: the clone of a key is borrowed when the key is, for the same
    lifetime, and owned when the key is (that the clone of owned text is a
    second buffer is not seen in [Cow.clone]).  A map built from borrowed
    text alone therefore holds and yields borrowed text alone. *)
Theorem stored_given cs :
  let self := run_all cs (new (M:=M)) in
  stored self ⊆ cs ≫= given
  ∧ (∀ header, header ∈ into_iter self →
       Cow.name header ∈ cs ≫= given ∧ Cow.value header ∈ cs ≫= given)
  ∧ (Forall Cow.is_borrowed (cs ≫= given) →
       Forall Cow.is_borrowed (stored self)
       ∧ Forall (λ header, Cow.is_borrowed (Cow.name header)
                           ∧ Cow.is_borrowed (Cow.value header))
           (into_iter self)).
Proof.
  intros self.
  assert (∀ P, Forall P (cs ≫= given) → every P self) as He.
  { intros P HP. by apply run_all_every, every_new. }
  split_and!.
  - intros x. revert x. apply Forall_forall, every_stored, He.
    by apply Forall_forall.
  - intros header. revert header.
    apply Forall_forall, (into_iter_every (λ x : Cow.Cow, x ∈ cs ≫= given)), He.
    by apply Forall_forall.
  - intros Hcs%He. split; [by apply every_stored|exact (into_iter_every _ self Hcs)].
Qed.

(** [iter] borrows from the map whatever the map holds. *)
Lemma iter_borrowed s self :
  Forall (λ header, Cow.is_borrowed (Cow.name header)
                    ∧ Cow.is_borrowed (Cow.value header)) (iter s self).
Proof.
  rewrite /iter. apply Forall_bind, Forall_forall. intros [key vs] _.
  by apply Forall_fmap, Forall_forall.
Qed.

End invariants.

(** ** Erasure: the map over [Cow] implements the specification *)

Section erasure.
Context {M : Type}.
Context {ops : HashMap.Ops string (Cow.Cow * list Cow.Cow) M}.
Context {laws : HashMap.Laws string (Cow.Cow * list Cow.Cow) M}.
Implicit Types (self : HeaderMap.HeaderMap M) (c : call) (k : string).
Implicit Types (a s : Lft.lft).

Local Abbreviation entry_of self k :=
  (HashMap.get k (HeaderMap.headers self)).

Lemma cow_lookup_contents self k :
  contents self !! k = erase_entry <$> entry_of self k.
Proof. by rewrite /contents lookup_fmap HashMapFacts.lookup_to_gmap. Qed.

Lemma cow_contents_new : contents (new (M:=M)) = ∅.
Proof. by rewrite /contents /new /= HashMapFacts.to_gmap_new fmap_empty. Qed.

Lemma erase_effect c (old : option (Cow.Cow * list Cow.Cow)) :
  erase_entry <$> effect c old
  = Trace.effect (erase_call c) (erase_entry <$> old).
Proof.
  by destruct c, old as [[key vs]|]; rewrite /effect /erase_entry /= ?fmap_app.
Qed.

(** Each method is the step of the specification on the erased
    arguments. *)
Lemma run_erase c self :
  contents (run c self) = Trace.spec_step (erase_call c) (contents self).
Proof.
  apply map_eq=> k.
  rewrite Trace.lookup_spec_step !cow_lookup_contents cow_entry_run -erase_effect.
  by case_decide.
Qed.

Lemma run_all_erase cs self :
  contents (run_all cs self)
  = Trace.spec_steps (erase_call <$> cs) (contents self).
Proof.
  revert self. induction cs as [|c cs IH]=> self; first done.
  by rewrite /= IH run_erase.
Qed.

(** The queries, as observations of the contents. *)

Lemma map_to_list_contents self :
  map_to_list (contents self)
  ≡ₚ prod_map id erase_entry <$> HashMap.iter (HeaderMap.headers self).
Proof.
  by rewrite /contents map_to_list_fmap
    -(HashMapFacts.iter_to_gmap (HeaderMap.headers self)).
Qed.

Lemma get_erase a self k :
  Cow.str_text <$> get a self k = MultiMap.values (contents self) k.
Proof.
  rewrite /get /CowHashMap.get /MultiMap.values cow_lookup_contents.
  destruct (entry_of self k) as [[key vs]|]; simpl; last done.
  by rewrite app_nil_r -list_fmap_compose.
Qed.

Lemma get_one_erase a self k :
  Cow.str_text <$> get_one a self k
  = head (MultiMap.values (contents self) k).
Proof.
  rewrite /get_one /CowHashMap.get /MultiMap.values cow_lookup_contents.
  by destruct (entry_of self k) as [[key [|v vs]]|].
Qed.

Lemma contains_erase self k :
  contains self k = is_some (contents self !! k).
Proof.
  rewrite /contains /CowHashMap.get cow_lookup_contents.
  by destruct (entry_of self k).
Qed.

Lemma len_erase self : len self = MultiMap.count (contents self).
Proof.
  rewrite /len /MultiMap.count map_to_list_contents /CowHashMap.iter.
  rewrite list_fmap_bind. apply length_bind_ext, Forall_forall.
  intros [k [key vs]] _. by rewrite /erase_entry /= length_fmap.
Qed.

Lemma is_empty_erase self : is_empty self = bool_decide (contents self = ∅).
Proof.
  apply Bool.eq_true_iff_eq.
  rewrite bool_decide_eq_true /contents fmap_empty_iff.
  apply HashMapFacts.is_empty_to_gmap.
Qed.

Lemma eval_replace_erase (header : Cow.Header) self :
  eval (replace header) self = contains self (Cow.deref (Cow.name header)).
Proof.
  rewrite /replace /contains /CowHashMap.get /into /Header_into.
  rewrite /HeaderMap.on_headers /CowHashMap.insert /eval /st_bind /=.
  by destruct (HashMap.get _ _).
Qed.

Lemma iter_erase s self :
  keyed self →
  Cow.erase <$> iter s self ≡ₚ MultiMap.flatten (contents self).
Proof.
  intros Hk. rewrite /iter /MultiMap.flatten map_to_list_contents.
  rewrite /CowHashMap.iter list_fmap_bind.
  rewrite (fmap_bind_ext (prod_map id erase_entry) _
    (λ '(k, vs), Header.new k <$> vs)) //.
  apply Forall_forall. intros [k [key vs]] Hin%HashMap.elem_of_iter.
  rewrite /erase_entry /= -!list_fmap_compose. apply list_fmap_ext=> val /=.
  by rewrite -(Hk _ _ Hin).
Qed.

Lemma into_iter_erase self :
  keyed self →
  Cow.erase <$> into_iter self ≡ₚ MultiMap.flatten (contents self).
Proof.
  intros Hk. rewrite /into_iter /MultiMap.flatten map_to_list_contents.
  rewrite /CowHashMap.into_iter list_fmap_bind.
  rewrite -(HashMapFacts.into_iter_perm_iter (HeaderMap.headers self)).
  rewrite (fmap_bind_ext (prod_map id erase_entry) _
    (λ '(k, vs), Header.new k <$> vs)) //.
  apply Forall_forall. intros [k [key vs]] Hin%HashMap.elem_of_into_iter.
  rewrite /erase_entry /= -!list_fmap_compose. apply list_fmap_ext=> val /=.
  by rewrite /Cow.erase /= ?Cow.clone_eq (Hk _ _ Hin).
Qed.

(** The contents after each method, and what the queries return, in the
    form the examples of the documentation use them. *)

Lemma cow_contents_add {H : Type} `{!IntoHeader H} (header : H) self :
  contents (exec (add header) self)
  = MultiMap.add (Cow.erase (into header)) (contents self).
Proof. exact (run_erase (Add (into header)) self). Qed.

Lemma cow_contents_replace {H : Type} `{!IntoHeader H} (header : H) self :
  contents (exec (replace header) self)
  = MultiMap.replace (Cow.erase (into header)) (contents self).
Proof. exact (run_erase (Replace (into header)) self). Qed.

Lemma cow_contents_add_raw {N V : Type} `{!Cow.IntoCow N} `{!Cow.IntoCow V}
    (name : N) (value : V) self :
  contents (exec (add_raw name value) self)
  = MultiMap.add (Cow.erase (Cow.new name value)) (contents self).
Proof. exact (cow_contents_add (Cow.new name value) self). Qed.

Lemma cow_contents_replace_raw {N V : Type} `{!Cow.IntoCow N} `{!Cow.IntoCow V}
    (name : N) (value : V) self :
  contents (exec (replace_raw name value) self)
  = MultiMap.replace (Cow.erase (Cow.new name value)) (contents self).
Proof. exact (cow_contents_replace (Cow.new name value) self). Qed.

Lemma cow_contents_replace_all {H : Type} `{!Cow.IntoCow H} (name : H)
    (values : list Cow.Cow) self :
  contents (exec (replace_all name values) self)
  = MultiMap.replace_all (Cow.deref (Cow.into_cow name)) (Cow.deref <$> values)
      (contents self).
Proof. exact (run_erase (ReplaceAll (Cow.into_cow name) values) self). Qed.

Lemma cow_contents_add_all {H : Type} `{!Cow.IntoCow H} (name : H)
    (values : list Cow.Cow) self :
  contents (exec (add_all name values) self)
  = MultiMap.add_all (Cow.deref (Cow.into_cow name)) (Cow.deref <$> values)
      (contents self).
Proof. exact (run_erase (AddAll (Cow.into_cow name) values) self). Qed.

Lemma cow_eval_add_all {H : Type} `{!Cow.IntoCow H} (name : H)
    (values : list Cow.Cow) self :
  eval (add_all name values) self = [].
Proof. rewrite /add_all /eval. by destruct (CowHashMap.entry_or_insert _ _ _). Qed.

Lemma cow_contents_remove name self :
  contents (exec (remove name) self) = MultiMap.remove name (contents self).
Proof. exact (run_erase (Remove name) self). Qed.

Lemma cow_contents_remove_all self : contents (exec remove_all self) = ∅.
Proof. apply cow_contents_new. Qed.

Lemma length_get_erase a self k :
  length (get a self k) = length (MultiMap.values (contents self) k).
Proof. by rewrite -(get_erase a) length_fmap. Qed.

Lemma is_some_get_one_erase a self k :
  is_some (get_one a self k)
  = is_some (head (MultiMap.values (contents self) k)).
Proof. rewrite -(get_one_erase a). by destruct (get_one a self k). Qed.

(** The headers [remove_all] returns, as a [HashSet]: the derived [Hash] and
    [==] of a header see the text of its fields. *)
Lemma list_to_set_remove_all_erase self :
  keyed self →
  list_to_set (Cow.erase <$> eval remove_all self)
  =@{gset Header.Header} list_to_set (MultiMap.flatten (contents self)).
Proof. intros Hk. apply list_to_set_perm_L. by apply into_iter_erase. Qed.

End erasure.

(** The rewriting databases of the map over [Cow]: [cow_obs] turns the
    queries into observations of the contents and [cow_contents] the
    contents after a method into the step of the specification. *)
Create Rewrite HintDb cow_obs.
Create Rewrite HintDb cow_contents.
#[global] Hint Rewrite @get_erase @length_get_erase @get_one_erase
  @is_some_get_one_erase @contains_erase @len_erase @is_empty_erase
  @cow_eval_add_all : cow_obs.
#[global] Hint Rewrite @cow_contents_new @cow_contents_add
  @cow_contents_replace @cow_contents_add_raw @cow_contents_replace_raw
  @cow_contents_replace_all @cow_contents_add_all @cow_contents_remove
  @cow_contents_remove_all : cow_contents.

(** ** Equality *)

Section equality.
Context {M : Type}.
Context {ops : HashMap.Ops string (Cow.Cow * list Cow.Cow) M}.
Context {laws : HashMap.Laws string (Cow.Cow * list Cow.Cow) M}.
Implicit Types (self other : HeaderMap.HeaderMap M) (c : call) (k : string).
Implicit Types (a b : Lft.lft).

(** Two maps that hold the same text. *)
Definition eqv self other : Prop := contents self = contents other.

#[global] Instance eqv_equivalence : Equivalence eqv.
Proof. rewrite /eqv. split; [by intros ?|by intros ??|by intros ??? ->]. Qed.

Lemma vec_eqb_deref (values values' : list Cow.Cow) :
  vec_eqb values values' = true ↔ Cow.deref <$> values = Cow.deref <$> values'.
Proof.
  rewrite /vec_eqb andb_true_iff bool_decide_eq_true.
  revert values'. induction values as [|a values IH]; intros [|b values'];
    simpl; try (split; [by intros [? ?]|done]).
  rewrite andb_true_iff Cow.eqb_deref. split.
  - intros [[= Hlen] [-> Hall]]. f_equal. by apply IH.
  - intros [= -> Heq]. apply IH in Heq as [-> ?]. done.
Qed.

Lemma forallb_contents self other :
  keyed self →
  forallb (λ '(key, values),
    from_option (vec_eqb values) false
      (CowHashMap.get (Cow.deref key) (HeaderMap.headers other)))
    (CowHashMap.iter (HeaderMap.headers self)) = true
  ↔ contents self ⊆ contents other.
Proof.
  intros Hk. rewrite forallb_forall map_subseteq_spec. split.
  - intros Hall k vs. rewrite !cow_lookup_contents.
    destruct (HashMap.get k _) as [[key values]|] eqn:Hget; simpl; [|done].
    intros [= <-].
    assert ((key, values) ∈ CowHashMap.iter (HeaderMap.headers self)) as Hin.
    { apply list_elem_of_fmap. exists (k, (key, values)).
      by rewrite HashMap.elem_of_iter. }
    apply list_elem_of_In, Hall in Hin. rewrite (Hk _ _ Hget) in Hin.
    rewrite /CowHashMap.get in Hin.
    destruct (HashMap.get k (HeaderMap.headers other)) as [[key' values']|];
      simpl in *; [|done].
    apply vec_eqb_deref in Hin. by rewrite /erase_entry /= Hin.
  - intros Hsub [key values] Hin%list_elem_of_In.
    apply list_elem_of_fmap in Hin as ([k [key0 values0]] & [= <- <-] & Hin).
    apply HashMap.elem_of_iter in Hin. rewrite (Hk _ _ Hin).
    specialize (Hsub k (Cow.deref <$> values)).
    rewrite !cow_lookup_contents Hin /CowHashMap.get in Hsub |- *.
    destruct (HashMap.get k (HeaderMap.headers other)) as [[key' values']|];
      simpl in *; [|by specialize (Hsub eq_refl)].
    apply vec_eqb_deref. specialize (Hsub eq_refl).
    rewrite /erase_entry /= in Hsub. by simplify_eq.
Qed.

(** C35: the derived [==] compares text.  On a map whose entries are kept
    under the text of their keys, as the methods leave them, [self == other]
    holds exactly when the two maps hold the same names with the same
    values in the same order: whether a key or a value is borrowed or
    owned, and for how long, is not compared. *)
Theorem eqb_eqv self other :
  keyed self → eqb self other = true ↔ eqv self other.
Proof.
  intros Hk. rewrite /eqb /eqv !HashMapFacts.len_to_gmap.
  rewrite -!(map_size_fmap erase_entry) -/(contents self) -/(contents other).
  case_decide as Hlen.
  - split; first done. intros Heq. by rewrite Heq in Hlen.
  - rewrite forallb_contents //. split.
    + intros Hsub. apply map_subseteq_size_eq; [done|lia].
    + by intros ->.
Qed.

(** What the queries return, and what the calls leave, respects it. *)

Lemma get_eqv a b self other k :
  eqv self other →
  Cow.str_text <$> get a self k = Cow.str_text <$> get b other k.
Proof. intros Heq. by rewrite !get_erase Heq. Qed.

Lemma get_one_eqv a b self other k :
  eqv self other →
  Cow.str_text <$> get_one a self k = Cow.str_text <$> get_one b other k.
Proof. intros Heq. by rewrite !get_one_erase Heq. Qed.

#[global] Instance contains_proper :
  Proper (eqv ==> (=) ==> (=)) (contains (M:=M)).
Proof. intros s1 s2 Heq k ? <-. by rewrite !contains_erase Heq. Qed.

#[global] Instance len_proper : Proper (eqv ==> (=)) (len (M:=M)).
Proof. intros s1 s2 Heq. by rewrite !len_erase Heq. Qed.

#[global] Instance is_empty_proper : Proper (eqv ==> (=)) (is_empty (M:=M)).
Proof. intros s1 s2 Heq. by rewrite !is_empty_erase Heq. Qed.

#[global] Instance run_proper c : Proper (eqv ==> eqv) (run (M:=M) c).
Proof. intros s1 s2 Heq. by rewrite /eqv !run_erase Heq. Qed.

#[global] Instance run_all_proper cs : Proper (eqv ==> eqv) (run_all (M:=M) cs).
Proof. intros s1 s2 Heq. by rewrite /eqv !run_all_erase Heq. Qed.

(** Calls whose arguments have the same text leave maps that hold the same
    text. *)
Lemma run_erase_call c c' self other :
  erase_call c = erase_call c' → eqv self other → eqv (run c self) (run c' other).
Proof. rewrite /eqv !run_erase. by intros -> ->. Qed.

End equality.

(** ** The map over [Cow] and the map over text *)

Section simulation.
Context {M Mt : Type}.
Context {ops : HashMap.Ops string (Cow.Cow * list Cow.Cow) M}.
Context {laws : HashMap.Laws string (Cow.Cow * list Cow.Cow) M}.
Context {opst : HashMap.Ops string (list string) Mt}.
Context {lawst : HashMap.Laws string (list string) Mt}.
Implicit Types (self : HeaderMap.HeaderMap M) (text : HeaderMap.HeaderMap Mt).

(** The two maps hold the same text. *)
Definition erases_to self text : Prop :=
  contents self = HeaderMap.contents text.

Lemma erases_to_new : erases_to new HeaderMap.new.
Proof. by rewrite /erases_to cow_contents_new HeaderMap.contents_new. Qed.

Lemma erases_to_run c self text :
  erases_to self text → erases_to (run c self) (Trace.run (erase_call c) text).
Proof. rewrite /erases_to run_erase Trace.run_refines. by intros ->. Qed.

Lemma erases_to_run_all cs self text :
  erases_to self text →
  erases_to (run_all cs self) (Trace.run_all (erase_call <$> cs) text).
Proof.
  revert self text. induction cs as [|c cs IH]=> self text Hsim; first done.
  by apply IH, erases_to_run.
Qed.

Lemma erases_to_observations a self text :
  erases_to self text → keyed self →
  (∀ k, Cow.str_text <$> get a self k = HeaderMap.get text k)
  ∧ (∀ k, Cow.str_text <$> get_one a self k = HeaderMap.get_one text k)
  ∧ (∀ k, contains self k = HeaderMap.contains text k)
  ∧ len self = HeaderMap.len text
  ∧ is_empty self = HeaderMap.is_empty text
  ∧ Cow.erase <$> iter a self ≡ₚ HeaderMap.iter text
  ∧ Cow.erase <$> into_iter self ≡ₚ HeaderMap.into_iter text.
Proof.
  rewrite /erases_to=> Hsim Hk. split_and!.
  - intros k. by rewrite get_erase Hsim HeaderMap.get_contents.
  - intros k. by rewrite get_one_erase Hsim HeaderMap.get_one_contents.
  - intros k. by rewrite contains_erase Hsim HeaderMap.contains_contents.
  - by rewrite len_erase Hsim HeaderMap.len_contents.
  - by rewrite is_empty_erase Hsim HeaderMap.is_empty_contents_eq.
  - by rewrite iter_erase // Hsim HeaderMap.iter_contents.
  - by rewrite into_iter_erase // Hsim HeaderMap.into_iter_contents.
Qed.

(** C37: keeping the text alone loses nothing: after the same calls from
    [HeaderMap::new()], the map over [Cow] and the map over text of
    [HeaderMapModel] answer every query alike, and yield the same headers
    up to their order, once the [Cow]s are erased. *)
Theorem erase_sound a cs :
  let self := run_all cs (new (M:=M)) in
  let text := Trace.run_all (erase_call <$> cs) (HeaderMap.new (M:=Mt)) in
  (∀ k, Cow.str_text <$> get a self k = HeaderMap.get text k)
  ∧ (∀ k, Cow.str_text <$> get_one a self k = HeaderMap.get_one text k)
  ∧ (∀ k, contains self k = HeaderMap.contains text k)
  ∧ len self = HeaderMap.len text
  ∧ is_empty self = HeaderMap.is_empty text
  ∧ Cow.erase <$> iter a self ≡ₚ HeaderMap.iter text
  ∧ Cow.erase <$> into_iter self ≡ₚ HeaderMap.into_iter text.
Proof.
  apply erases_to_observations;
    [apply erases_to_run_all, erases_to_new|apply run_all_keyed, keyed_new].
Qed.

End simulation.

(** ** The theorems at a concrete map *)

Section witnesses.
Local Abbreviation M0 := (gmap string (Cow.Cow * list Cow.Cow)).

(** The lifetime of what borrows from the buffer of a request. *)
Definition request : Lft.lft := {[ 1%positive ]}.

(** A name from a literal with a value from the request, a second value
    under the same name given as owned text, and a replaced content type. *)
Definition calls : list call :=
  [ Add (Cow.new (Cow.Str Lft.static "X-Custom") (Cow.Str request "value_1"));
    Add (Cow.new "X-Custom" "value_2");
    Replace (Cow.new (Cow.Str request "Content-Type") "text/plain") ].

Definition borrowed : HeaderMap.HeaderMap M0 := run_all calls new.

Lemma calls_typed : Forall (call_typed request) calls.
Proof. apply (bool_decide_unpack (Forall (call_typed request) calls)). by vm_compute. Qed.

(** The calls have the lifetime of the request, and so has the map. *)
Example typed_borrowed : typed request borrowed.
Proof. apply run_all_typed; [apply calls_typed|apply typed_new]. Qed.

Lemma key_kept_witness :
  fst <$> HashMap.get "X-Custom"
            (HeaderMap.headers (run (Add (Cow.new "X-Custom" "value_3")) borrowed))
  = Some (Cow.Borrowed Lft.static "X-Custom").
Proof.
  exact (key_kept (Add (Cow.new "X-Custom" "value_3")) (Cow.Owned "X-Custom")
           borrowed eq_refl).
Defined.

(** The same calls with every text owned build a map that is [==] to the
    one that borrows. *)
Definition owned : HeaderMap.HeaderMap M0 :=
  run_all
    [ Add (Cow.new "X-Custom" "value_1"); Add (Cow.new "X-Custom" "value_2");
      Replace (Cow.new "Content-Type" "text/plain") ] new.

Lemma eqb_eqv_witness : eqb borrowed owned = true ↔ eqv borrowed owned.
Proof. exact (eqb_eqv borrowed owned (run_all_keyed calls new keyed_new)). Defined.

Example eqb_borrowed_owned :
  eqb borrowed owned = true ∧ borrowed ≠ owned.
Proof. split; [by vm_compute|]. by intros ?%(f_equal (λ m, HashMap.get "Content-Type" (HeaderMap.headers m))). Qed.

(** What the example holds: the name from the literal and the texts from
    the request as borrows, the two owned texts as they were given. *)
Example stored_borrowed :
  stored borrowed =
    [ Cow.Borrowed request "Content-Type"; Cow.Owned "text/plain";
      Cow.Borrowed Lft.static "X-Custom"; Cow.Borrowed request "value_1";
      Cow.Owned "value_2" ].
Proof. by vm_compute. Qed.

Lemma stored_given_witness : stored borrowed ⊆ calls ≫= given.
Proof. exact (proj1 (stored_given (M:=M0) calls)). Defined.

(** A typed header is converted into a name borrowed for ['static] and a
    value in a buffer of its own, the one [format!] returned. *)
Example from_owned {T : Type} `{!Header.HyperHeader T} (x : T) :
  Cow.is_borrowed (Cow.name (Cow.from x)) = true
  ∧ Cow.is_borrowed (Cow.value (Cow.from x)) = false.
Proof. done. Qed.

Lemma erase_sound_witness :
  Cow.str_text <$> get request borrowed "X-Custom" = ["value_1"; "value_2"]
  ∧ len borrowed = 3.
Proof.
  pose proof (erase_sound (M:=M0) (Mt:=gmap string (list string))
                request calls) as (Hget & _ & _ & Hlen & _).
  split; [exact (Hget "X-Custom")|exact Hlen].
Defined.

End witnesses.

End CowMap.
