(* ===== verification/HeaderMapAlgebra.v ===== *)
(** * Equality, bulk transfer and grouping of header maps

    Three things the owner of a header map relies on beyond the single
    methods:

    - [Algebra.eqb] is [==] on header maps as [#[derive(PartialEq)]] computes
      it, through [==] of the hash map; it decides [HeaderMap.eq], and holds
      exactly when the two maps answer [contains] and [get] alike;
    - a header map is handed over by draining it ([into_iter], [remove_all],
      [into_iter_raw]) and building a map from what comes out:
      [Algebra.extend] is the loop of [add] over a sequence of headers,
      [Algebra.collect] that loop from the empty map and [Algebra.from_raw]
      the loop of [replace_all] over raw entries.  The map built is the map
      drained;
    - the headers of a name come out of an iteration together, in the order
      they were added. *)

From S2P Require Import Prelude HashMapModel HashMapAList HeaderModel.
From S2P Require Import MultiMapSpec HeaderMapModel.
Set Warnings "-rewrite-rw".

Module Algebra.

Local Infix "≡ₕ" := HeaderMap.eq (at level 70, no associativity).

Section defs.
Context {M : Type} {ops : HashMap.Ops string (list string) M}.

(** [self == other], as [#[derive(PartialEq)]] computes it: [==] of the one
    field. *)
Definition eqb (self other : HeaderMap.HeaderMap M) : bool :=
  HashMap.eqb (HeaderMap.headers self) (HeaderMap.headers other).

(** [for header in headers { self.add(header) }] *)
Definition extend (headers : list Header.Header)
    (self : HeaderMap.HeaderMap M) : HeaderMap.HeaderMap M :=
  foldl (λ self header, exec (HeaderMap.add header) self) self headers.

(** The map built from a sequence of headers. *)
Definition collect (headers : list Header.Header) : HeaderMap.HeaderMap M :=
  extend headers HeaderMap.new.

(** [for value in values { self.add_raw(name, value) }] *)
Definition add_each (name : string) (values : list string)
    (self : HeaderMap.HeaderMap M) : HeaderMap.HeaderMap M :=
  foldl (λ self value, exec (HeaderMap.add_raw name value) self) self values.

(** The names of a map, in the order [iter] visits them. *)
Definition names (self : HeaderMap.HeaderMap M) : list string :=
  (HashMap.iter (HeaderMap.headers self)).*1.

(** The map built from raw entries:
    [for (name, values) in entries { map.replace_all(name, values) }]. *)
Definition from_raw (entries : list (string * list string)) :
    HeaderMap.HeaderMap M :=
  foldl (λ self '(name, values), exec (HeaderMap.replace_all name values) self)
    HeaderMap.new entries.

End defs.

Section theory.
Context {M : Type} {ops : HashMap.Ops string (list string) M}.
Context {laws : HashMap.Laws string (list string) M}.
Implicit Types (self other : HeaderMap.HeaderMap M) (name k : string).
Implicit Types (values : list string) (headers : list Header.Header).
Implicit Types (entries : list (string * list string)).

Local Abbreviation entry self k := (HashMap.get k (HeaderMap.headers self)).

(** The values of the headers of name [k], in their order. *)
Local Abbreviation values_of k headers :=
  (Header.value <$> filter (λ h, Header.name h = k) headers).

(** ** Equality *)

Lemma eq_observations self other :
  self ≡ₕ other
  ↔ ∀ k, HeaderMap.contains self k = HeaderMap.contains other k
         ∧ HeaderMap.get self k = HeaderMap.get other k.
Proof.
  split.
  - intros Heq k. by rewrite /HeaderMap.contains !HeaderMap.get_entry (Heq k).
  - intros Hobs k. destruct (Hobs k) as [Hc Hg].
    rewrite /HeaderMap.contains !HeaderMap.get_entry in Hc Hg.
    destruct (entry self k), (entry other k); simpl in *; congruence.
Qed.

#[global] Instance eq_dec self other : Decision (self ≡ₕ other).
Proof. rewrite /HeaderMap.eq. apply _. Defined.

(** C25: [==] on header maps holds exactly when the two maps contain the
    same names and [get] yields the same values for every name; the order in
    which the hash maps keep their entries does not matter. *)
Theorem eqb_spec self other :
  eqb self other = true
  ↔ ∀ k, HeaderMap.contains self k = HeaderMap.contains other k
         ∧ HeaderMap.get self k = HeaderMap.get other k.
Proof. by rewrite /eqb HashMapFacts.eqb_eq -eq_observations. Qed.

(** Under the invariant [get] alone tells two maps apart. *)
Lemma wf_eq_get self other :
  HeaderMap.wf self → HeaderMap.wf other →
  (∀ k, HeaderMap.get self k = HeaderMap.get other k) → self ≡ₕ other.
Proof.
  rewrite !HeaderMap.wf_entry=> Hs Ho Hget k.
  specialize (Hget k). rewrite !HeaderMap.get_entry in Hget.
  specialize (Hs k). specialize (Ho k).
  destruct (entry self k) as [vs|], (entry other k) as [vs'|]; simpl in *.
  - congruence.
  - by specialize (Hs _ eq_refl).
  - by specialize (Ho _ eq_refl).
  - done.
Qed.

(** ** A loop of [add] *)

Lemma extend_cons header headers self :
  extend (header :: headers) self
  = extend headers (exec (HeaderMap.add header) self).
Proof. done. Qed.

Lemma extend_app headers headers' self :
  extend (headers ++ headers') self = extend headers' (extend headers self).
Proof. apply foldl_app. Qed.

Lemma entry_extend headers self k :
  entry (extend headers self) k
  = if decide (values_of k headers = []) then entry self k
    else Some (default [] (entry self k) ++ values_of k headers).
Proof.
  revert self. induction headers as [|h headers IH]=> self; first done.
  rewrite extend_cons IH HeaderMap.entry_add filter_cons.
  change (Header.into h) with h.
  destruct (decide (Header.name h = k)) as [_|]; last done.
  rewrite fmap_cons.
  destruct (decide (Header.value h :: _ = [])) as [?|_]; first done.
  case_decide as Hnil; first by rewrite Hnil.
  by rewrite -assoc.
Qed.

Lemma get_extend headers self k :
  HeaderMap.get (extend headers self) k
  = HeaderMap.get self k ++ values_of k headers.
Proof.
  rewrite !HeaderMap.get_entry entry_extend.
  case_decide as Hnil; [by rewrite Hnil app_nil_r|done].
Qed.

Lemma wf_extend headers self :
  HeaderMap.wf self → HeaderMap.wf (extend headers self).
Proof.
  revert self. induction headers as [|h headers IH]=> self Hwf; first done.
  rewrite extend_cons. by apply IH, HeaderMap.wf_add.
Qed.

Lemma len_extend headers self :
  HeaderMap.len (extend headers self) = HeaderMap.len self + length headers.
Proof.
  revert self. induction headers as [|h headers IH]=> self /=; first lia.
  rewrite IH !HeaderMap.len_contents HeaderMap.contents_add.
  rewrite MultiMap.count_add. lia.
Qed.

Lemma add_all_add_each name values self :
  values ≠ [] ∨ HeaderMap.contains self name = true →
  exec (HeaderMap.add_all name values) self ≡ₕ add_each name values self.
Proof.
  intros Hguard k.
  assert (add_each name values self = extend (Header.new name <$> values) self)
    as -> by (rewrite /add_each /extend foldl_fmap //).
  rewrite HeaderMap.entry_add_all entry_extend. case_decide as Hk.
  - subst k. rewrite (filter_key_fmap_eq Header.name Header.new) //.
    rewrite -list_fmap_compose list_fmap_id.
    case_decide as Hnil; last done. rewrite Hnil app_nil_r.
    destruct Hguard as [?|Hc%HeaderMap.contains_entry]; first done.
    by destruct Hc as [vs ->].
  - by rewrite (filter_key_fmap_ne Header.name Header.new).
Qed.

(** C26: [add_all] does what a loop of [add_raw] over the values does
    exactly when there is a value to add or the name is present: with no
    value and an absent name, [add_all] stores the name and the loop does
    not. *)
Theorem add_all_adds name values self :
  values ≠ [] ∨ HeaderMap.contains self name = true
  ↔ exec (HeaderMap.add_all name values) self ≡ₕ add_each name values self.
Proof.
  split; first apply add_all_add_each.
  intros Heq. destruct values as [|value values]; [right|by left].
  specialize (Heq name). rewrite HeaderMap.entry_add_all decide_True // in Heq.
  apply HeaderMap.contains_entry. rewrite -Heq. by eexists.
Qed.

(** ** Handing a map over *)

Lemma get_collect_into_iter self k :
  HeaderMap.get (collect (M:=M) (HeaderMap.into_iter self)) k
  = HeaderMap.get self k.
Proof.
  rewrite /collect get_extend HeaderMap.get_new HeaderMap.filter_into_iter /=.
  by rewrite -list_fmap_compose list_fmap_id.
Qed.

Lemma collect_into_iter self :
  HeaderMap.wf self → collect (HeaderMap.into_iter self) ≡ₕ self.
Proof.
  intros Hwf.
  apply wf_eq_get; [apply wf_extend, HeaderMap.wf_new|done|].
  apply get_collect_into_iter.
Qed.

(** C27: the headers [remove_all] returns are the map: adding them one by
    one to an empty map builds a map equal to the one drained, when that one
    stores no name without a value. *)
Theorem collect_remove_all self :
  HeaderMap.wf self →
  collect (eval HeaderMap.remove_all self) ≡ₕ self.
Proof. intros Hwf. rewrite HeaderMap.eval_remove_all. by apply collect_into_iter. Qed.

Lemma entry_from_raw_gen entries self k :
  NoDup entries.*1 →
  entry (foldl (λ self '(name, values),
           exec (HeaderMap.replace_all name values) self) self entries) k
  = match list_find (λ e, e.1 = k) entries with
    | Some (_, (_, values)) => Some values
    | None => entry self k
    end.
Proof.
  revert self. induction entries as [|[name values] entries IH]=> self Hnd.
  { done. }
  apply NoDup_cons in Hnd as [Hname Hnd]. rewrite /= IH //.
  rewrite HeaderMap.entry_replace_all. case_decide as Hk; simpl.
  - subst k. destruct (list_find _ entries) as [[i [k' vs]]|] eqn:Hfind; last done.
    apply list_find_Some in Hfind as (Hin%list_elem_of_lookup_2 & Heq & _).
    simpl in Heq. subst k'. destruct Hname. apply list_elem_of_fmap.
    by exists (name, vs).
  - by destruct (list_find _ entries) as [[i [k' vs]]|].
Qed.

(** C28: the raw entries [into_iter_raw] yields are the map: storing each
    with [replace_all] in an empty map builds a map equal to the one
    drained. *)
Theorem from_raw_into_iter_raw self :
  from_raw (HeaderMap.into_iter_raw self) ≡ₕ self.
Proof.
  intros k. rewrite /from_raw /HeaderMap.into_iter_raw entry_from_raw_gen;
    last apply HashMap.NoDup_into_iter.
  rewrite HeaderMap.entry_new.
  destruct (list_find _ _) as [[i [k' vs]]|] eqn:Hfind.
  - apply list_find_Some in Hfind as (Hin%list_elem_of_lookup_2 & Heq & _).
    simpl in Heq. subst k'. by apply HashMap.elem_of_into_iter in Hin.
  - destruct (entry self k) as [vs|] eqn:Hk; last done.
    apply HashMap.elem_of_into_iter in Hk.
    eapply list_find_None, Forall_forall in Hfind; last done. done.
Qed.

(** ** The headers of a name come out together *)

Lemma bind_grouped self entries :
  (∀ k vs, (k, vs) ∈ entries → entry self k = Some vs) →
  entries ≫= (λ '(k, vs), Header.new k <$> vs)
  = entries.*1 ≫= λ k, Header.new k <$> HeaderMap.get self k.
Proof.
  intros Hin. rewrite list_fmap_bind. apply Forall_bind_ext, Forall_forall.
  intros [k vs] Hk%Hin. by rewrite /= HeaderMap.get_entry Hk.
Qed.

(** C29: [iter] yields the headers name by name: every name the map contains
    once, in an order of the hash map's choice, and under each name its
    values in the order [get] yields them. *)
Theorem iter_grouped self :
  NoDup (names self)
  ∧ (∀ k, k ∈ names self ↔ HeaderMap.contains self k = true)
  ∧ HeaderMap.iter self
    = names self ≫= λ k, Header.new k <$> HeaderMap.get self k.
Proof.
  split_and!.
  - apply HashMap.NoDup_iter.
  - intros k. rewrite HeaderMap.contains_entry list_elem_of_fmap. split.
    + intros [[k' vs] [-> Hin%HashMap.elem_of_iter]]. by exists vs.
    + intros [vs Hk%HashMap.elem_of_iter]. by exists (k, vs).
  - apply bind_grouped=> k vs. apply HashMap.elem_of_iter.
Qed.

Lemma into_iter_grouped self :
  HeaderMap.into_iter self
  = (HeaderMap.into_iter_raw self).*1
      ≫= λ k, Header.new k <$> HeaderMap.get self k.
Proof. apply bind_grouped=> k vs. apply HashMap.elem_of_into_iter. Qed.

End theory.

(** ** The theorems at concrete maps *)

Section witnesses.
Local Abbreviation M0 := (gmap string (list string)).
Local Abbreviation L0 := (list (string * list string)).

(** The same headers, stored in another order. *)
Definition custom_other : HeaderMap.HeaderMap M0 :=
  exec (HeaderMap.add_raw "X-Custom" "value_1" ;;
        HeaderMap.add_raw "X-Other" "other" ;;
        HeaderMap.add_raw "X-Custom" "value_2") HeaderMap.new.

Example eqb_custom : eqb HeaderMap.custom custom_other = true.
Proof. by vm_compute. Qed.

Lemma eqb_spec_witness :
  HeaderMap.contains HeaderMap.custom "X-Custom"
  = HeaderMap.contains custom_other "X-Custom"
  ∧ HeaderMap.get HeaderMap.custom "X-Custom"
    = HeaderMap.get custom_other "X-Custom".
Proof.
  apply (proj1 (eqb_spec HeaderMap.custom custom_other)). by vm_compute.
Defined.

Lemma add_all_adds_witness :
  exec (HeaderMap.add_all "X-Custom" ["value_3"; "value_4"]) HeaderMap.custom
  ≡ₕ add_each "X-Custom" ["value_3"; "value_4"] HeaderMap.custom.
Proof. apply add_all_adds. by left. Defined.

Lemma collect_remove_all_witness :
  collect (eval HeaderMap.remove_all HeaderMap.custom) ≡ₕ HeaderMap.custom.
Proof. apply collect_remove_all, HeaderMap.wf_custom. Defined.

Lemma from_raw_into_iter_raw_witness :
  from_raw (HeaderMap.into_iter_raw HeaderMap.custom) ≡ₕ HeaderMap.custom.
Proof. exact (from_raw_into_iter_raw HeaderMap.custom). Defined.

Lemma iter_grouped_witness :
  NoDup (names HeaderMap.custom)
  ∧ (∀ k, k ∈ names HeaderMap.custom
          ↔ HeaderMap.contains HeaderMap.custom k = true)
  ∧ HeaderMap.iter HeaderMap.custom
    = names HeaderMap.custom
        ≫= λ k, Header.new k <$> HeaderMap.get HeaderMap.custom k.
Proof. exact (iter_grouped HeaderMap.custom). Defined.

(** Without the invariant the headers do not tell the whole map: a name
    stored without a value is lost. *)
Example collect_loses_empty :
  let self : HeaderMap.HeaderMap M0 :=
    exec (HeaderMap.replace_all "X-Custom" []) HeaderMap.new in
  eqb (collect (HeaderMap.into_iter self)) self = false.
Proof. by vm_compute. Qed.

(** With no value to add and an absent name, [add_all] and the loop of
    [add_raw] differ. *)
Example add_all_nil_differs :
  eqb (exec (HeaderMap.add_all "X-Custom" []) (HeaderMap.new (M:=M0)))
      (add_each "X-Custom" [] HeaderMap.new) = false.
Proof. by vm_compute. Qed.

End witnesses.

End Algebra.
