(* ===== verification/HeaderWire.v ===== *)
(** * The headers of a message, written and read back

    A header map is drained by the layer that sends a message: it writes each
    header as [name: value] followed by the line terminator of the transport,
    one line per header, in the order the drain yields them.  That layer is
    not in [header.rs]; this file models it from its description, over the
    [Display] of [HeaderModel] and [remove_all] of [HeaderMapModel], to state
    what the two promise together: the text that is sent determines the map
    that was drained.

    [Wire.write_headers] is the writer, [Wire.send] the drain followed by
    the writer, [Wire.read_headers] a reader that splits the text at the
    terminators and each line at its first [": "], and [Wire.receive] the
    reader followed by the loop of [add] that rebuilds a map.  A header is
    [Wire.safe] when its name has no colon and neither its name nor its
    value has the first character of the terminator; [header.rs] validates
    neither, and the theorems say what that costs: safe headers are read back
    as they were written, and one that is not safe can be read as two.

    The reader takes fuel; above the length of the text the fuel does not
    matter ([read_headers_fuel]), so the reader ends on every text, with
    the headers or with the verdict that the text is not a sequence of
    header lines ([read_headers_ends]).

    [Wire.send_into] is the same layer over any writer.  Over a writer of
    fixed capacity ([Header.Bounded]) the section [bounded] shows, by the
    rule of composition of [Header.writes], that the writer succeeds exactly
    when the whole text fits and holds a proper part of it otherwise; in
    both cases the map has been drained ([send_into_Bounded]). *)

From Stdlib Require Import Ascii.
From S2P Require Import Prelude HashMapModel HeaderModel.
From S2P Require Import MultiMapSpec HeaderMapModel HeaderMapAlgebra.
Set Warnings "-rewrite-rw".

Local Infix "≡ₕ" := HeaderMap.eq (at level 70, no associativity).

Module Wire.

(** ** Text *)

(** The character [c] does not occur in [s]. *)
Fixpoint free_of (c : ascii) (s : string) : bool :=
  match s with
  | EmptyString => true
  | String a s' => negb (Ascii.eqb a c) && free_of c s'
  end.

(** [s.strip_prefix(prefix)] *)
Fixpoint strip_prefix (prefix s : string) : option string :=
  match prefix, s with
  | EmptyString, _ => Some s
  | String a prefix', String b s' =>
      if Ascii.eqb a b then strip_prefix prefix' s' else None
  | String _ _, EmptyString => None
  end.

(** [s.split_once(delimiter)]: the text before the first occurrence of the
    delimiter and the text after it. *)
Fixpoint split_once (delimiter s : string) : option (string * string) :=
  match strip_prefix delimiter s with
  | Some rest => Some (EmptyString, rest)
  | None =>
      match s with
      | EmptyString => None
      | String a s' => prod_map (String a) id <$> split_once delimiter s'
      end
  end.

(** ** Writing *)

Section write.
Context {W : Type} `{!Header.Write W} (terminator : string).

(** One line: the header, then the terminator. *)
Definition write_header (header : Header.Header) : St W Header.fmt_Result :=
  Header.and_then (Header.fmt header) (Header.write_str terminator).

(** The lines of the headers in the order given, up to the first write that
    fails. *)
Fixpoint write_headers (headers : list Header.Header) :
    St W Header.fmt_Result :=
  match headers with
  | [] => st_ret (Ok tt)
  | header :: headers' =>
      Header.and_then (write_header header) (write_headers headers')
  end.

End write.

(** The text of the headers: what [write_headers] writes into a [String]. *)
Definition to_text (terminator : string) (headers : list Header.Header) :
    string :=
  exec (write_headers terminator headers) "".

(** ** Reading *)

(** A line, split at its first [": "]. *)
Definition read_header (line : string) : option Header.Header :=
  '(name, value) ← split_once ": " line;
  Some (Header.new name value).

(** The lines of a text, each up to the next terminator, until the text
    ends; [None] when a line has no terminator or no [": "], and when the
    fuel, the number of lines that may be read and one more, runs out. *)
Fixpoint read_headers (terminator : string) (fuel : nat) (text : string) :
    option (list Header.Header) :=
  match fuel with
  | 0 => None
  | S fuel' =>
      match text with
      | EmptyString => Some []
      | String _ _ =>
          '(line, rest) ← split_once terminator text;
          header ← read_header line;
          cons header <$> read_headers terminator fuel' rest
      end
  end.

(** A header that is read as it is written, for a terminator that starts
    with [c]. *)
Definition safe (c : ascii) (header : Header.Header) : bool :=
  Header.no_colon (Header.name header)
  && free_of c (Header.name header)
  && free_of c (Header.value header).

(** ** A map, sent and received *)

Section map.
Context {M : Type} {ops : HashMap.Ops string (list string) M}.

(** The sender drains the map and writes what it held. *)
Definition send (terminator : string) : St (HeaderMap.HeaderMap M) string :=
  let* headers := HeaderMap.remove_all in
  st_ret (to_text terminator headers).

(** The sender, into a writer that can fail: the map is drained first, and
    what was written and whether it was all of it are returned. *)
Definition send_into {W : Type} `{!Header.Write W} (terminator : string)
    (w : W) : St (HeaderMap.HeaderMap M) (Header.fmt_Result * W) :=
  let* headers := HeaderMap.remove_all in
  st_ret (write_headers terminator headers w).

(** The receiver reads the headers and adds them to a new map. *)
Definition receive (terminator : string) (fuel : nat) (text : string) :
    option (HeaderMap.HeaderMap M) :=
  Algebra.collect <$> read_headers terminator fuel text.

End map.

(** [\r\n], the terminator of HTTP. *)
Definition CR : ascii := ascii_of_nat 13.
Definition CRLF : string := String CR (String (ascii_of_nat 10) "").

(** ** Splitting text where it was joined *)

Section text_facts.
Implicit Types (c a : ascii) (s t rest : string).

Lemma free_of_cons c a s :
  free_of c (String a s) = negb (Ascii.eqb a c) && free_of c s.
Proof. done. Qed.

Lemma free_of_app c s t : free_of c (s +:+ t) = free_of c s && free_of c t.
Proof.
  induction s as [|a s IH]; first done.
  by rewrite string_app_cons /= IH andb_assoc.
Qed.

Lemma no_colon_free_of s : Header.no_colon s = free_of ":" s.
Proof. induction s as [|a s IH]; [done|by rewrite /= IH]. Qed.

Lemma strip_prefix_app s rest : strip_prefix s (s +:+ rest) = Some rest.
Proof.
  induction s as [|a s IH]; first done.
  by rewrite string_app_cons /= Ascii.eqb_refl.
Qed.

Lemma split_once_eq s t :
  split_once s t
  = match strip_prefix s t with
    | Some rest => Some ("", rest)
    | None =>
        match t with
        | EmptyString => None
        | String a t' => prod_map (String a) id <$> split_once s t'
        end
    end.
Proof. by destruct t. Qed.

(** A text that does not have the first character of the delimiter is what
    comes before its first occurrence. *)
Lemma split_once_app c t s rest :
  free_of c s = true →
  split_once (String c t) (s +:+ String c t +:+ rest) = Some (s, rest).
Proof.
  induction s as [|a s IH]=> Hfree; rewrite split_once_eq.
  - by rewrite (strip_prefix_app (String c t) rest).
  - apply andb_true_iff in Hfree as [Ha Hfree%IH].
    rewrite string_app_cons /= Ascii.eqb_sym.
    destruct (Ascii.eqb a c); first done. by rewrite Hfree.
Qed.

(** What [split_once] returns, the delimiter between, is the text. *)
Lemma strip_prefix_Some s t rest : strip_prefix s t = Some rest → t = s +:+ rest.
Proof.
  revert t. induction s as [|a s IH]; intros [|b t]; simpl;
    [by intros [= <-]..|done|].
  destruct (Ascii.eqb_spec a b) as [->|]; [|done].
  intros ->%IH. by rewrite string_app_cons.
Qed.

Lemma split_once_Some s t before after :
  split_once s t = Some (before, after) → t = before +:+ s +:+ after.
Proof.
  revert before. induction t as [|a t IH]=> before; rewrite split_once_eq;
    (destruct (strip_prefix s _) eqn:Hs;
      [intros [= <- <-]; exact (strip_prefix_Some _ _ _ Hs)|]); first done.
  destruct (split_once s t) as [[before' after']|]; [|done].
  intros [= <- <-]. by rewrite (IH before') // string_app_cons.
Qed.

End text_facts.

(** ** The writer *)

Section write_facts.
Context (terminator : string).
Implicit Types (header : Header.Header) (headers : list Header.Header).
Implicit Types (buf : string).

Lemma write_header_String header buf :
  write_header terminator header buf
  = (Ok tt,
     buf +:+ Header.name header +:+ ": " +:+ Header.value header
       +:+ terminator).
Proof.
  rewrite /write_header /Header.and_then Header.fmt_String.
  by rewrite /Header.write_str /Header.String_write !string_app_assoc.
Qed.

(** Into a [String] the writer does not fail, and what it writes does not
    depend on what the buffer held. *)
Lemma write_headers_cons header headers buf :
  write_headers terminator (header :: headers) buf
  = write_headers terminator headers
      (buf +:+ Header.name header +:+ ": " +:+ Header.value header
         +:+ terminator).
Proof. by rewrite /= /Header.and_then write_header_String. Qed.

Lemma write_headers_String headers buf :
  write_headers terminator headers buf
  = (Ok tt, buf +:+ to_text terminator headers).
Proof.
  rewrite /to_text /exec. revert buf.
  induction headers as [|header headers IH]=> buf.
  { by rewrite /= /st_ret string_app_nil_r. }
  rewrite !write_headers_cons IH (IH ("" +:+ _)) /=.
  by rewrite !string_app_assoc string_app_nil_r.
Qed.

Lemma to_text_nil : to_text terminator [] = "".
Proof. done. Qed.

Lemma to_text_cons header headers :
  to_text terminator (header :: headers)
  = (Header.name header +:+ ": " +:+ Header.value header)
      +:+ terminator +:+ to_text terminator headers.
Proof.
  rewrite {1}/to_text /exec write_headers_cons write_headers_String.
  by rewrite /= !string_app_assoc.
Qed.

Lemma to_text_app headers headers' :
  to_text terminator (headers ++ headers')
  = to_text terminator headers +:+ to_text terminator headers'.
Proof.
  induction headers as [|header headers IH]; first done.
  by rewrite /= !to_text_cons IH !string_app_assoc.
Qed.

End write_facts.

(** What the reader accepts is what the writer writes: a text that is read
    as some headers is the text of these headers. *)
Lemma read_header_Some line header :
  read_header line = Some header →
  line = Header.name header +:+ ": " +:+ Header.value header.
Proof.
  rewrite /read_header.
  destruct (split_once ": " line) as [[name value]|] eqn:Hline; [|done].
  intros [= <-]. by apply split_once_Some.
Qed.

Lemma to_text_read terminator fuel text headers :
  read_headers terminator fuel text = Some headers →
  to_text terminator headers = text.
Proof.
  revert text headers. induction fuel as [|fuel IH]=> text headers; first done.
  destruct text as [|a text]; first by intros [= <-].
  cbn [read_headers].
  destruct (split_once _ _) as [[line rest]|] eqn:Hsplit; [|done].
  apply split_once_Some in Hsplit as ->. simpl.
  destruct (read_header line) as [header|] eqn:Hline; [|done].
  destruct (read_headers _ _ rest) as [headers'|] eqn:Hrest; [|done].
  intros [= <-].
  by rewrite to_text_cons (IH _ _ Hrest) -(read_header_Some _ _ Hline).
Qed.

(** ** The reader ends

    The reader takes fuel, the number of lines it may read and one more.  A
    line it takes leaves a shorter text, so fuel above the length of the
    text is never used up: there the reader is a function of the text
    alone, and [None] means that the text is not a sequence of header
    lines. *)

Section fuel.
Context (c : ascii) (t : string).
Implicit Types (fuel : nat) (text line rest : string).

Lemma split_once_shorter text line rest :
  split_once (String c t) text = Some (line, rest) →
  String.length rest < String.length text.
Proof. intros ->%split_once_Some. rewrite !string_app_length /=. lia. Qed.

(** What the reader returns, it returns with any more fuel. *)
Lemma read_headers_more terminator fuel fuel' text headers :
  read_headers terminator fuel text = Some headers → fuel ≤ fuel' →
  read_headers terminator fuel' text = Some headers.
Proof.
  revert fuel' text headers.
  induction fuel as [|fuel IH]=> fuel' text headers; first done.
  destruct fuel' as [|fuel']; first lia. intros Hread Hle.
  destruct text as [|a text]; first done. cbn [read_headers] in Hread |- *.
  destruct (split_once _ _) as [[line rest]|]; [|done]. simpl in *.
  destruct (read_header line) as [header|]; [|done]. simpl in *.
  destruct (read_headers _ fuel rest) as [headers'|] eqn:Hrest; [|done].
  rewrite (IH fuel' rest headers') //. lia.
Qed.

(** Above the length of the text the fuel does not matter. *)
Lemma read_headers_fuel fuel fuel' text :
  String.length text < fuel → String.length text < fuel' →
  read_headers (String c t) fuel text = read_headers (String c t) fuel' text.
Proof.
  revert fuel' text. induction fuel as [|fuel IH]=> fuel' text Hf Hf'; first lia.
  destruct fuel' as [|fuel']; first lia.
  destruct text as [|a text]; first done. cbn [read_headers].
  destruct (split_once _ _) as [[line rest]|] eqn:Hsplit; [|done].
  apply split_once_shorter in Hsplit. simpl in *.
  by rewrite (IH fuel' rest); [|lia..].
Qed.

(** So the reader ends on every text: with fuel above its length, either it
    returns the headers, and does with any more fuel, or no fuel makes it
    return. *)
Lemma read_headers_ends fuel text :
  String.length text < fuel →
  match read_headers (String c t) fuel text with
  | Some headers =>
      ∀ fuel', fuel ≤ fuel' →
        read_headers (String c t) fuel' text = Some headers
  | None => ∀ fuel', read_headers (String c t) fuel' text = None
  end.
Proof.
  intros Hfuel. destruct (read_headers _ fuel text) as [headers|] eqn:Hread.
  - intros fuel' Hle. by apply (read_headers_more _ fuel).
  - intros fuel'.
    destruct (read_headers _ fuel' text) as [headers|] eqn:Hread'; [|done].
    apply (read_headers_more _ _ (fuel `max` fuel')) in Hread'; [|lia].
    rewrite -(read_headers_fuel fuel) in Hread'; [congruence|lia..].
Qed.

End fuel.

(** ** Into a buffer that is too small *)

Section bounded.
Context (terminator : string).
Implicit Types (header : Header.Header) (headers : list Header.Header).

Lemma write_header_writes header :
  Header.writes (write_header terminator header)
    ((Header.name header +:+ ": " +:+ Header.value header) +:+ terminator).
Proof.
  apply Header.writes_and_then;
    [apply Header.fmt_writes|apply Header.writes_write_str].
Qed.

Lemma write_headers_writes headers :
  Header.writes (write_headers terminator headers) (to_text terminator headers).
Proof.
  induction headers as [|header headers IH]; first apply Header.writes_ret.
  rewrite to_text_cons string_app_assoc.
  by apply Header.writes_and_then; [apply write_header_writes|].
Qed.

(** Into an empty buffer of a given capacity the headers are written exactly
    when their text fits; the buffer then holds the text, and otherwise a
    part of it short of its end: the lines and pieces written before the
    piece that did not fit. *)
Lemma write_headers_Bounded capacity headers :
  let text := to_text terminator headers in
  let r := eval (write_headers terminator headers)
             (Header.mk_bounded capacity "") in
  let w := exec (write_headers terminator headers)
             (Header.mk_bounded capacity "") in
  (is_ok r = true ↔ String.length text ≤ capacity)
  ∧ (is_ok r = true → Header.written w = text)
  ∧ (is_ok r = false →
     ∃ rest, text = Header.written w +:+ rest ∧ rest ≠ "").
Proof.
  intros text r w.
  assert (Header.within (Header.mk_bounded capacity "")) as Hw
    by (rewrite /Header.within /=; lia).
  destruct (write_headers_writes headers _ Hw) as (_ & _ & Hok & rest & Heq & Hrest).
  split_and!; first done.
  - intros Hr. by rewrite -/w Hrest // string_app_nil_r in Heq.
  - intros Hr. exists rest. split; first done.
    by apply (Header.writes_Err _ _ _ _ (write_headers_writes headers) Hw).
Qed.

End bounded.

(** ** The reader *)

Section read_facts.
Context (c : ascii) (t : string).
Context (c_colon : c ≠ ":"%char) (c_space : c ≠ " "%char).
Local Abbreviation terminator := (String c t).
Implicit Types (header : Header.Header) (headers : list Header.Header).
Implicit Types (fuel : nat).

Lemma read_header_safe header :
  Header.no_colon (Header.name header) = true →
  read_header (Header.name header +:+ ": " +:+ Header.value header)
  = Some header.
Proof.
  intros Hname. rewrite /read_header split_once_app /=.
  - by destruct header.
  - by rewrite -no_colon_free_of.
Qed.

Lemma free_of_line header :
  safe c header = true →
  free_of c (Header.name header +:+ ": " +:+ Header.value header) = true.
Proof.
  rewrite /safe !andb_true_iff=> -[[_ Hname] Hvalue].
  rewrite !free_of_app Hname Hvalue !free_of_cons.
  destruct (Ascii.eqb_spec ":" c); first congruence.
  by destruct (Ascii.eqb_spec " " c); first congruence.
Qed.

(** The reader takes the text up to the first terminator as a line. *)
Lemma read_headers_line fuel line rest :
  free_of c line = true →
  read_headers terminator (S fuel) (line +:+ terminator +:+ rest)
  = read_header line ≫= λ header,
      cons header <$> read_headers terminator fuel rest.
Proof.
  intros Hfree.
  assert (∃ a text, line +:+ terminator +:+ rest = String a text)
    as (a & text & Htext) by (destruct line; simpl; eauto).
  cbn [read_headers]. by rewrite Htext -Htext split_once_app.
Qed.

Lemma read_headers_cons fuel header headers :
  safe c header = true →
  read_headers terminator (S fuel) (to_text terminator (header :: headers))
  = cons header <$> read_headers terminator fuel (to_text terminator headers).
Proof.
  intros Hsafe.
  rewrite to_text_cons read_headers_line; last by apply free_of_line.
  rewrite read_header_safe //.
  rewrite /safe !andb_true_iff in Hsafe. apply Hsafe.
Qed.

(** The text of safe headers is read as the headers, by a reader that may
    read one line more than there are. *)
Lemma read_to_text fuel headers :
  forallb (safe c) headers = true →
  length headers < fuel →
  read_headers terminator fuel (to_text terminator headers) = Some headers.
Proof.
  revert fuel. induction headers as [|header headers IH]=> fuel Hsafe Hfuel;
    destruct fuel as [|fuel]; try (simpl in Hfuel; lia); first done.
  apply andb_true_iff in Hsafe as [Hheader Hsafe].
  rewrite read_headers_cons // IH //. simpl in Hfuel. lia.
Qed.

(** Without fuel for the last line the reader does not return. *)
Lemma read_out_of_fuel fuel headers :
  forallb (safe c) headers = true →
  fuel ≤ length headers →
  read_headers terminator fuel (to_text terminator headers) = None.
Proof.
  revert fuel. induction headers as [|header headers IH]=> fuel Hsafe Hfuel;
    destruct fuel as [|fuel]; try (simpl in Hfuel; lia); try done.
  apply andb_true_iff in Hsafe as [Hheader Hsafe].
  rewrite read_headers_cons // IH //. simpl in Hfuel. lia.
Qed.

(** The text of safe headers determines them. *)
Lemma to_text_inj headers headers' :
  forallb (safe c) headers = true → forallb (safe c) headers' = true →
  to_text terminator headers = to_text terminator headers' →
  headers = headers'.
Proof.
  intros Hsafe Hsafe' Htext.
  pose proof (read_to_text (S (length headers + length headers')) headers
                Hsafe ltac:(lia)) as Hread.
  rewrite Htext read_to_text // in Hread; [by simplify_eq|lia].
Qed.

End read_facts.

(** ** A map, sent and received *)

Section map_facts.
Context {M : Type} {ops : HashMap.Ops string (list string) M}.
Context {laws : HashMap.Laws string (list string) M}.
Context (c : ascii) (t : string).
Context (c_colon : c ≠ ":"%char) (c_space : c ≠ " "%char).
Local Abbreviation terminator := (String c t).
Implicit Types (self : HeaderMap.HeaderMap M) (fuel : nat).

Lemma eval_send self :
  eval (send terminator) self = to_text terminator (HeaderMap.into_iter self).
Proof. done. Qed.

Lemma exec_send self : exec (send terminator) self = HeaderMap.new.
Proof. done. Qed.

(** The map is drained before anything is written: when the writer fails,
    the map is empty all the same, and the headers that were not written are
    lost. *)
Lemma send_into_Bounded capacity self :
  let sent := eval (send_into terminator (Header.mk_bounded capacity "")) self in
  exec (send_into terminator (Header.mk_bounded capacity "")) self
  = HeaderMap.new
  ∧ (is_ok sent.1 = true
     ↔ String.length (eval (send terminator) self) ≤ capacity)
  ∧ (is_ok sent.1 = true → Header.written sent.2 = eval (send terminator) self).
Proof.
  destruct (write_headers_Bounded terminator capacity (HeaderMap.into_iter self))
    as (Hok & Htext & _).
  by split_and!.
Qed.

(** C12: the map that was sent is the map that is received, for a line
    terminator whose first character [c] is neither a colon nor a space.
    The sender drains a map that stores no name without a value and whose
    headers are safe (no colon in a name, [c] in no name and no value),
    writes one line per header and leaves the map empty; the receiver,
    allowed to read a line more than there were values, reads the text back
    and builds a map equal to the one drained. *)
Theorem receive_send fuel self :
  HeaderMap.wf self →
  forallb (safe c) (HeaderMap.into_iter self) = true →
  HeaderMap.len self < fuel →
  ∃ other : HeaderMap.HeaderMap M,
    receive terminator fuel (eval (send terminator) self) = Some other
    ∧ other ≡ₕ self
    ∧ HeaderMap.is_empty (exec (send terminator) self) = true.
Proof.
  intros Hwf Hsafe Hfuel. exists (Algebra.collect (HeaderMap.into_iter self)).
  split_and!.
  - rewrite /receive eval_send read_to_text //.
    by rewrite -HeaderMap.len_into_iter.
  - by apply Algebra.collect_into_iter.
  - rewrite exec_send. apply HeaderMap.is_empty_new.
Qed.

End map_facts.

(** ** At concrete maps *)

Section witnesses.
Local Abbreviation M0 := (gmap string (list string)).

Lemma CR_colon : CR ≠ ":"%char.
Proof. done. Qed.

Lemma CR_space : CR ≠ " "%char.
Proof. done. Qed.

Lemma receive_send_witness :
  ∃ other : HeaderMap.HeaderMap M0,
    receive CRLF 4 (eval (send CRLF) HeaderMap.custom) = Some other
    ∧ other ≡ₕ HeaderMap.custom
    ∧ HeaderMap.is_empty (exec (send CRLF) HeaderMap.custom) = true.
Proof.
  apply (receive_send CR _ CR_colon CR_space 4 HeaderMap.custom
           HeaderMap.wf_custom); [by vm_compute|vm_compute; lia].
Defined.

(** A line that is not terminated is not read, whatever the fuel. *)
Example read_unterminated fuel :
  read_headers CRLF fuel "X-Custom: value_1" = None.
Proof.
  assert (String.length "X-Custom: value_1" < 18) as Hlen by (simpl; lia).
  exact (read_headers_ends CR _ 18 _ Hlen fuel).
Qed.

(** The example of [remove]'s map, on the wire. *)
Example to_text_typed :
  to_text CRLF (HeaderMap.into_iter HeaderMap.typed)
  = "Content-Type: application/json" +:+ CRLF.
Proof. by vm_compute. Qed.

(** The three headers of the example take 54 characters; a buffer for 40
    does not take them all, and the map is empty all the same. *)
Example send_into_short :
  let sent := eval (send_into CRLF (Header.mk_bounded 40 "")) HeaderMap.custom in
  String.length (eval (send CRLF) HeaderMap.custom) = 54
  ∧ is_ok sent.1 = false
  ∧ (String.length (Header.written sent.2) <? 54) = true
  ∧ HeaderMap.is_empty
      (exec (send_into CRLF (Header.mk_bounded 40 "")) HeaderMap.custom) = true.
Proof. by vm_compute. Qed.

(** Neither names nor values are validated: a value that holds a
    terminator is read as two headers. *)
Example read_split :
  let header := Header.new "X-Custom" ("a" +:+ CRLF +:+ "Set-Cookie: b") in
  safe CR header = false
  ∧ read_headers CRLF 3 (to_text CRLF [header])
    = Some [Header.new "X-Custom" "a"; Header.new "Set-Cookie" "b"].
Proof. by vm_compute. Qed.

End witnesses.

End Wire.
