(* ===== verification/HeaderWireCow.v ===== *)
(** * Headers received without a copy

    The receiver of [HeaderWire] builds a map over text.  The map of the
    source keeps [Cow]s so that a receiver can give it slices of the buffer
    the message arrived in: [str::split_once] returns two [&str] that borrow
    from the text it splits, and [Header::new] of two [&str] has two
    [Borrowed] fields.

    This file puts the reader of [HeaderWire] in front of the map of
    [HeaderMapCow], the headers borrowed from a buffer that lives for ['a]
    ([WireCow.borrow], [WireCow.receive]).  The receiver is not code of the
    source, which has no parser; it is the use the map is made for, written
    down to see what the lemmas of the map give for it: the map that is
    built is a [HeaderMap<'a>], holds nothing but borrows of the buffer, and
    holds the text the receiver over text holds
    ([WireCow.receive_borrows]). *)

From Stdlib Require Import Ascii.
From S2P Require Import Prelude HashMapModel HeaderModel HeaderCow.
From S2P Require Import MultiMapSpec HeaderMapModel HeaderMapTrace HeaderMapCow.
From S2P Require Import HeaderMapAlgebra HeaderWire.
Set Warnings "-rewrite-rw".

Module WireCow.

(** [Header::new(name, value)] of two [&'a str]: a header whose name and
    value are slices of a buffer that lives for ['a]. *)
Definition borrow (a : Lft.lft) (header : Header.Header) : Cow.Header :=
  Cow.new (Cow.Str a (Header.name header)) (Cow.Str a (Header.value header)).

Section receive.
Context {M : Type} {ops : HashMap.Ops string (Cow.Cow * list Cow.Cow) M}.

(** The receiver reads the headers and adds them, as they borrow from the
    text, to a new map. *)
Definition receive (a : Lft.lft) (terminator : string) (fuel : nat)
    (text : string) : option (HeaderMap.HeaderMap M) :=
  (λ headers, CowMap.run_all (CowMap.Add ∘ borrow a <$> headers) CowMap.new)
    <$> Wire.read_headers terminator fuel text.

End receive.

(** ** The calls of the receiver *)

Section adds.
Implicit Types (a : Lft.lft) (header : Header.Header).
Implicit Types (headers : list Header.Header).

Local Abbreviation adds a headers := (CowMap.Add ∘ borrow a <$> headers).

Lemma erase_borrow a header : Cow.erase (borrow a header) = header.
Proof. by destruct header. Qed.

Lemma erase_adds a headers :
  CowMap.erase_call <$> adds a headers = Trace.Add <$> headers.
Proof.
  rewrite -list_fmap_compose. apply list_fmap_ext=> i header _ /=.
  by rewrite erase_borrow.
Qed.

Lemma adds_typed a headers : Forall (CowMap.call_typed a) (adds a headers).
Proof.
  apply Forall_fmap, Forall_forall. intros header _.
  split; exact (reflexivity (R:=Lft.outlives) a).
Qed.

Lemma adds_borrowed a headers :
  Forall Cow.is_borrowed (adds a headers ≫= CowMap.given).
Proof.
  apply Forall_bind, Forall_fmap, Forall_forall. intros header _.
  by repeat constructor.
Qed.

End adds.

(** ** What the receiver builds *)

Section facts.
Context {M : Type} {ops : HashMap.Ops string (Cow.Cow * list Cow.Cow) M}.
Context {laws : HashMap.Laws string (Cow.Cow * list Cow.Cow) M}.
Context {Mt : Type} {ops_t : HashMap.Ops string (list string) Mt}.
Context {laws_t : HashMap.Laws string (list string) Mt}.
Implicit Types (a : Lft.lft) (fuel : nat) (text : string).
Implicit Types (headers : list Header.Header).

(** The loop of [add] of the receiver over text, as a sequence of calls. *)
Lemma run_all_adds_extend headers (self : HeaderMap.HeaderMap Mt) :
  Trace.run_all (Trace.Add <$> headers) self = Algebra.extend headers self.
Proof.
  revert self. induction headers as [|header headers IH]=> self; first done.
  by rewrite fmap_cons Trace.run_all_cons IH.
Qed.

(** What the text reads as, the receiver builds a map of: a [HeaderMap<'a>]
    for the lifetime ['a] of the text, whose keys and values all borrow,
    and which holds the text the map of the receiver over text holds. *)
Theorem receive_borrows a terminator fuel text headers :
  Wire.read_headers terminator fuel text = Some headers →
  ∃ self : HeaderMap.HeaderMap M,
    receive a terminator fuel text = Some self
    ∧ CowMap.typed a self
    ∧ Forall Cow.is_borrowed (CowMap.stored self)
    ∧ CowMap.erases_to self (Algebra.collect (M:=Mt) headers).
Proof.
  intros Hread. rewrite /receive Hread /=. eexists. split_and!; first done.
  - apply CowMap.run_all_typed; [apply adds_typed|apply CowMap.typed_new].
  - apply CowMap.every_stored, CowMap.run_all_every;
      [apply adds_borrowed|apply CowMap.every_new].
  - rewrite /Algebra.collect -run_all_adds_extend -(erase_adds a).
    apply CowMap.erases_to_run_all, CowMap.erases_to_new.
Qed.

End facts.

(** ** At a concrete message *)

Section witnesses.
Local Abbreviation M0 := (gmap string (Cow.Cow * list Cow.Cow)).

(** The message of the example of [remove], as it arrives; what the
    receiver holds are slices of it. *)
Example receive_custom :
  CowMap.stored
    <$> receive (M:=M0) CowMap.request Wire.CRLF 4
          (eval (Wire.send Wire.CRLF) HeaderMap.custom)
  = Some [ Cow.Borrowed CowMap.request "X-Other";
           Cow.Borrowed CowMap.request "other";
           Cow.Borrowed CowMap.request "X-Custom";
           Cow.Borrowed CowMap.request "value_1";
           Cow.Borrowed CowMap.request "value_2" ].
Proof. by vm_compute. Qed.

End witnesses.

End WireCow.
