(* ===== verification/HeaderIter.v ===== *)
(** * The iterators of a header map, one [next] at a time

    [get], [iter] and [into_iter] return iterators, and [len] and
    [remove_all] consume one: each is a [flat_map] over an iterator of the
    hash map.  [HeaderMapModel] takes an iterator to be the list of what it
    yields.  This file runs them: [Iter.FlatMap] is the state of the adapter,
    [Iter.next] its step, which skips the names without a value, and
    [Iter.collect] and [Iter.count] are the loops of [Iterator::collect] and
    [Iterator::count], which call [next] until it returns [None].

    The loops take fuel, the number of calls of [next] they may make.  An
    iterator that has [n] items left needs [n + 1] calls, the last of which
    returns [None]; with that much fuel the loops return what the list
    models and the specification say ([Iter.collect_contents],
    [Iter.len_enough]), and with less they do not return.

    [Iter.nexts] is the iterator after a number of calls of [next] and
    [Iter.eventually] what some call reaches: the call after [n] others
    yields the item [n] of what was left ([Iter.eval_nexts]), so every value
    of the map is yielded by some call and some call returns [None], after
    which all do ([Iter.iter_live]). *)

From S2P Require Import Prelude HashMapModel HashMapAList HeaderModel.
From S2P Require Import MultiMapSpec HeaderMapModel.
Set Warnings "-rewrite-rw".

Module Iter.

Section flat_map.
Context {A B : Type} (f : A → list B).

(** [core::iter::FlatMap]: what the outer iterator has left, and what the
    inner iterator at the front has left (an absent front iterator is an
    empty one). *)
Record FlatMap : Type := mk {
  outer : list A;
  frontiter : list B;
}.

(** [FlatMap::next], from the parts of the state: the next item of the front
    iterator, or of the first inner iterator of the outer ones that has
    one. *)
Fixpoint next_from (outer : list A) (frontiter : list B) :
    option B * FlatMap :=
  match frontiter with
  | x :: frontiter' => (Some x, mk outer frontiter')
  | [] =>
      match outer with
      | [] => (None, mk [] [])
      | a :: outer' => next_from outer' (f a)
      end
  end.

(** [Iterator::next] *)
Definition next : St FlatMap (option B) :=
  λ self, next_from (outer self) (frontiter self).

(** [Iterator::collect::<Vec<_>>()]: pushes the items until [next] returns
    [None]; [None] here is running out of fuel. *)
Fixpoint collect (fuel : nat) (self : FlatMap) : option (list B) :=
  match fuel with
  | 0 => None
  | S fuel' =>
      match next self with
      | (None, _) => Some []
      | (Some x, self') => cons x <$> collect fuel' self'
      end
  end.

(** [Iterator::count()]: counts the items until [next] returns [None]. *)
Fixpoint count (fuel : nat) (self : FlatMap) : option nat :=
  match fuel with
  | 0 => None
  | S fuel' =>
      match next self with
      | (None, _) => Some 0
      | (Some _, self') => S <$> count fuel' self'
      end
  end.

(** What an iterator has left to yield. *)
Definition to_list (self : FlatMap) : list B :=
  frontiter self ++ (outer self ≫= f).

(** The iterator after [n] calls of [next]. *)
Fixpoint nexts (n : nat) (self : FlatMap) : FlatMap :=
  match n with
  | 0 => self
  | S n' => nexts n' (exec next self)
  end.

(** Some call of [next] returns an item and leaves an iterator of which [P]
    holds: this call, or one that follows. *)
Inductive eventually (P : option B → FlatMap → Prop) (self : FlatMap) : Prop :=
  | eventually_now : P (eval next self) (exec next self) → eventually P self
  | eventually_later : eventually P (exec next self) → eventually P self.

End flat_map.

#[global] Arguments FlatMap : clear implicits.
#[global] Arguments mk {A B} _ _ : assert.
#[global] Arguments outer {A B} _ : assert.
#[global] Arguments frontiter {A B} _ : assert.

Section methods.
Context {M : Type} {ops : HashMap.Ops string (list string) M}.

(** [self.headers.get(name).into_iter().flat_map(|values| ..)] of [get] *)
Definition get (self : HeaderMap.HeaderMap M) (name : string) :
    FlatMap (list string) string :=
  mk (option_list (HashMap.get name (HeaderMap.headers self))) [].

Definition get_values (values : list string) : list string :=
  (λ val, val) <$> values.

(** [self.headers.iter().flat_map(|(_, values)| values.iter())] of [len] *)
Definition len_flat_map (self : HeaderMap.HeaderMap M) :
    FlatMap (string * list string) string :=
  mk (HashMap.iter (HeaderMap.headers self)) [].

Definition len_values (entry : string * list string) : list string :=
  let '(_, values) := entry in values.

(** [len(&self)], run: the [count()] of that iterator. *)
Definition len (fuel : nat) (self : HeaderMap.HeaderMap M) : option nat :=
  count len_values fuel (len_flat_map self).

(** [self.headers.iter().flat_map(|(key, values)| ..)] of [iter] *)
Definition iter (self : HeaderMap.HeaderMap M) :
    FlatMap (string * list string) Header.Header :=
  mk (HashMap.iter (HeaderMap.headers self)) [].

Definition iter_headers (entry : string * list string) : list Header.Header :=
  let '(key, values) := entry in (λ val, Header.new key val) <$> values.

(** [self.headers.into_iter().flat_map(|(name, value)| ..)] of [into_iter] *)
Definition into_iter (self : HeaderMap.HeaderMap M) :
    FlatMap (string * list string) Header.Header :=
  mk (HashMap.into_iter (HeaderMap.headers self)) [].

Definition into_iter_headers (entry : string * list string) :
    list Header.Header :=
  let '(name, value) := entry in
  (λ value, {| Header.name := name; Header.value := value |}) <$> value.

(** [remove_all(&mut self)], run: the map is replaced by a new one and the
    old one drained by [collect()]. *)
Definition remove_all (fuel : nat) :
    St (HeaderMap.HeaderMap M) (option (list Header.Header)) :=
  let* old_map := mem_replace HeaderMap.new in
  st_ret (collect into_iter_headers fuel (into_iter old_map)).

End methods.

(** ** The adapter *)

Section flat_map_facts.
Context {A B : Type} (f : A → list B).
Implicit Types (self : FlatMap A B) (xs : list A) (ys : list B).

Lemma next_from_spec xs ys :
  match next_from f xs ys with
  | (None, self') => ys ++ (xs ≫= f) = [] ∧ to_list f self' = []
  | (Some y, self') => ys ++ (xs ≫= f) = y :: to_list f self'
  end.
Proof.
  revert ys. induction xs as [|a xs IH]=> ys; destruct ys as [|y ys]; try done.
  simpl. specialize (IH (f a)). by destruct (next_from f xs (f a)) as [[y|] ?].
Qed.

(** [next] yields the first item left and keeps the others; it returns
    [None] when no item is left, and then again. *)
Lemma next_spec self :
  match next f self with
  | (None, self') => to_list f self = [] ∧ to_list f self' = []
  | (Some y, self') => to_list f self = y :: to_list f self'
  end.
Proof. apply next_from_spec. Qed.

Lemma collect_to_list fuel self :
  length (to_list f self) < fuel → collect f fuel self = Some (to_list f self).
Proof.
  revert self. induction fuel as [|fuel IH]=> self Hlt; first lia.
  pose proof (next_spec self) as Hnext. simpl.
  destruct (next f self) as [[y|] self'].
  - rewrite Hnext IH; first done. rewrite Hnext /= in Hlt. lia.
  - by destruct Hnext as [-> _].
Qed.

Lemma collect_out_of_fuel fuel self :
  fuel ≤ length (to_list f self) → collect f fuel self = None.
Proof.
  revert self. induction fuel as [|fuel IH]=> self Hle; first done.
  pose proof (next_spec self) as Hnext. simpl.
  destruct (next f self) as [[y|] self'].
  - rewrite IH; first done. rewrite Hnext /= in Hle. lia.
  - destruct Hnext as [Hnil _]. rewrite Hnil /= in Hle. lia.
Qed.

Lemma count_collect fuel self :
  count f fuel self = length <$> collect f fuel self.
Proof.
  revert self. induction fuel as [|fuel IH]=> self; first done.
  simpl. destruct (next f self) as [[y|] self']; last done.
  rewrite IH. by destruct (collect f fuel self').
Qed.

Lemma count_to_list fuel self :
  length (to_list f self) < fuel
  → count f fuel self = Some (length (to_list f self)).
Proof. intros Hlt. by rewrite count_collect collect_to_list. Qed.

(** *** Calls of [next], one after the other *)

Lemma eval_next self : eval (next f) self = head (to_list f self).
Proof.
  pose proof (next_spec self) as Hnext. rewrite /eval.
  destruct (next f self) as [[y|] self']; simpl; [by rewrite Hnext|].
  by destruct Hnext as [-> _].
Qed.

Lemma to_list_exec_next self :
  to_list f (exec (next f) self) = tail (to_list f self).
Proof.
  pose proof (next_spec self) as Hnext. rewrite /exec.
  destruct (next f self) as [[y|] self']; simpl; [by rewrite Hnext|].
  by destruct Hnext as [-> ->].
Qed.

Lemma to_list_nexts n self :
  to_list f (nexts f n self) = drop n (to_list f self).
Proof.
  revert self. induction n as [|n IH]=> self; first done.
  rewrite /= IH to_list_exec_next.
  by destruct (to_list f self); rewrite /= ?drop_nil.
Qed.

(** The call of [next] after [n] others yields the item [n] of what was
    left, and [None] when there are not as many. *)
Lemma eval_nexts n self :
  eval (next f) (nexts f n self) = to_list f self !! n.
Proof.
  rewrite eval_next to_list_nexts. rewrite -(Nat.add_0_r n) -lookup_drop.
  by rewrite Nat.add_0_r head_lookup.
Qed.

Lemma eventually_nexts P n self :
  P (eval (next f) (nexts f n self)) (exec (next f) (nexts f n self)) →
  eventually f P self.
Proof.
  revert self. induction n as [|n IH]=> self HP; first by left.
  right. by apply IH.
Qed.

Lemma eventually_mono (P Q : option B → FlatMap A B → Prop) self :
  (∀ item rest, P item rest → Q item rest) →
  eventually f P self → eventually f Q self.
Proof. intros HPQ. induction 1; [left|right]; auto. Qed.

(** Whatever is left is yielded. *)
Lemma eventually_yielded x self :
  x ∈ to_list f self → eventually f (λ item _, item = Some x) self.
Proof.
  intros [n Hn]%list_elem_of_lookup_1.
  apply (eventually_nexts _ n). by rewrite eval_nexts.
Qed.

(** The iterator ends, and has then ended for good. *)
Lemma eventually_ended self :
  eventually f
    (λ item rest, item = None ∧ ∀ n, eval (next f) (nexts f n rest) = None)
    self.
Proof.
  apply (eventually_nexts _ (length (to_list f self))).
  split; [by rewrite eval_nexts lookup_ge_None_2|].
  intros n. rewrite eval_nexts to_list_exec_next to_list_nexts.
  rewrite drop_ge //. 
Qed.

End flat_map_facts.

(** ** The iterators of the header map *)

Section methods_facts.
Context {M : Type} {ops : HashMap.Ops string (list string) M}.
Context {laws : HashMap.Laws string (list string) M}.
Implicit Types (self : HeaderMap.HeaderMap M) (name : string) (fuel : nat).

Lemma to_list_get self name :
  to_list get_values (get self name) = HeaderMap.get self name.
Proof. done. Qed.

Lemma to_list_len_flat_map self :
  length (to_list len_values (len_flat_map self)) = HeaderMap.len self.
Proof. done. Qed.

Lemma to_list_iter self : to_list iter_headers (iter self) = HeaderMap.iter self.
Proof. done. Qed.

Lemma to_list_into_iter self :
  to_list into_iter_headers (into_iter self) = HeaderMap.into_iter self.
Proof. done. Qed.

(** C33: [len], run as the loop it is, returns the number of values the map
    holds once it may call [next] one time more than that, and does not
    return with fewer calls. *)
Theorem len_enough fuel self :
  len fuel self
  = if decide (HeaderMap.len self < fuel) then Some (HeaderMap.len self)
    else None.
Proof.
  rewrite /len count_collect -to_list_len_flat_map. case_decide.
  - by rewrite collect_to_list.
  - rewrite collect_out_of_fuel //. lia.
Qed.

(** C34: [remove_all], run: the loop that drains the old map ends after one
    call of [next] more than the map holds values, and it has then returned
    the headers [into_iter] yields and left the map empty. *)
Theorem remove_all_enough fuel self :
  HeaderMap.len self < fuel →
  eval (remove_all fuel) self = Some (eval HeaderMap.remove_all self)
  ∧ exec (remove_all fuel) self = exec HeaderMap.remove_all self.
Proof.
  intros Hfuel. split; last done.
  by rewrite /remove_all /eval /= collect_to_list ?to_list_into_iter
    -?HeaderMap.len_into_iter.
Qed.

(** C38: the iterator of [iter] is live.  Every value the map holds under a
    name is yielded with that name by some call of [next], whatever names
    without a value the hash map iterates before it; and some call of [next]
    returns [None], after which every call does. *)
Theorem iter_live self :
  (∀ name value, value ∈ HeaderMap.get self name →
     eventually iter_headers
       (λ item _, item = Some (Header.new name value)) (iter self))
  ∧ eventually iter_headers
      (λ item rest,
         item = None
         ∧ ∀ n, eval (next iter_headers) (nexts iter_headers n rest) = None)
      (iter self).
Proof.
  split; [|apply eventually_ended].
  intros name value Hin. apply eventually_yielded.
  by rewrite to_list_iter HeaderMap.elem_of_iter.
Qed.

(** The iterators of [get] and [iter], collected. *)
Lemma collect_get self name :
  collect get_values (S (length (HeaderMap.get self name))) (get self name)
  = Some (HeaderMap.get self name).
Proof. rewrite collect_to_list to_list_get //. lia. Qed.

Lemma collect_iter self :
  collect iter_headers (S (HeaderMap.len self)) (iter self)
  = Some (HeaderMap.iter self).
Proof.
  rewrite collect_to_list to_list_iter // -HeaderMap.len_iter. lia.
Qed.

(** C32: the iterators [get] and [iter] return, run by the loop of
    [collect], against the contents of the map.  The iterator of [get]
    is collected exactly when the loop may call [next] once more than the
    name has values, and the result is the values of the name in the order
    they were added.  The iterator of [iter] is collected exactly when the
    loop may call [next] once more than the map holds values, and the
    result is the headers of the contents, every value once under its name,
    the names without a value skipped.  With fewer calls neither loop has
    reached the end. *)
Theorem collect_contents fuel self name :
  let g := HeaderMap.contents self in
  collect get_values fuel (get self name)
  = (if decide (length (MultiMap.values g name) < fuel)
     then Some (MultiMap.values g name) else None)
  ∧ if decide (MultiMap.count g < fuel)
    then ∃ headers, collect iter_headers fuel (iter self) = Some headers
                    ∧ headers ≡ₚ MultiMap.flatten g
    else collect iter_headers fuel (iter self) = None.
Proof.
  simpl. rewrite HeaderMap.values_contents -HeaderMap.len_contents. split.
  - case_decide; [by rewrite collect_to_list|].
    rewrite collect_out_of_fuel ?to_list_get //. lia.
  - case_decide.
    + exists (HeaderMap.iter self). split; [|apply HeaderMap.iter_contents].
      by rewrite collect_to_list ?to_list_iter -?HeaderMap.len_iter.
    + rewrite collect_out_of_fuel ?to_list_iter -?HeaderMap.len_iter //. lia.
Qed.

End methods_facts.

(** ** The theorems at concrete maps *)

Section witnesses.
Local Abbreviation L0 := (list (string * list string)).

(** A map with a name that has no value, which [next] skips. *)
Definition with_empty : HeaderMap.HeaderMap L0 :=
  HeaderMap.mk
    [("X-Custom", ["value_1"; "value_2"]); ("X-Empty", []);
     ("X-Other", ["other"])].

Lemma collect_contents_witness :
  collect get_values 4 (get with_empty "X-Custom") = Some ["value_1"; "value_2"]
  ∧ ∃ headers,
      collect iter_headers 4 (iter with_empty) = Some headers
      ∧ headers ≡ₚ MultiMap.flatten (HeaderMap.contents with_empty).
Proof. exact (collect_contents 4 with_empty "X-Custom"). Defined.

(** The loop over the iterator of [iter], with the four calls of [next] it
    needs and with three. *)
Example collect_with_empty :
  collect iter_headers 4 (iter with_empty)
  = Some [Header.new "X-Custom" "value_1"; Header.new "X-Custom" "value_2";
          Header.new "X-Other" "other"]
  ∧ collect iter_headers 3 (iter with_empty) = None.
Proof. by vm_compute. Qed.

Lemma iter_live_witness :
  eventually iter_headers
    (λ item _, item = Some (Header.new "X-Other" "other")) (iter with_empty).
Proof.
  apply (proj1 (iter_live with_empty) "X-Other" "other").
  apply (bool_decide_unpack _). by vm_compute.
Defined.

Lemma len_enough_witness : len 4 HeaderMap.custom = Some 3.
Proof. exact (len_enough 4 HeaderMap.custom). Defined.

Lemma remove_all_enough_witness :
  eval (remove_all 4) HeaderMap.custom
  = Some (eval HeaderMap.remove_all HeaderMap.custom)
  ∧ exec (remove_all 4) HeaderMap.custom
    = exec HeaderMap.remove_all HeaderMap.custom.
Proof. apply remove_all_enough. by vm_compute. Defined.

(** With three values, three calls of [next] are not enough. *)
Example len_out_of_fuel : len 3 HeaderMap.custom = None.
Proof. by vm_compute. Qed.

End witnesses.

End Iter.
