(* ===== verification/HeaderChecked.v ===== *)
(** * What can panic: overflow, indexing and [format!]

    Three operations of [header.rs] reach code that panics: [len] counts
    with [Iterator::count], which adds one to a [usize] for every item;
    [get_one] indexes a vector with [values[0]]; and [From<T>] formats the
    value of a typed header with [format!], which panics when the
    [Display] of the header returns an error.  The other files model these
    operations where they return.  This file keeps the panic: an operation
    returns [Ok] with its result or [Err] with the panic, integers are [Z]
    at the width of [usize], and the theorems say when each operation
    panics and that it is the operation of the other files when it does
    not.

    A panic unwinds the call: [add] and [replace] convert their argument
    before they borrow the map, so a panic of the conversion leaves the map
    as it was.  [Header.from] of [HeaderModel] is the conversion where
    [format!] does not check the result of [Display] and keeps what was
    written, as the standard library did before it panicked; the two agree
    on every header that formats ([Checked.from_Ok]). *)

From S2P Require Import Prelude HashMapModel HashMapAList HeaderModel.
From S2P Require Import MultiMapSpec HeaderMapModel HeaderIter.
Set Warnings "-rewrite-rw".

Module Checked.

(** The panics, by their message. *)
Inductive Panic : Type :=
  | AddOverflow         (* attempt to add with overflow *)
  | IndexOutOfBounds (len index : nat)
                        (* index out of bounds: the len is .. but the index is .. *)
  | FormatError.        (* a formatting trait implementation returned an error *)

#[global] Instance Panic_eq_dec : EqDecision Panic.
Proof. solve_decision. Defined.

(** ** [usize] *)

Local Open Scope Z_scope.

(** [usize::MAX], on a target of 64 bits. *)
Definition usize_MAX : Z := 2 ^ 64 - 1.

Definition usize (n : Z) : Prop := 0 ≤ n ≤ usize_MAX.

#[global] Instance usize_dec n : Decision (usize n).
Proof. rewrite /usize. apply _. Defined.

(** What is kept of an integer at the width of [usize]. *)
Definition wrap (n : Z) : Z := n mod 2 ^ 64.

(** The sum [n] computed in [usize]: with overflow checks (a debug build) a
    sum that does not fit panics; without (a release build) it wraps. *)
Definition usize_sum (overflow_checks : bool) (n : Z) : Result Z Panic :=
  if overflow_checks
  then if decide (n ≤ usize_MAX) then Ok n else Err AddOverflow
  else Ok (wrap n).

(** [a + b] on [usize]. *)
Definition usize_add (overflow_checks : bool) (a b : Z) : Result Z Panic :=
  usize_sum overflow_checks (a + b).

Local Close Scope Z_scope.

(** ** [Iterator::count] on [usize] *)

Section count.
Context {A B : Type} (f : A → list B).

(** [self.fold(0, |count, _| count + 1)], the addition with the overflow
    checks of the build; [None] is running out of fuel. *)
Fixpoint count_from (overflow_checks : bool) (fuel : nat) (count : Z)
    (self : Iter.FlatMap A B) : option (Result Z Panic) :=
  match fuel with
  | 0 => None
  | S fuel' =>
      match Iter.next f self with
      | (None, _) => Some (Ok count)
      | (Some _, self') =>
          match usize_add overflow_checks count 1 with
          | Ok count' => count_from overflow_checks fuel' count' self'
          | Err panic => Some (Err panic)
          end
      end
  end.

Definition count (overflow_checks : bool) (fuel : nat)
    (self : Iter.FlatMap A B) : option (Result Z Panic) :=
  count_from overflow_checks fuel 0 self.

End count.

(** ** The methods *)

(** [impl Index<usize> for Vec<T>]: [self[index]], which panics out of
    range. *)
Definition index {A : Type} (self : list A) (index : nat) : Result A Panic :=
  match self !! index with
  | Some x => Ok x
  | None => Err (IndexOutOfBounds (length self) index)
  end.

(** [header.into()], of [add] and [replace], where it can panic. *)
Class TryIntoHeader (H : Type) := try_into : H → Result Header.Header Panic.
#[global] Hint Mode TryIntoHeader ! : typeclass_instances.

(** [format!("{}", formatter)]: the text written, unless the write failed. *)
Definition format {T : Type} `{!Header.HyperHeader T} (hyper_header : T) :
    Result string Panic :=
  match Header.fmt_header hyper_header "" with
  | (Ok _, buf) => Ok buf
  | (Err _, _) => Err FormatError
  end.

(** [impl<T> From<T> for Header<'static>] *)
Definition from {T : Type} `{!Header.HyperHeader T} (hyper_header : T) :
    Result Header.Header Panic :=
  match format hyper_header with
  | Ok value => Ok (Header.new (Header.header_name T) value)
  | Err panic => Err panic
  end.

#[global] Instance Header_try_into : TryIntoHeader Header.Header := Ok.
#[global] Instance hyper_try_into {T : Type} `{!Header.HyperHeader T} :
  TryIntoHeader T | 10 := from.

Section methods.
Context {M : Type} {ops : HashMap.Ops string (list string) M}.
Local Abbreviation HeaderMap := (HeaderMap.HeaderMap M).

(** [len(&self)] *)
Definition len (overflow_checks : bool) (fuel : nat) (self : HeaderMap) :
    option (Result Z Panic) :=
  count Iter.len_values overflow_checks fuel (Iter.len_flat_map self).

(** [get_one(&self, name)] *)
Definition get_one (self : HeaderMap) (name : string) :
    Result (option string) Panic :=
  match HashMap.get name (HeaderMap.headers self) with
  | Some values =>
      if decide (1 ≤ length values)
      then match index values 0 with
           | Ok val => Ok (Some val)
           | Err panic => Err panic
           end
      else Ok None
  | None => Ok None
  end.

(** [add(&mut self, header)]: the conversion first, then the map. *)
Definition add {H : Type} `{!TryIntoHeader H} (header : H) :
    St HeaderMap (Result unit Panic) :=
  λ self,
    match try_into header with
    | Ok header => let '(r, self') := HeaderMap.add header self in (Ok r, self')
    | Err panic => (Err panic, self)
    end.

(** [replace(&mut self, header)] *)
Definition replace {H : Type} `{!TryIntoHeader H} (header : H) :
    St HeaderMap (Result bool Panic) :=
  λ self,
    match try_into header with
    | Ok header =>
        let '(r, self') := HeaderMap.replace header self in (Ok r, self')
    | Err panic => (Err panic, self)
    end.

End methods.

(** ** [usize] arithmetic *)

Section usize_facts.
Local Open Scope Z_scope.
Implicit Types (n a b : Z) (checks : bool).

Lemma usize_wrap n : usize (wrap n).
Proof.
  rewrite /usize /wrap /usize_MAX.
  pose proof (Z.mod_pos_bound n (2 ^ 64)). lia.
Qed.

Lemma wrap_usize n : usize n → wrap n = n.
Proof. rewrite /usize /wrap /usize_MAX=> ?. apply Z.mod_small. lia. Qed.

Lemma wrap_add_l a b : wrap (wrap a + b) = wrap (a + b).
Proof. apply Zplus_mod_idemp_l. Qed.

(** A sum that fits is the sum, with and without overflow checks. *)
Lemma usize_sum_fits checks n : usize n → usize_sum checks n = Ok n.
Proof.
  intros Hn. rewrite /usize_sum. destruct checks.
  - rewrite decide_True //. apply Hn.
  - by rewrite wrap_usize.
Qed.

Lemma usize_sum_overflows checks n :
  usize_MAX < n →
  usize_sum checks n = if checks then Err AddOverflow else Ok (wrap n).
Proof.
  intros Hn. rewrite /usize_sum. destruct checks; [|done].
  rewrite decide_False //. lia.
Qed.

Lemma usize_sum_usize checks n r : usize_sum checks n = Ok r → 0 ≤ n → usize r.
Proof.
  rewrite /usize_sum. destruct checks.
  - case_decide; [|done]. intros [= <-] ?. by split.
  - intros [= <-] _. apply usize_wrap.
Qed.

End usize_facts.

(** ** Counting *)

Section count_facts.
Context {A B : Type} (f : A → list B).
Implicit Types (self : Iter.FlatMap A B) (checks : bool) (fuel : nat) (acc : Z).

(** The loop returns the sum of what it had counted and what was left, as
    [usize] computes this sum. *)
Lemma count_from_spec checks fuel acc self :
  usize acc →
  length (Iter.to_list f self) < fuel →
  count_from f checks fuel acc self
  = Some (usize_sum checks (acc + Z.of_nat (length (Iter.to_list f self)))).
Proof.
  revert acc self. induction fuel as [|fuel IH]=> acc self Hacc Hlt; first lia.
  pose proof (Iter.next_spec f self) as Hnext. simpl.
  destruct (Iter.next f self) as [[y|] self']; last first.
  { destruct Hnext as [-> _]. by rewrite /= Z.add_0_r usize_sum_fits. }
  rewrite Hnext length_cons in Hlt |- *.
  rewrite Nat2Z.inj_succ -Z.add_1_l Z.add_assoc.
  destruct checks; rewrite /usize_add {1}/usize_sum.
  - case_decide.
    + by rewrite IH; [|rewrite /usize in Hacc |- *; lia|lia].
    + rewrite /usize_sum decide_False //. lia.
  - rewrite IH; [|apply usize_wrap|lia]. by rewrite /usize_sum wrap_add_l.
Qed.

Lemma count_spec checks fuel self :
  length (Iter.to_list f self) < fuel →
  count f checks fuel self
  = Some (usize_sum checks (Z.of_nat (length (Iter.to_list f self)))).
Proof. intros Hlt. by rewrite /count count_from_spec. Qed.

End count_facts.

(** ** The methods *)

Section methods_facts.
Context {M : Type} {ops : HashMap.Ops string (list string) M}.
Context {laws : HashMap.Laws string (list string) M}.
Implicit Types (self : HeaderMap.HeaderMap M) (name : string) (fuel : nat).
Implicit Types (checks : bool).

Lemma len_spec checks fuel self :
  HeaderMap.len self < fuel →
  len checks fuel self = Some (usize_sum checks (Z.of_nat (HeaderMap.len self))).
Proof.
  intros Hlt.
  by rewrite /len count_spec Iter.to_list_len_flat_map.
Qed.

(** C39: [len] on [usize].  Given the calls of [next] it needs, the count of
    a map whose values are no more than [usize::MAX] is their number, with
    and without overflow checks; beyond that a build with overflow checks
    panics and one without returns the number modulo [2^64]; and what is
    returned is a [usize] in every case. *)
Theorem len_usize checks fuel self :
  HeaderMap.len self < fuel →
  let n := Z.of_nat (HeaderMap.len self) in
  ((n ≤ usize_MAX)%Z → len checks fuel self = Some (Ok n))
  ∧ ((usize_MAX < n)%Z →
     len checks fuel self
     = Some (if checks then Err AddOverflow else Ok (wrap n)))
  ∧ (∀ r, len checks fuel self = Some (Ok r) → usize r).
Proof.
  intros Hlt n. rewrite len_spec //. split_and!.
  - intros Hn. rewrite usize_sum_fits //. split; [lia|done].
  - intros Hn. by rewrite usize_sum_overflows.
  - intros r [= Hr]. apply (usize_sum_usize _ _ _ Hr). lia.
Qed.

(** The index of [get_one] is guarded by the length: it does not panic. *)
Lemma get_one_Ok self name :
  get_one self name = Ok (HeaderMap.get_one self name).
Proof.
  rewrite /get_one /HeaderMap.get_one.
  by destruct (HashMap.get _ _) as [[|val values]|].
Qed.

(** C31: [get_one] does not panic.  On every map, one that stores a name
    with an empty vector of values included, the index [values[0]] is
    evaluated in range only: the call returns, and what it returns is the
    first of the values [get] yields for the name, or nothing when there is
    none. *)
Theorem get_one_no_panic self name :
  get_one self name = Ok (head (HeaderMap.get self name)).
Proof.
  rewrite /get_one HeaderMap.get_entry.
  by destruct (HashMap.get _ _) as [[|val values]|].
Qed.

(** An index past the end does panic. *)
Lemma index_Err {A : Type} (v : list A) i :
  length v ≤ i → index v i = Err (IndexOutOfBounds (length v) i).
Proof. intros Hi. by rewrite /index lookup_ge_None_2. Qed.

Lemma index_Ok {A : Type} (v : list A) i :
  i < length v → ∃ x, index v i = Ok x ∧ v !! i = Some x.
Proof.
  intros [x Hx]%lookup_lt_is_Some_2. exists x. by rewrite /index Hx.
Qed.

(** A header converts to itself, without a panic. *)
Lemma add_header (header : Header.Header) self :
  add header self = (Ok tt, exec (HeaderMap.add header) self).
Proof. rewrite /add /try_into /Header_try_into /exec. by destruct (HeaderMap.add _ _) as [[] ?]. Qed.

Lemma replace_header (header : Header.Header) self :
  replace header self
  = (Ok (eval (HeaderMap.replace header) self),
     exec (HeaderMap.replace header) self).
Proof.
  rewrite /replace /try_into /Header_try_into /exec /eval.
  by destruct (HeaderMap.replace _ _).
Qed.

Section hyper.
Context {T : Type} `{!Header.HyperHeader T}.
Implicit Types (hyper_header : T).

Lemma from_Ok hyper_header buf :
  Header.fmt_header hyper_header "" = (Ok tt, buf) →
  from hyper_header = Ok (Header.from hyper_header).
Proof.
  intros Hfmt.
  by rewrite /from /format /Header.from /Header.format_hyper /exec Hfmt.
Qed.

Lemma from_Err hyper_header e buf :
  Header.fmt_header hyper_header "" = (Err e, buf) →
  from hyper_header = Err FormatError.
Proof. intros Hfmt. by rewrite /from /format Hfmt. Qed.

(** C40: a typed header whose [Display] fails.  [add] and [replace] of a
    typed header convert it with [format!] before they touch the map: when
    the header formats, they are [add] and [replace] of the header
    [From<T>] builds; when it returns an error, they panic and the map is
    what it was. *)
Theorem add_replace_hyper hyper_header self :
  match Header.fmt_header hyper_header "" with
  | (Ok _, _) =>
      add hyper_header self
      = (Ok tt, exec (HeaderMap.add (Header.from hyper_header)) self)
      ∧ replace hyper_header self
        = (Ok (eval (HeaderMap.replace (Header.from hyper_header)) self),
           exec (HeaderMap.replace (Header.from hyper_header)) self)
  | (Err _, _) =>
      add hyper_header self = (Err FormatError, self)
      ∧ replace hyper_header self = (Err FormatError, self)
  end.
Proof.
  destruct (Header.fmt_header hyper_header "") as [[[]|e] buf] eqn:Hfmt.
  - rewrite /add /replace /try_into /hyper_try_into (from_Ok _ buf) //.
    by rewrite -add_header -replace_header.
  - by rewrite /add /replace /try_into /hyper_try_into (from_Err _ e buf).
Qed.

End hyper.

End methods_facts.

(** ** The theorems at concrete inputs *)

Section witnesses.

(** A typed header that formats: its value is the text it holds. *)
Record Server : Type := mk_Server { product : string }.

#[global] Instance Server_hyper : Header.HyperHeader Server := {|
  Header.header_name := "Server";
  Header.fmt_header server := Header.write_str (product server);
|}.

(** A typed header whose [Display] returns an error after it has written
    a part of its value. *)
Inductive Broken : Type := broken.

#[global] Instance Broken_hyper : Header.HyperHeader Broken := {|
  Header.header_name := "X-Broken";
  Header.fmt_header _ :=
    Header.and_then (Header.write_str "partial") (λ buf, (Err Header.FmtError, buf));
|}.

Lemma custom_fuel : HeaderMap.len HeaderMap.custom < 4.
Proof. vm_compute. lia. Qed.

Lemma len_usize_witness :
  len true 4 HeaderMap.custom = Some (Ok 3%Z)
  ∧ len false 4 HeaderMap.custom = Some (Ok 3%Z).
Proof.
  split.
  - apply (proj1 (len_usize true 4 HeaderMap.custom custom_fuel)).
    by vm_compute.
  - apply (proj1 (len_usize false 4 HeaderMap.custom custom_fuel)).
    by vm_compute.
Defined.

(** On a name with two values, and on a name stored without a value. *)
Lemma get_one_no_panic_witness :
  get_one HeaderMap.custom "X-Custom" = Ok (Some "value_1")
  ∧ get_one (exec (HeaderMap.replace_all "X-Custom" []) HeaderMap.custom)
      "X-Custom" = Ok None.
Proof.
  split.
  - exact (get_one_no_panic HeaderMap.custom "X-Custom").
  - exact (get_one_no_panic
             (exec (HeaderMap.replace_all "X-Custom" []) HeaderMap.custom)
             "X-Custom").
Defined.

Lemma add_replace_hyper_witness :
  add broken HeaderMap.custom = (Err FormatError, HeaderMap.custom)
  ∧ replace broken HeaderMap.custom = (Err FormatError, HeaderMap.custom).
Proof. exact (add_replace_hyper broken HeaderMap.custom). Defined.

(** The header that formats is added; the one that does not is dropped by
    the conversion that ignores the error, which keeps what was written. *)
Example add_Server :
  eval (add (mk_Server "Rocket")) HeaderMap.custom = Ok tt
  ∧ HeaderMap.get (exec (add (mk_Server "Rocket")) HeaderMap.custom) "Server"
    = ["Rocket"].
Proof. by vm_compute. Qed.

Example from_Broken :
  from broken = Err FormatError
  ∧ Header.from broken = Header.new "X-Broken" "partial".
Proof. by vm_compute. Qed.

(** Counting at the edge of [usize]. *)
Example usize_add_MAX :
  usize_add true usize_MAX 1 = Err AddOverflow
  ∧ usize_add false usize_MAX 1 = Ok 0%Z
  ∧ usize_add true (usize_MAX - 1) 1 = Ok usize_MAX.
Proof. by vm_compute. Qed.

End witnesses.

End Checked.
