(* ===== verification/HeaderBorrow.v ===== *)
(** * One owner, many readers: the borrows of a header map

    The methods that change a header map take [&mut self]; [get] and [iter]
    take [&'a self] and return an iterator that borrows the map for ['a].
    The other files pass maps as values, where a borrow cannot be seen.  This
    file has the map in one place and the iterators that borrow it beside it
    ([Borrow.state]), and the events of a program that owns the map as a
    step relation ([Borrow.step]): a call of a [&mut self] method, the start
    of a borrow by [iter] or [get], a call of [next] on an iterator that is
    live, and the end of a borrow.

    That a [&mut self] method is called only when no borrow is live is what
    the signatures make the compiler check.  It is not proved here: it is
    the premise of the rule for a call in [Borrow.step], which takes the
    check as a parameter so that the same events can be run without it.
    What the file shows is what the check is for.  With it, the maps a
    program reaches keep every iterator on the headers the map holds
    ([Borrow.steps_fresh], [Borrow.next_in_map], [Borrow.next_None_all]),
    readers do not disturb each other ([Borrow.next_next_comm]), and the
    owner can always end the borrows and change the map again
    ([Borrow.release]).  Without it, an iterator yields a value that the
    map no longer holds ([Borrow.dangling]). *)

From S2P Require Import Prelude HashMapModel HashMapAList HeaderModel.
From S2P Require Import MultiMapSpec HeaderMapModel HeaderMapTrace HeaderIter.
Set Warnings "-rewrite-rw".

Module Borrow.

Section machine.
Context {M : Type} {ops : HashMap.Ops string (list string) M}.

(** The iterator a borrow holds: that of [iter], or that of [get] with the
    name it was asked for. *)
Inductive cursor : Type :=
  | OfIter (it : Iter.FlatMap (string * list string) Header.Header)
  | OfGet (name : string) (it : Iter.FlatMap (list string) string).

(** A live borrow: its iterator, and what the iterator has yielded. *)
Record reader : Type := mk_reader {
  at_ : cursor;
  yielded : list Header.Header;
}.

(** What an iterator has left, the values of [get] with their name. *)
Definition rest (c : cursor) : list Header.Header :=
  match c with
  | OfIter it => Iter.to_list Iter.iter_headers it
  | OfGet name it => Header.new name <$> Iter.to_list Iter.get_values it
  end.

(** [next] on either iterator. *)
Definition next (c : cursor) : option Header.Header * cursor :=
  match c with
  | OfIter it =>
      let '(item, it') := Iter.next Iter.iter_headers it in (item, OfIter it')
  | OfGet name it =>
      let '(item, it') := Iter.next Iter.get_values it in
      (Header.new name <$> item, OfGet name it')
  end.

(** What a fresh iterator of the same kind yields on a map. *)
Definition source (c : cursor) (self : HeaderMap.HeaderMap M) :
    list Header.Header :=
  match c with
  | OfIter _ => HeaderMap.iter self
  | OfGet name _ => Header.new name <$> HeaderMap.get self name
  end.

(** The map and the borrows of it that are live, by their lifetime. *)
Record state : Type := mk {
  map : HeaderMap.HeaderMap M;
  readers : gmap positive reader;
}.

(** What the owner of a map does with it. *)
Inductive event : Type :=
  | Call (c : Trace.call)                 (* a [&mut self] method *)
  | Iter (a : positive)                   (* [let it = map.iter()], for ['a] *)
  | Get (a : positive) (name : string)    (* [let it = map.get(name)] *)
  | Next (a : positive) (item : option Header.Header)
                                          (* [it.next()] returned [item] *)
  | End (a : positive).                   (* ['a] ends: [it] is dropped *)

(** The state after [next] on the iterator of a borrow. *)
Definition advance (r : reader) : reader :=
  {| at_ := (next (at_ r)).2;
     yielded := yielded r ++ option_list (next (at_ r)).1 |}.

(** One event.  With [borrowck], a [&mut self] method is called only when
    no borrow is live. *)
Inductive step (borrowck : bool) : state → event → state → Prop :=
  | step_call s c :
      (borrowck = true → readers s = ∅) →
      step borrowck s (Call c) (mk (Trace.run c (map s)) (readers s))
  | step_iter s a :
      readers s !! a = None →
      step borrowck s (Iter a)
        (mk (map s)
           (<[a := mk_reader (OfIter (Iter.iter (map s))) []]> (readers s)))
  | step_get s a name :
      readers s !! a = None →
      step borrowck s (Get a name)
        (mk (map s)
           (<[a := mk_reader (OfGet name (Iter.get (map s) name)) []]>
              (readers s)))
  | step_next s a r :
      readers s !! a = Some r →
      step borrowck s (Next a (next (at_ r)).1)
        (mk (map s) (<[a := advance r]> (readers s)))
  | step_end s a :
      step borrowck s (End a) (mk (map s) (delete a (readers s))).

(** A sequence of events. *)
Inductive steps (borrowck : bool) : state → list event → state → Prop :=
  | steps_nil s : steps borrowck s [] s
  | steps_cons s e s' es s'' :
      step borrowck s e s' → steps borrowck s' es s'' →
      steps borrowck s (e :: es) s''.

(** The owner starts with a new map and no borrow. *)
Definition init : state := mk HeaderMap.new ∅.

(** The events, run: [None] when the event is not a step. *)
Definition fire (borrowck : bool) (e : event) (s : state) : option state :=
  match e with
  | Call c =>
      if decide (borrowck = true → size (readers s) = 0)
      then Some (mk (Trace.run c (map s)) (readers s)) else None
  | Iter a =>
      if decide (readers s !! a = None)
      then Some (mk (map s)
             (<[a := mk_reader (OfIter (Iter.iter (map s))) []]> (readers s)))
      else None
  | Get a name =>
      if decide (readers s !! a = None)
      then Some (mk (map s)
             (<[a := mk_reader (OfGet name (Iter.get (map s) name)) []]>
                (readers s)))
      else None
  | Next a item =>
      r ← readers s !! a;
      if decide (item = (next (at_ r)).1)
      then Some (mk (map s) (<[a := advance r]> (readers s))) else None
  | End a => Some (mk (map s) (delete a (readers s)))
  end.

Definition fire_all (borrowck : bool) (es : list event) (s : state) :
    option state :=
  foldl (λ s e, s ≫= fire borrowck e) (Some s) es.

(** Every borrow shows the map as it is: what its iterator has yielded and
    what it has left are what a fresh iterator yields. *)
Definition fresh (s : state) : Prop :=
  ∀ a r, readers s !! a = Some r →
    yielded r ++ rest (at_ r) = source (at_ r) (map s).

End machine.

#[global] Arguments state M : clear implicits.

(** ** The iterators *)

Section cursor_facts.
Context {M : Type} {ops : HashMap.Ops string (list string) M}.
Context {laws : HashMap.Laws string (list string) M}.
Implicit Types (c : cursor) (self : HeaderMap.HeaderMap M) (r : reader).

(** [next] yields the first header left and leaves the others. *)
Lemma next_rest c :
  option_list (next c).1 ++ rest (next c).2 = rest c
  ∧ (next c).1 = head (rest c).
Proof.
  destruct c as [it|name it]; simpl.
  - pose proof (Iter.next_spec Iter.iter_headers it) as Hnext.
    destruct (Iter.next _ it) as [[item|] it']; simpl.
    + by rewrite Hnext.
    + by destruct Hnext as [-> ->].
  - pose proof (Iter.next_spec Iter.get_values it) as Hnext.
    destruct (Iter.next _ it) as [[item|] it']; simpl.
    + by rewrite Hnext.
    + by destruct Hnext as [-> ->].
Qed.

Lemma source_next c self : source (next c).2 self = source c self.
Proof.
  destruct c as [it|name it]; simpl.
  - by destruct (Iter.next _ it).
  - by destruct (Iter.next _ it).
Qed.

Lemma advance_fresh r self :
  yielded r ++ rest (at_ r) = source (at_ r) self →
  yielded (advance r) ++ rest (at_ (advance r)) = source (at_ (advance r)) self.
Proof.
  intros Hr. rewrite /advance /= source_next -Hr -assoc.
  by rewrite (proj1 (next_rest (at_ r))).
Qed.

End cursor_facts.

(** ** The steps *)

Section step_facts.
Context {M : Type} {ops : HashMap.Ops string (list string) M}.
Context {laws : HashMap.Laws string (list string) M}.
Implicit Types (s : state M) (e : event) (es : list event) (a : positive).
Implicit Types (borrowck : bool).

(** [fire] is [step], run. *)
Lemma fire_step borrowck e s s' : fire borrowck e s = Some s' ↔ step borrowck s e s'.
Proof.
  split.
  - destruct e as [c|a|a name|a item|a]; simpl;
      [case_decide as Hck| case_decide| case_decide| |]; try done.
    + intros [= <-]. constructor. intros Hb. by apply map_size_empty_iff, Hck.
    + intros [= <-]. by constructor.
    + intros [= <-]. by constructor.
    + destruct (readers s !! a) as [r|] eqn:Hr; simpl; [|done].
      case_decide as Hitem; [|done]. intros [= <-]. subst item. by constructor.
    + intros [= <-]. constructor.
  - destruct 1 as [s c Hck|s a Ha|s a name Ha|s a r Hr|s a]; simpl.
    + rewrite decide_True //. intros Hb. by apply map_size_empty_iff, Hck.
    + by rewrite decide_True.
    + by rewrite decide_True.
    + by rewrite Hr /= decide_True.
    + done.
Qed.

Lemma fire_all_steps borrowck es s s' :
  fire_all borrowck es s = Some s' ↔ steps borrowck s es s'.
Proof.
  rewrite /fire_all. revert s. induction es as [|e es IH]=> s; simpl.
  - split; [intros [= <-]; constructor|by inversion 1].
  - destruct (fire borrowck e s) as [s1|] eqn:Hfire; simpl.
    + rewrite IH. split.
      * intros Hsteps. econstructor; [by apply fire_step|done].
      * inversion 1 as [|? ? s1' ? ? Hstep Hsteps]; subst.
        apply fire_step in Hstep. by simplify_eq.
    + split.
      * intros Hnone. exfalso. clear -Hnone.
        induction es as [|e' es IH']; [done|by apply IH'].
      * inversion 1 as [|? ? s1' ? ? Hstep Hsteps]; subst.
        apply fire_step in Hstep. congruence.
Qed.

(** A step is deterministic: the event names what happens. *)
Lemma step_det borrowck s e s1 s2 :
  step borrowck s e s1 → step borrowck s e s2 → s1 = s2.
Proof. rewrite -!fire_step. congruence. Qed.

Lemma fresh_init : fresh (init (M:=M)).
Proof. by intros a r. Qed.

(** With the borrow check, a step keeps every borrow fresh. *)
Lemma step_fresh s e s' : step true s e s' → fresh s → fresh s'.
Proof.
  destruct 1 as [s c Hck|s a Ha|s a name Ha|s a r Hr|s a]; intros Hs b rb; simpl.
  - by rewrite Hck.
  - rewrite lookup_insert. case_decide; [|by apply Hs]. by intros [= <-].
  - rewrite lookup_insert. case_decide; [|by apply Hs]. by intros [= <-].
  - rewrite lookup_insert. case_decide; [|by apply Hs].
    intros [= <-]. by apply advance_fresh, (Hs _ _ Hr).
  - rewrite lookup_delete. case_decide; [done|by apply Hs].
Qed.

Lemma steps_fresh s es s' : steps true s es s' → fresh s → fresh s'.
Proof. induction 1; eauto using step_fresh. Qed.

(** While a borrow is live the map is what it was. *)
Lemma step_map s e s' a :
  step true s e s' → is_Some (readers s !! a) → map s' = map s.
Proof.
  destruct 1 as [s c Hck| | | |]; try done.
  rewrite Hck //. by intros [? ?].
Qed.

Lemma step_next_inv borrowck s a item s' :
  step borrowck s (Next a item) s' →
  ∃ r, readers s !! a = Some r
       ∧ item = head (rest (at_ r))
       ∧ s' = mk (map s) (<[a := advance r]> (readers s)).
Proof.
  inversion 1 as [| | |? ? r Hr|]; subst. exists r.
  by rewrite (proj2 (next_rest (at_ r))).
Qed.

Lemma elem_of_source (c : cursor) (self : HeaderMap.HeaderMap M) item :
  item ∈ source c self →
  Header.value item ∈ HeaderMap.get self (Header.name item).
Proof.
  destruct c; simpl.
  - by rewrite HeaderMap.elem_of_iter.
  - by intros (v & -> & Hv)%list_elem_of_fmap.
Qed.

(** No invalidation: the header [next] yields is in the map, under its
    name. *)
Lemma next_in_map es s a item s' :
  steps true init es s → step true s (Next a (Some item)) s' →
  Header.value item ∈ HeaderMap.get (map s) (Header.name item)
  ∧ map s' = map s.
Proof.
  intros Hes%steps_fresh (r & Hr & Hitem & ->)%step_next_inv;
    last apply fresh_init.
  split; [|done]. apply (elem_of_source (at_ r)).
  rewrite -(Hes _ _ Hr). symmetry in Hitem. apply head_Some_elem_of in Hitem.
  set_solver.
Qed.

(** An iterator that has ended has yielded what the map holds: all of it
    and in order. *)
Lemma next_None_all es s a s' r :
  steps true init es s → step true s (Next a None) s' →
  readers s !! a = Some r →
  yielded r = source (at_ r) (map s).
Proof.
  intros Hes%steps_fresh (r' & Hr' & Hitem & ->)%step_next_inv Hr;
    last apply fresh_init.
  assert (r' = r) as -> by congruence. rewrite -(Hes _ _ Hr).
  destruct (rest (at_ r)); [by rewrite app_nil_r|done].
Qed.

(** The owner can end every borrow and then change the map. *)
Lemma release_all borrowck (self : HeaderMap.HeaderMap M)
    (m : gmap positive reader) :
  ∃ es, Forall (λ e, ∃ a, e = End a) es
        ∧ steps borrowck (mk self m) es (mk self ∅).
Proof.
  induction m as [|a r m Ha _ [es [Hes Hsteps]]] using map_first_key_ind.
  { exists []. split; [done|constructor]. }
  exists (End a :: es). split; first by eauto.
  econstructor; [constructor|]. by rewrite /= delete_insert_id.
Qed.

Lemma release borrowck s c :
  ∃ es s', Forall (λ e, ∃ a, e = End a) es
           ∧ steps borrowck s es s'
           ∧ map s' = map s
           ∧ step borrowck s' (Call c) (mk (Trace.run c (map s)) ∅).
Proof.
  destruct s as [self m]. destruct (release_all borrowck self m) as (es & ? & ?).
  exists es, (mk self ∅). split_and!; [done..|]. by constructor.
Qed.

(** Readers do not disturb each other: calls of [next] on two borrows can
    be made in either order. *)
Lemma next_next_comm borrowck s a b item item' s' :
  a ≠ b →
  steps borrowck s [Next a item; Next b item'] s' →
  steps borrowck s [Next b item'; Next a item] s'.
Proof.
  intros Hab. rewrite -!fire_all_steps /fire_all /=.
  destruct (readers s !! a) as [ra|] eqn:Ha; simpl; [|done].
  case_decide; simpl; [|done]. rewrite lookup_insert_ne //.
  destruct (readers s !! b) as [rb|] eqn:Hb; simpl; [|done].
  case_decide; simpl; [|done]. rewrite lookup_insert_ne // Ha /= decide_True //.
  by rewrite insert_insert_ne.
Qed.

End step_facts.

(** ** A session *)

Section witnesses.
Local Abbreviation M0 := (gmap string (list string)).
Local Abbreviation custom_1 := (Header.new "X-Custom" "value_1").
Local Abbreviation custom_2 := (Header.new "X-Custom" "value_2").

(** Two values are added; the map is iterated by [iter] and by [get], the
    calls of [next] on the two interleaved. *)
Definition session : list event :=
  [ Call (Trace.Add custom_1); Call (Trace.Add custom_2);
    Iter 1; Get 2 "X-Custom";
    Next 1 (Some custom_1); Next 2 (Some custom_1);
    Next 2 (Some custom_2); Next 1 (Some custom_2) ].

Definition after_session : state M0 :=
  default init (fire_all true session init).

Lemma session_steps : steps true init session after_session.
Proof. apply fire_all_steps. by vm_compute. Qed.

(** With the borrow check the owner cannot remove a name while an iterator
    is live; without it, the iterator then yields a value the map no longer
    holds. *)
Example dangling :
  let es := [ Call (Trace.Add custom_1); Get 1 "X-Custom";
              Call (Trace.Remove "X-Custom") ] in
  fire_all (M:=M0) true es init = None
  ∧ (s ← fire_all (M:=M0) false es init;
     _ ← fire false (Next 1 (Some custom_1)) s;
     Some (HeaderMap.get (map s) "X-Custom")) = Some [].
Proof. by vm_compute. Qed.

End witnesses.

End Borrow.
