(* ===== verification/DocTests.v ===== *)
(** * The examples of the source, as tests

    Every method of [header.rs] documents itself with an example that the
    test suite runs.  Each example is a definition here, statement by
    statement: [let mut map = HeaderMap::new()] and the calls that follow
    rebind [map], and each [assert_eq!] or [assert!] is a boolean; the test
    is their conjunction.

    [DocTests.passes] proves that every example passes over every lawful
    hash map, so for every order of iteration; the [Example]s run them over
    [gmap] and over association lists.

    The typed headers of the examples ([ContentType], hyper's [SetCookie])
    are defined in other files of the repository; they are given here by
    what the examples rely on: the name and the rendered value.
    [ContentType] converts into a header by a conversion of its own,
    [SetCookie] through [From<T>] as every header of hyper does. *)

From S2P Require Import Prelude HashMapModel HashMapAList HeaderModel.
From S2P Require Import MultiMapSpec HeaderMapModel.
Set Warnings "-rewrite-rw".

Module DocTests.

(** ** The typed headers the examples use *)

(** [rocket::http::ContentType], the three constants of the examples. *)
Inductive ContentType : Type := HTML | JSON | GIF.

Definition content_type_value (ct : ContentType) : string :=
  match ct with
  | HTML => "text/html; charset=utf-8"
  | JSON => "application/json"
  | GIF => "image/gif"
  end.

(** [impl Into<Header<'static>> for ContentType], which is
    [Header::new("Content-Type", self.to_string())]. *)
#[global] Instance ContentType_into : Header.IntoHeader ContentType :=
  λ ct, Header.new "Content-Type" (content_type_value ct).

(** [rocket::http::Cookie] and [hyper::header::SetCookie]. *)
Record Cookie : Type := mk_cookie { cookie_name : string; cookie_value : string }.

Inductive SetCookie : Type := mk_set_cookie (cookies : list Cookie).

Definition render_cookie (c : Cookie) : string :=
  cookie_name c +:+ "=" +:+ cookie_value c.

#[global] Instance SetCookie_hyper : Header.HyperHeader SetCookie := {|
  Header.header_name := "Set-Cookie";
  Header.fmt_header '(mk_set_cookie cookies) :=
    Header.write_str (foldr (λ c s, render_cookie c +:+ s) "" cookies);
|}.

(** ** The examples of [Header::new] *)

(** A custom header from two literals. *)
Definition doctest_new : bool :=
  let header := Header.new "X-Custom-Header" "custom value" in
  bool_decide (Header.to_string header = Some "X-Custom-Header: custom value").

(** The same with a [String] as the value, [format!("{} value", "custom")]. *)
Definition doctest_new_string : bool :=
  let value := "custom" +:+ " value" in
  let header := Header.new "X-Custom-Header" value in
  bool_decide (Header.to_string header = Some "X-Custom-Header: custom value").

(** ** The examples of the map *)

Section examples.
Context {M : Type} {ops : HashMap.Ops string (list string) M}.

(** A fresh map. *)
Local Abbreviation new_map := (HeaderMap.new (M:=M)).

(** [HeaderMap::contains] *)
Definition doctest_contains : bool :=
  let map := new_map in
  let map := exec (HeaderMap.add HTML) map in
  HeaderMap.contains map "Content-Type"
  && negb (HeaderMap.contains map "Accepts").

(** [HeaderMap::len] *)
Definition doctest_len : bool :=
  let map := new_map in
  let a1 := bool_decide (HeaderMap.len map = 0) in
  let map := exec (HeaderMap.add_raw "X-Custom" "value_1") map in
  let a2 := bool_decide (HeaderMap.len map = 1) in
  let map := exec (HeaderMap.replace_raw "X-Custom" "value_2") map in
  let a3 := bool_decide (HeaderMap.len map = 1) in
  let map := exec (HeaderMap.add_raw "X-Custom" "value_1") map in
  let a4 := bool_decide (HeaderMap.len map = 2) in
  a1 && a2 && a3 && a4.

(** [HeaderMap::is_empty] *)
Definition doctest_is_empty : bool :=
  let map := new_map in
  HeaderMap.is_empty map.

(** [HeaderMap::get]: the iterator is stepped three times. *)
Definition doctest_get : bool :=
  let map := new_map in
  let map := exec (HeaderMap.add_raw "X-Custom" "value_1") map in
  let map := exec (HeaderMap.add_raw "X-Custom" "value_2") map in
  let a1 := bool_decide (HeaderMap.len map = 2) in
  let values := HeaderMap.get map "X-Custom" in
  let a2 := bool_decide (values !! 0 = Some "value_1") in
  let a3 := bool_decide (values !! 1 = Some "value_2") in
  let a4 := bool_decide (values !! 2 = None) in
  a1 && a2 && a3 && a4.

(** [HeaderMap::get_one], the two examples. *)
Definition doctest_get_one : bool :=
  let map := new_map in
  let map := exec (HeaderMap.add_raw "X-Custom" "value_1") map in
  let map := exec (HeaderMap.add_raw "X-Custom" "value_2") map in
  let a1 := bool_decide (HeaderMap.len map = 2) in
  let first_value := HeaderMap.get_one map "X-Custom" in
  a1 && bool_decide (first_value = Some "value_1").

Definition doctest_get_one_absent : bool :=
  let map := new_map in
  let map := exec (HeaderMap.add_raw "X-Custom" "value_1") map in
  let first_value := HeaderMap.get_one map "X-Other" in
  bool_decide (first_value = None).

(** [HeaderMap::replace], the two examples. *)
Definition doctest_replace_new : bool :=
  let map := new_map in
  let map := exec (HeaderMap.replace JSON) map in
  is_some (HeaderMap.get_one map "Content-Type").

Definition doctest_replace : bool :=
  let map := new_map in
  let map := exec (HeaderMap.replace JSON) map in
  let a1 :=
    bool_decide (HeaderMap.get_one map "Content-Type" = Some "application/json") in
  let map := exec (HeaderMap.replace GIF) map in
  let a2 := bool_decide (HeaderMap.get_one map "Content-Type" = Some "image/gif") in
  let a3 := bool_decide (HeaderMap.len map = 1) in
  a1 && a2 && a3.

(** [HeaderMap::replace_raw] *)
Definition doctest_replace_raw : bool :=
  let map := new_map in
  let map := exec (HeaderMap.replace_raw "X-Custom" "value_1") map in
  let a1 := bool_decide (HeaderMap.get_one map "X-Custom" = Some "value_1") in
  let map := exec (HeaderMap.replace_raw "X-Custom" "value_2") map in
  let a2 := bool_decide (HeaderMap.get_one map "X-Custom" = Some "value_2") in
  let a3 := bool_decide (HeaderMap.len map = 1) in
  a1 && a2 && a3.

(** [HeaderMap::replace_all] *)
Definition doctest_replace_all : bool :=
  let map := new_map in
  let map := exec (HeaderMap.add_raw "X-Custom" "value_1") map in
  let map := exec (HeaderMap.add_raw "X-Custom" "value_2") map in
  let vals := HeaderMap.get map "X-Custom" in
  let a1 := bool_decide (vals = ["value_1"; "value_2"]) in
  let map :=
    exec (HeaderMap.replace_all "X-Custom" ["value_3"; "value_4"]) map in
  let vals := HeaderMap.get map "X-Custom" in
  let a2 := bool_decide (vals = ["value_3"; "value_4"]) in
  a1 && a2.

(** [HeaderMap::add] *)
Definition doctest_add : bool :=
  let map := new_map in
  let cookie := [mk_cookie "a" "b"] in
  let map := exec (HeaderMap.add (mk_set_cookie cookie)) map in
  let a1 := bool_decide (length (HeaderMap.get map "Set-Cookie") = 1) in
  let cookie := [mk_cookie "c" "d"] in
  let map := exec (HeaderMap.add (mk_set_cookie cookie)) map in
  let a2 := bool_decide (length (HeaderMap.get map "Set-Cookie") = 2) in
  a1 && a2.

(** [HeaderMap::add_raw] *)
Definition doctest_add_raw : bool :=
  let map := new_map in
  let map := exec (HeaderMap.add_raw "X-Custom" "value_1") map in
  let a1 := bool_decide (length (HeaderMap.get map "X-Custom") = 1) in
  let map := exec (HeaderMap.add_raw "X-Custom" "value_2") map in
  let values := HeaderMap.get map "X-Custom" in
  let a2 := bool_decide (values = ["value_1"; "value_2"]) in
  a1 && a2.

(** [HeaderMap::add_all]: [values] is the caller's vector, which the call
    empties. *)
Definition doctest_add_all : bool :=
  let map := new_map in
  let values := ["value_1"; "value_2"] in
  let '(values, map) := HeaderMap.add_all "X-Custom" values map in
  let a1 := bool_decide (length (HeaderMap.get map "X-Custom") = 2) in
  let a2 := bool_decide (length values = 0) in
  let values := ["value_3"; "value_4"] in
  let '(values, map) := HeaderMap.add_all "X-Custom" values map in
  let a3 := bool_decide (length (HeaderMap.get map "X-Custom") = 4) in
  let a4 := bool_decide (length values = 0) in
  let values := HeaderMap.get map "X-Custom" in
  let a5 := bool_decide (values = ["value_1"; "value_2"; "value_3"; "value_4"]) in
  a1 && a2 && a3 && a4 && a5.

(** [HeaderMap::remove] *)
Definition doctest_remove : bool :=
  let map := new_map in
  let map := exec (HeaderMap.add_raw "X-Custom" "value_1") map in
  let map := exec (HeaderMap.add_raw "X-Custom" "value_2") map in
  let map := exec (HeaderMap.add_raw "X-Other" "other") map in
  let a1 := bool_decide (HeaderMap.len map = 3) in
  let map := exec (HeaderMap.remove "X-Custom") map in
  let a2 := bool_decide (HeaderMap.len map = 1) in
  a1 && a2.

(** [HeaderMap::remove_all]: the loop runs over a clone of [all_headers],
    which over text is the same list ([DocTestsCow] has the clone); the
    headers removed are compared as sets. *)
Definition doctest_remove_all : bool :=
  let all_headers :=
    [Header.new "X-Custom" "value_1"; Header.new "X-Custom" "value_2";
     Header.new "X-Other" "other"] in
  let map := new_map in
  let map := foldl (λ map header, exec (HeaderMap.add header) map) map all_headers in
  let a1 := bool_decide (HeaderMap.len map = 3) in
  let '(removed_headers, map) := HeaderMap.remove_all map in
  let a2 := HeaderMap.is_empty map in
  let expected_set : gset Header.Header := list_to_set all_headers in
  let actual_set : gset Header.Header := list_to_set removed_headers in
  let a3 := bool_decide (expected_set = actual_set) in
  a1 && a2 && a3.

(** All of them, those of [Header::new] first. *)
Definition doctests : list bool :=
  [doctest_new; doctest_new_string; doctest_contains; doctest_len; doctest_is_empty; doctest_get;
   doctest_get_one; doctest_get_one_absent; doctest_replace_new;
   doctest_replace; doctest_replace_raw; doctest_replace_all; doctest_add;
   doctest_add_raw; doctest_add_all; doctest_remove; doctest_remove_all].

End examples.

(** ** The examples pass *)

(** Over [gmap] and over association lists, by running them. *)

Example doctests_gmap :
  doctests (M:=gmap string (list string)) = replicate 17 true.
Proof. by vm_compute. Qed.

Example doctests_alist :
  doctests (M:=list (string * list string)) = replicate 17 true.
Proof. by vm_compute. Qed.

(** Over every lawful hash map, from the specification: each query is an
    observation of the contents, the contents after each call are the step
    of the specification, and the specification is run. *)

Create HintDb doctests.
#[local] Hint Unfold doctest_new doctest_new_string doctest_contains doctest_len doctest_is_empty doctest_get
  doctest_get_one doctest_get_one_absent doctest_replace_new doctest_replace
  doctest_replace_raw doctest_replace_all doctest_add doctest_add_raw
  doctest_add_all doctest_remove doctest_remove_all : doctests.

Ltac run_doctest :=
  autounfold with doctests; cbv beta zeta delta [foldl];
  rewrite ?(st_run (HeaderMap.add_all _ _)) ?(st_run HeaderMap.remove_all);
  cbv beta iota zeta;
  autorewrite with hdr_obs; autorewrite with hdr_contents;
  by vm_compute.

Section passes.
Context {M : Type} {ops : HashMap.Ops string (list string) M}.
Context {laws : HashMap.Laws string (list string) M}.

(** C23: every example in the documentation of [header.rs] passes, whatever
    the order in which the hash map iterates: each of its assertions
    holds. *)
Theorem passes : doctests (M:=M) = replicate 17 true.
Proof. rewrite /doctests /=. repeat f_equal; run_doctest. Qed.

End passes.

Lemma passes_witness :
  doctests (M:=list (string * list string)) = replicate 17 true.
Proof. exact passes. Defined.

End DocTests.
