(* ===== verification/DocTestsCow.v ===== *)
(** * The examples of the source, over the map that keeps [Cow]s

    [DocTests] runs the examples of the documentation on the map over text.
    Here they are once more with the types the source gives them: a string
    literal is a [&'static str] and converts into a borrowed [Cow], a typed
    header converts into a name borrowed for ['static] and an owned value,
    [vec!["value_3".into(), "value_4".into()]] is a vector of [Cow]s, and what [get] and [get_one] return is text borrowed
    from the map for the scope [s] of the example.

    [DocTestsCow.cow_passes] proves that every example passes over every lawful
    hash map: the map of [HeaderMapCow], written method by method from the
    source, passes the tests of the source. *)

From S2P Require Import Prelude HashMapModel HeaderModel HeaderCow.
From S2P Require Import MultiMapSpec HeaderMapModel HeaderMapTrace HeaderMapCow.
From S2P Require Import DocTests.
Set Warnings "-rewrite-rw".

Module DocTestsCow.
Import DocTests.

(** [impl Into<Header<'static>> for ContentType]: the name is a literal and
    the value the [String] that [to_string] returns. *)
#[global] Instance ContentType_into_cow : CowMap.IntoHeader ContentType :=
  λ ct, Cow.new (Cow.Str Lft.static "Content-Type") (content_type_value ct).

(** ** The examples *)

Section examples.
Context {M : Type} {ops : HashMap.Ops string (Cow.Cow * list Cow.Cow) M}.
Context (s : Lft.lft).

(** A fresh map, a string literal, and the text of what a query returns. *)
Local Abbreviation new_map := (CowMap.new (M:=M)).
Local Abbreviation lit text := (Cow.Str Lft.static text).
Local Abbreviation text_of values := (Cow.str_text <$> values).

(** [HeaderMap::contains] *)
Definition doctest_contains : bool :=
  let map := new_map in
  let map := exec (CowMap.add HTML) map in
  CowMap.contains map "Content-Type"
  && negb (CowMap.contains map "Accepts").

(** [HeaderMap::len] *)
Definition doctest_len : bool :=
  let map := new_map in
  let a1 := bool_decide (CowMap.len map = 0) in
  let map := exec (CowMap.add_raw (lit "X-Custom") (lit "value_1")) map in
  let a2 := bool_decide (CowMap.len map = 1) in
  let map := exec (CowMap.replace_raw (lit "X-Custom") (lit "value_2")) map in
  let a3 := bool_decide (CowMap.len map = 1) in
  let map := exec (CowMap.add_raw (lit "X-Custom") (lit "value_1")) map in
  let a4 := bool_decide (CowMap.len map = 2) in
  a1 && a2 && a3 && a4.

(** [HeaderMap::is_empty] *)
Definition doctest_is_empty : bool :=
  let map := new_map in
  CowMap.is_empty map.

(** [HeaderMap::get]: the iterator is stepped three times. *)
Definition doctest_get : bool :=
  let map := new_map in
  let map := exec (CowMap.add_raw (lit "X-Custom") (lit "value_1")) map in
  let map := exec (CowMap.add_raw (lit "X-Custom") (lit "value_2")) map in
  let a1 := bool_decide (CowMap.len map = 2) in
  let values := text_of (CowMap.get s map "X-Custom") in
  let a2 := bool_decide (values !! 0 = Some "value_1") in
  let a3 := bool_decide (values !! 1 = Some "value_2") in
  let a4 := bool_decide (values !! 2 = None) in
  a1 && a2 && a3 && a4.

(** [HeaderMap::get_one], the two examples. *)
Definition doctest_get_one : bool :=
  let map := new_map in
  let map := exec (CowMap.add_raw (lit "X-Custom") (lit "value_1")) map in
  let map := exec (CowMap.add_raw (lit "X-Custom") (lit "value_2")) map in
  let a1 := bool_decide (CowMap.len map = 2) in
  let first_value := text_of (CowMap.get_one s map "X-Custom") in
  a1 && bool_decide (first_value = Some "value_1").

Definition doctest_get_one_absent : bool :=
  let map := new_map in
  let map := exec (CowMap.add_raw (lit "X-Custom") (lit "value_1")) map in
  let first_value := text_of (CowMap.get_one s map "X-Other") in
  bool_decide (first_value = None).

(** [HeaderMap::replace], the two examples. *)
Definition doctest_replace_new : bool :=
  let map := new_map in
  let map := exec (CowMap.replace JSON) map in
  is_some (CowMap.get_one s map "Content-Type").

Definition doctest_replace : bool :=
  let map := new_map in
  let map := exec (CowMap.replace JSON) map in
  let a1 :=
    bool_decide (text_of (CowMap.get_one s map "Content-Type")
                 = Some "application/json") in
  let map := exec (CowMap.replace GIF) map in
  let a2 :=
    bool_decide (text_of (CowMap.get_one s map "Content-Type")
                 = Some "image/gif") in
  let a3 := bool_decide (CowMap.len map = 1) in
  a1 && a2 && a3.

(** [HeaderMap::replace_raw] *)
Definition doctest_replace_raw : bool :=
  let map := new_map in
  let map := exec (CowMap.replace_raw (lit "X-Custom") (lit "value_1")) map in
  let a1 :=
    bool_decide (text_of (CowMap.get_one s map "X-Custom") = Some "value_1") in
  let map := exec (CowMap.replace_raw (lit "X-Custom") (lit "value_2")) map in
  let a2 :=
    bool_decide (text_of (CowMap.get_one s map "X-Custom") = Some "value_2") in
  let a3 := bool_decide (CowMap.len map = 1) in
  a1 && a2 && a3.

(** [HeaderMap::replace_all]: the values of the first [get] are collected as
    [String]s, those of the second as [&str]. *)
Definition doctest_replace_all : bool :=
  let map := new_map in
  let map := exec (CowMap.add_raw (lit "X-Custom") (lit "value_1")) map in
  let map := exec (CowMap.add_raw (lit "X-Custom") (lit "value_2")) map in
  let vals := text_of (CowMap.get s map "X-Custom") in
  let a1 := bool_decide (vals = ["value_1"; "value_2"]) in
  let map :=
    exec (CowMap.replace_all (lit "X-Custom")
            [Cow.into_cow (lit "value_3"); Cow.into_cow (lit "value_4")]) map in
  let vals := text_of (CowMap.get s map "X-Custom") in
  let a2 := bool_decide (vals = ["value_3"; "value_4"]) in
  a1 && a2.

(** [HeaderMap::add] *)
Definition doctest_add : bool :=
  let map := new_map in
  let cookie := [mk_cookie "a" "b"] in
  let map := exec (CowMap.add (mk_set_cookie cookie)) map in
  let a1 := bool_decide (length (CowMap.get s map "Set-Cookie") = 1) in
  let cookie := [mk_cookie "c" "d"] in
  let map := exec (CowMap.add (mk_set_cookie cookie)) map in
  let a2 := bool_decide (length (CowMap.get s map "Set-Cookie") = 2) in
  a1 && a2.

(** [HeaderMap::add_raw] *)
Definition doctest_add_raw : bool :=
  let map := new_map in
  let map := exec (CowMap.add_raw (lit "X-Custom") (lit "value_1")) map in
  let a1 := bool_decide (length (CowMap.get s map "X-Custom") = 1) in
  let map := exec (CowMap.add_raw (lit "X-Custom") (lit "value_2")) map in
  let values := text_of (CowMap.get s map "X-Custom") in
  let a2 := bool_decide (values = ["value_1"; "value_2"]) in
  a1 && a2.

(** [HeaderMap::add_all]: [values] is the caller's vector, which the call
    empties. *)
Definition doctest_add_all : bool :=
  let map := new_map in
  let values := [Cow.into_cow (lit "value_1"); Cow.into_cow (lit "value_2")] in
  let '(values, map) := CowMap.add_all (lit "X-Custom") values map in
  let a1 := bool_decide (length (CowMap.get s map "X-Custom") = 2) in
  let a2 := bool_decide (length values = 0) in
  let values := [Cow.into_cow (lit "value_3"); Cow.into_cow (lit "value_4")] in
  let '(values, map) := CowMap.add_all (lit "X-Custom") values map in
  let a3 := bool_decide (length (CowMap.get s map "X-Custom") = 4) in
  let a4 := bool_decide (length values = 0) in
  let values := text_of (CowMap.get s map "X-Custom") in
  let a5 := bool_decide (values = ["value_1"; "value_2"; "value_3"; "value_4"]) in
  a1 && a2 && a3 && a4 && a5.

(** [HeaderMap::remove] *)
Definition doctest_remove : bool :=
  let map := new_map in
  let map := exec (CowMap.add_raw (lit "X-Custom") (lit "value_1")) map in
  let map := exec (CowMap.add_raw (lit "X-Custom") (lit "value_2")) map in
  let map := exec (CowMap.add_raw (lit "X-Other") (lit "other")) map in
  let a1 := bool_decide (CowMap.len map = 3) in
  let map := exec (CowMap.remove "X-Custom") map in
  let a2 := bool_decide (CowMap.len map = 1) in
  a1 && a2.

(** [HeaderMap::remove_all]: the headers are compared as [HashSet]s, whose
    [Hash] and [==] see the text of a header. *)
Definition doctest_remove_all : bool :=
  let all_headers :=
    [Cow.new (lit "X-Custom") (lit "value_1");
     Cow.new (lit "X-Custom") (lit "value_2");
     Cow.new (lit "X-Other") (lit "other")] in
  let map := new_map in
  let map :=
    foldl (λ map header, exec (CowMap.add header) map) map
      (Cow.Header_clone <$> all_headers) in
  let a1 := bool_decide (CowMap.len map = 3) in
  let '(removed_headers, map) := CowMap.remove_all map in
  let a2 := CowMap.is_empty map in
  let expected_set : gset Header.Header :=
    list_to_set (Cow.erase <$> all_headers) in
  let actual_set : gset Header.Header :=
    list_to_set (Cow.erase <$> removed_headers) in
  let a3 := bool_decide (expected_set = actual_set) in
  a1 && a2 && a3.

(** All of them. *)
Definition doctests : list bool :=
  [doctest_contains; doctest_len; doctest_is_empty; doctest_get;
   doctest_get_one; doctest_get_one_absent; doctest_replace_new;
   doctest_replace; doctest_replace_raw; doctest_replace_all; doctest_add;
   doctest_add_raw; doctest_add_all; doctest_remove; doctest_remove_all].

End examples.

(** ** The examples pass *)

(** Over [gmap], by running them. *)
Example cow_doctests_gmap :
  doctests (M:=gmap string (Cow.Cow * list Cow.Cow)) CowMap.request
  = replicate 15 true.
Proof. by vm_compute. Qed.

Create HintDb cow_doctests.
#[local] Hint Unfold doctest_contains doctest_len doctest_is_empty doctest_get
  doctest_get_one doctest_get_one_absent doctest_replace_new doctest_replace
  doctest_replace_raw doctest_replace_all doctest_add doctest_add_raw
  doctest_add_all doctest_remove doctest_remove_all : cow_doctests.

(** Over every lawful hash map, from the specification, as in [DocTests]:
    the queries are observations of the contents, and the contents after a
    call are the step of the specification on the text of its arguments. *)
Ltac run_cow_doctest :=
  autounfold with cow_doctests; rewrite ?Cow.fmap_Header_clone;
  cbv beta zeta delta [foldl];
  rewrite ?(st_run (CowMap.add_all _ _)) ?(st_run CowMap.remove_all);
  cbv beta iota zeta;
  try (rewrite CowMap.list_to_set_remove_all_erase;
       [|exact (CowMap.run_all_keyed
                  [CowMap.Add _; CowMap.Add _; CowMap.Add _] _
                  CowMap.keyed_new)]);
  autorewrite with cow_obs; autorewrite with cow_contents;
  by vm_compute.

Section passes.
Context {M : Type} {ops : HashMap.Ops string (Cow.Cow * list Cow.Cow) M}.
Context {laws : HashMap.Laws string (Cow.Cow * list Cow.Cow) M}.

Theorem cow_passes s : doctests (M:=M) s = replicate 15 true.
Proof. rewrite /doctests /=. repeat f_equal; run_cow_doctest. Qed.

End passes.

End DocTestsCow.
